(** * ColdPress: the quantile packet codec

    A shallow embedding of [coldpress/encode.py] and [coldpress/decode.py].
    Python floats and numpy's float64 are IEEE binary64 numbers: they are
    modelled by Rocq's primitive [float], whose operations are the same
    binary64 operations.  Python integers are [Z], byte strings are
    [list byte], and a call that may raise returns a [result]. *)

From Stdlib Require Import ZArith List Bool Lia Floats String.
From Stdlib Require Import Strings.Byte.
From Stdlib Require Uint63.
Import ListNotations.
Set Warnings "-inexact-float".

Local Open Scope Z_scope.

(** ** Exceptions *)

(** The exceptions the modelled code can raise.  A [ValueError] carries the
    place that raised it, so that two [raise ValueError] statements of one
    function can be told apart. *)
Inductive verr : Set :=
| TooManyQuantiles      (* encode_quantiles: Nq > packetsize-3 *)
| EpsMinTooLarge        (* encode_quantiles: eps_min > 0.00255 *)
| EpsTooLarge           (* encode_quantiles: int(np.round(eps*100000)) > 255 *)
| PayloadTooLong        (* encode_quantiles: L > packetsize-5 *)
| WrongCount            (* encode_quantiles: packet decodes to wrong number *)
| ShiftExceedsTolerance (* encode_quantiles: shift in quantiles exceeds tolerance *)
| NanToInteger          (* int(nan) *)
| ByteOutOfRange        (* bytearray item assignment outside range(256) *)
| EmptyMax              (* max() of an empty sequence *)
| NegativeCount         (* bytearray(n), np.linspace(.., n) with n < 0 *)
| NegativeDimensions    (* np.zeros with a negative dimension *)
| InterpEmpty           (* np.interp: array of sample points is empty *)
| InterpLength          (* np.interp: fp and xp are not of the same length *)
| QuantileRange         (* np.quantile: quantiles must be in the range [0, 1] *)
| BadPacketSize         (* _batch_encode: packetsize % 4 != 0 *)
| BadIniQuantiles       (* _batch_encode: packetsize - ini_quantiles < 3 *)
| BadArguments          (* quantiles_to_binned: conflicting or missing grid arguments *)
| RangeExceeded         (* quantiles_to_binned: support exceeds the grid *)
| UnknownMethod         (* quantiles_to_binned: method is neither linear nor spline *)
| Wrapped (inner : verr)(* decode_to_*: "Source i: ..." re-raised *)
| Extractor.            (* raised by the quantile extractor *)

Inductive exn : Set :=
| ValueError (why : verr)
| IndexError
| StructError
| OverflowError
| TypeError
| NameError (name : string).

Inductive result (A : Type) : Type :=
| Ok (a : A)
| Raise (e : exn).
Arguments Ok {A} a.
Arguments Raise {A} e.

Definition bind {A B} (m : result A) (k : A -> result B) : result B :=
  match m with
  | Ok a => k a
  | Raise e => Raise e
  end.

Notation "x <- m ;; k" := (bind m (fun x => k))
  (at level 61, m at next level, right associativity).
Notation "' p <- m ;; k" := (bind m (fun x => let p := x in k))
  (at level 61, p pattern, m at next level, right associativity).

Definition is_ok {A} (r : result A) : bool :=
  match r with Ok _ => true | Raise _ => false end.


(** ** Floats and integers *)

Module Num.

Local Open Scope float_scope.

(** [float(n)] for a Python integer: the nearest binary64 number. *)
Definition Z2float (n : Z) : float :=
  if (Z.abs n <? 2 ^ 62)%Z
  then (if (n <? 0)%Z then - of_uint63 (Uint63.of_Z (- n)%Z)
        else of_uint63 (Uint63.of_Z n))
  else SF2Prim (binary_normalize prec emax n 0 false).

(** The integer value of a finite float with a non-negative exponent, and the
    three roundings of mantissa [m] scaled by [2^e] when [e] is negative. *)
Definition floor_scaled (s : bool) (m : positive) (e : Z) : Z :=
  Z.shiftl (cond_Zopp s (Zpos m)) e.

Definition ceil_scaled (s : bool) (m : positive) (e : Z) : Z :=
  (- floor_scaled (negb s) m e)%Z.

Definition trunc_scaled (s : bool) (m : positive) (e : Z) : Z :=
  cond_Zopp s (Z.shiftl (Zpos m) e).

Definition half_even (m : Z) (n : Z) : Z :=
  (let q := Z.shiftr m n in
   let r := m - Z.shiftl q n in
   let h := Z.shiftl 1 (n - 1) in
   if r <? h then q
   else if h <? r then q + 1
   else if Z.even q then q else q + 1)%Z.

Definition round_scaled (s : bool) (m : positive) (e : Z) : Z :=
  if (0 <=? e)%Z then cond_Zopp s (Z.shiftl (Zpos m) e)
  else cond_Zopp s (half_even (Zpos m) (- e)%Z).

Definition to_int (f : bool -> positive -> Z -> Z) (x : float) : result Z :=
  match Prim2SF x with
  | S754_nan => Raise (ValueError NanToInteger)
  | S754_infinity _ => Raise OverflowError
  | S754_zero _ => Ok 0%Z
  | S754_finite s m e => Ok (f s m e)
  end.

(** [int(x)]: truncation towards zero. *)
Definition py_int : float -> result Z := to_int trunc_scaled.
(** [int(np.floor(x))]. *)
Definition int_floor : float -> result Z := to_int floor_scaled.
(** [int(np.ceil(x))]. *)
Definition int_ceil : float -> result Z := to_int ceil_scaled.
(** [int(np.round(x))] and [int(round(x))]: nearest integer, ties to even. *)
Definition int_round : float -> result Z := to_int round_scaled.

(** [np.floor(x)] as a float; a float with a non-negative exponent is an
    integer already. *)
Definition np_floor (x : float) : float :=
  match Prim2SF x with
  | S754_finite s m e =>
      if (0 <=? e)%Z then x else Z2float (floor_scaled s m e)
  | _ => x
  end.

(** [np.ceil(x)]; the sign of a zero result follows numpy
    ([np.ceil(-0.3)] is [-0.0]). *)
Definition np_ceil (x : float) : float := - np_floor (- x).

(** [np.max] of a non-empty array: a NaN anywhere gives NaN. *)
Definition np_max2 (a b : float) : float :=
  if is_nan a || is_nan b then nan else if a <? b then b else a.

Definition np_max (l : list float) : result float :=
  match l with
  | [] => Raise (ValueError EmptyMax)
  | a :: l' => Ok (fold_left np_max2 l' a)
  end.

(** The built-in [max] of Python over a sequence of floats: the first
    element, replaced by each later element that compares greater. *)
Definition py_max (l : list float) : result float :=
  match l with
  | [] => Raise (ValueError EmptyMax)
  | a :: l' => Ok (fold_left (fun m x => if m <? x then x else m) l' a)
  end.

(** [np.sort]: ascending, NaN last. *)
Definition sort_le (x y : float) : bool :=
  if is_nan y then true else if is_nan x then false else x <=? y.

Fixpoint insert_sorted (x : float) (l : list float) : list float :=
  match l with
  | [] => [x]
  | y :: l' => if sort_le x y then x :: l else y :: insert_sorted x l'
  end.

Definition np_sort (l : list float) : list float :=
  fold_right insert_sorted [] l.

(** Element-wise difference of two arrays of equal length. *)
Fixpoint np_sub (a b : list float) : list float :=
  match a, b with
  | x :: a', y :: b' => (x - y) :: np_sub a' b'
  | _, _ => []
  end.

End Num.
Import Num.

(** ** Sequences *)

(** [l[i]] with Python's negative indices; out of range raises IndexError. *)
Definition py_index {A} (d : A) (l : list A) (i : Z) : result A :=
  let n := Z.of_nat (List.length l) in
  let j := if i <? 0 then i + n else i in
  if (0 <=? j) && (j <? n) then Ok (nth (Z.to_nat j) l d) else Raise IndexError.

(** [l[1:-1]] and [l[:-2]]. *)
Definition interior {A} (l : list A) : list A := removelast (tl l).
Definition but_last_two {A} (l : list A) : list A := removelast (removelast l).

(** ** Bytes and [struct] *)

Definition byte_val (b : byte) : Z := Z.of_N (Byte.to_N b).

Definition byte_of (z : Z) : byte :=
  match Byte.of_N (Z.to_N z) with
  | Some b => b
  | None => x00
  end.

Definition in_u16 (n : Z) : bool := (0 <=? n) && (n <=? 65535).

(** [struct.pack('>H', n)] and [struct.pack('<H', n)]. *)
Definition pack_H_be (n : Z) : result (list byte) :=
  if in_u16 n then Ok [byte_of (n / 256); byte_of (n mod 256)]
  else Raise StructError.

Definition pack_H_le (n : Z) : result (list byte) :=
  if in_u16 n then Ok [byte_of (n mod 256); byte_of (n / 256)]
  else Raise StructError.

(** [struct.unpack('>H', bs)[0]]: exactly two bytes. *)
Definition unpack_H_be (bs : list byte) : result Z :=
  match bs with
  | [hi; lo] => Ok (256 * byte_val hi + byte_val lo)
  | _ => Raise StructError
  end.

(** [struct.unpack('<HH', bs)]: exactly four bytes. *)
Definition unpack_HH_le (bs : list byte) : result (Z * Z) :=
  match bs with
  | [a0; a1; b0; b1] =>
      Ok (byte_val a0 + 256 * byte_val a1, byte_val b0 + 256 * byte_val b1)
  | _ => Raise StructError
  end.

Definition max_byte (bs : list byte) : Z :=
  fold_right (fun b m => Z.max (byte_val b) m) 0 bs.

(** ** decode.py: decode_quantiles *)

Local Open Scope float_scope.

(** The [while i < length] loop.  [last] is [zs[-1]]; the result is the list
    of values appended to [zs] by the loop, in order. *)
Fixpoint decode_loop (eps last : float) (payload : list byte)
  : result (list float) :=
  match payload with
  | [] => Ok []
  | b :: rest =>
      if (byte_val b =? 0)%Z && (max_byte payload =? 0)%Z then Ok []
      else if (byte_val b <? 255)%Z then
        let z := last + Z2float (byte_val b) * eps in
        zs <- decode_loop eps z rest ;; Ok (z :: zs)
      else
        match rest with
        | hi :: lo :: rest' =>
            let d := (256 * byte_val hi + byte_val lo)%Z in
            let z := last + Z2float d * eps in
            zs <- decode_loop eps z rest' ;; Ok (z :: zs)
        | _ => Raise StructError
        end
  end.

Definition decode_quantiles (packet : list byte) : result (list float) :=
  eps_int <- py_index x00 packet 0 ;;
  let eps := Z2float (byte_val eps_int) * 0.00001 in
  '(xmin_int, xmax_int) <- unpack_HH_le (firstn 4 (skipn 1 packet)) ;;
  let zmin := Z2float xmin_int * 0.0002 - 0.01 in
  let zmax := Z2float xmax_int * 0.0002 - 0.01 in
  let payload := skipn 5 packet in
  zs <- decode_loop eps zmin payload ;;
  Ok (zmin :: zs ++ [zmax]).

(** ** encode.py: encode_quantiles *)

(** One interior quantile of the payload loop: the record for delta [d]. *)
Definition delta_record (d : Z) : result (list byte) :=
  if (0 <=? d)%Z && (d <=? 254)%Z then Ok [byte_of d]
  else hl <- pack_H_be d ;; Ok (xff :: hl).

(** The [for z in quantiles[1:-1]] loop, started with [prev = zmin_rec]. *)
Fixpoint encode_payload (eps prev : float) (zs : list float)
  : result (list byte) :=
  match zs with
  | [] => Ok []
  | z :: zs' =>
      d <- int_round ((z - prev) / eps) ;;
      rec <- delta_record d ;;
      rest <- encode_payload eps (prev + Z2float d * eps) zs' ;;
      Ok (rec ++ rest)
  end.

(** The deltas [d] computed by the same loop, without the records. *)
Fixpoint encode_deltas (eps prev : float) (zs : list float) : result (list Z) :=
  match zs with
  | [] => Ok []
  | z :: zs' =>
      d <- int_round ((z - prev) / eps) ;;
      _ <- delta_record d ;;
      rest <- encode_deltas eps (prev + Z2float d * eps) zs' ;;
      Ok (d :: rest)
  end.

Definition float_abs_list (l : list float) : list float := map abs l.

(** The [if validate:] block. [tolerance] is [None] for Python's [None]. *)
Definition validate_packet (quantiles : list float) (packet : list byte)
    (tolerance : option float) : result unit :=
  qrecovered <- decode_quantiles packet ;;
  if negb (Nat.eqb (List.length qrecovered) (List.length quantiles))
  then Raise (ValueError WrongCount)
  else
    let shift := np_sub (interior quantiles) (interior qrecovered) in
    m <- py_max (float_abs_list shift) ;;
    match tolerance with
    | None => Raise TypeError
    | Some tol =>
        if tol <? m then Raise (ValueError ShiftExceedsTolerance) else Ok tt
    end.

Definition encode_quantiles (quantiles : list float) (packetsize : Z)
    (validate : bool) (tolerance : option float)
  : result (Z * list byte) :=
  let Nq := Z.of_nat (List.length quantiles) in
  if (packetsize - 3 <? Nq)%Z then Raise (ValueError TooManyQuantiles) else
  zmin <- py_index 0 quantiles 0 ;;
  zmax <- py_index 0 quantiles (-1) ;;
  xmin_int <- int_floor ((zmin + 0.01) / 0.0002) ;;
  xmax_int <- int_ceil ((zmax + 0.01) / 0.0002) ;;
  let zmin_rec := Z2float xmin_int * 0.0002 - 0.01 in
  let zmax_rec := Z2float xmax_int * 0.0002 - 0.01 in
  let max_big_gaps := ((packetsize - (Nq + 3)) / 2)%Z in
  let gaps := np_sort (np_sub (interior quantiles) (but_last_two quantiles)) in
  gapthreshold <- py_index 0 gaps (- max_big_gaps - 1) ;;
  let eps_min := 0.00001 * np_ceil (100000 * gapthreshold / 254) in
  if 0.00255 <? eps_min then Raise (ValueError EpsMinTooLarge) else
  gaps_last <- py_index 0 gaps (-1) ;;
  let eps_min2 := 0.00001 * np_ceil (100000 * gaps_last / 65535) in
  eps <- np_max [0.00001; eps_min; eps_min2] ;;
  code <- int_round (eps * 100000) ;;
  if (255 <? code)%Z then Raise (ValueError EpsTooLarge) else
  payload <- encode_payload eps zmin_rec (interior quantiles) ;;
  let L := Z.of_nat (List.length payload) in
  if (packetsize - 5 <? L)%Z then Raise (ValueError PayloadTooLong) else
  if (packetsize <? 0)%Z then Raise (ValueError NegativeCount) else
  if negb ((0 <=? code)%Z && (code <=? 255)%Z)
  then Raise (ValueError ByteOutOfRange) else
  xmin_bytes <- pack_H_le xmin_int ;;
  xmax_bytes <- pack_H_le xmax_int ;;
  let packet :=
    [byte_of code] ++ xmin_bytes ++ xmax_bytes ++ payload
    ++ repeat x00 (Z.to_nat (packetsize - 5 - L)) in
  _ <- (if validate then validate_packet quantiles packet tolerance
        else Ok tt) ;;
  Ok (L, packet).

(** The delta codes read by the [while] loop of [decode_quantiles], one per
    record, without the accumulation. *)
Fixpoint decode_deltas (payload : list byte) : result (list Z) :=
  match payload with
  | [] => Ok []
  | b :: rest =>
      if (byte_val b =? 0)%Z && (max_byte payload =? 0)%Z then Ok []
      else if (byte_val b <? 255)%Z then
        ds <- decode_deltas rest ;; Ok (byte_val b :: ds)
      else
        match rest with
        | hi :: lo :: rest' =>
            ds <- decode_deltas rest' ;;
            Ok ((256 * byte_val hi + byte_val lo)%Z :: ds)
        | _ => Raise StructError
        end
  end.

(** [zs[-1] + d * eps], repeated over a list of deltas. *)
Fixpoint accumulate (eps last : float) (ds : list Z) : list float :=
  match ds with
  | [] => []
  | d :: ds' =>
      let z := last + Z2float d * eps in z :: accumulate eps z ds'
  end.

(** ** encode.py: _batch_encode *)

(** [data]: the dictionary built by [encode_from_binned] or
    [encode_from_samples]. *)
Inductive batch_data : Type :=
| PDF_histogram (zvector : list float) (PDF : list (list float))
| Samples (samples : list (list float)).

(** One row of the source table, as the quantile extractor receives it. *)
Inductive source_row : Type :=
| HistogramRow (zvector Pz : list float)
| SamplesRow (samples : list float).

Definition rows_of (data : batch_data) : list source_row :=
  match data with
  | PDF_histogram zvector PDF => map (HistogramRow zvector) PDF
  | Samples samples => map SamplesRow samples
  end.

(** [np.frombuffer(packet, dtype='>i4')]: big-endian signed 32-bit words. *)
Definition be_i4 (a b c d : byte) : Z :=
  (let u := ((byte_val a * 256 + byte_val b) * 256 + byte_val c) * 256
            + byte_val d in
   if u <? 2 ^ 31 then u else u - 2 ^ 32)%Z.

Fixpoint frombuffer_i4 (bs : list byte) : result (list Z) :=
  match bs with
  | [] => Ok []
  | a :: b :: c :: d :: bs' =>
      ws <- frombuffer_i4 bs' ;; Ok (be_i4 a b c d :: ws)
  | _ => Raise (ValueError BadPacketSize)
  end.

Section BatchEncode.

(** [np.sum] over one row; numpy's order of additions is not modelled. *)
Variable np_sum : list float -> float.

(** [binned_to_quantiles] and [samples_to_quantiles]: the quantile
    extractors, built from [np.linspace], [np.interp] and [np.quantile];
    they are taken as given. *)
Variable binned_to_quantiles : list float -> list float -> Z -> result (list float).
Variable samples_to_quantiles : list float -> Z -> result (list float).

Definition extract_quantiles (row : source_row) (Nquantiles : Z)
  : result (list float) :=
  match row with
  | HistogramRow zvector Pz => binned_to_quantiles zvector Pz Nquantiles
  | SamplesRow s => samples_to_quantiles s Nquantiles
  end.

(** [valid]: one boolean per row. *)
Definition row_valid (row : source_row) : bool :=
  match row with
  | HistogramRow _ Pz => 0 <? np_sum Pz
  | SamplesRow s => forallb is_finite s
  end.

Variable packetsize : Z.
Variable tolerance : option float.
Variable validate : bool.

(** The [while True] loop of one row.  Each unit of [fuel] pays for one
    pass through the loop body; [None] means the fuel ran out before the
    loop was left. *)
Fixpoint search_loop (fuel : nat) (row : source_row) (Nquantiles : Z)
    (lastgood : option (list byte)) : option (result (list byte)) :=
  match fuel with
  | O => None
  | S fuel' =>
      match extract_quantiles row Nquantiles with
      | Raise e => Some (Raise e)
      | Ok quantiles =>
          match encode_quantiles quantiles packetsize validate tolerance with
          | Raise (ValueError _) =>
              match lastgood with
              | Some p => Some (Ok p)
              | None => search_loop fuel' row (Nquantiles - 2) None
              end
          | Raise e => Some (Raise e)
          | Ok (payload_length, packet) =>
              if (payload_length <? packetsize - 5)%Z then
                search_loop fuel' row (Nquantiles + 2) (Some packet)
              else if (payload_length =? packetsize - 5)%Z then
                Some (Ok packet)
              else search_loop fuel' row Nquantiles lastgood
          end
      end
  end.

(** The body of [for i in range(len(valid))]: the row of [int32col]. *)
Definition encode_row (fuel : nat) (ini_quantiles : Z) (row : source_row)
  : option (result (list Z)) :=
  if negb (row_valid row)
  then Some (Ok (repeat 0%Z (Z.to_nat (packetsize / 4))))
  else
    match search_loop fuel row ini_quantiles None with
    | None => None
    | Some (Raise e) => Some (Raise e)
    | Some (Ok packet) => Some (frombuffer_i4 packet)
    end.

Fixpoint encode_rows (fuel : nat) (ini_quantiles : Z) (rows : list source_row)
  : option (result (list (list Z))) :=
  match rows with
  | [] => Some (Ok [])
  | row :: rows' =>
      match encode_row fuel ini_quantiles row with
      | None => None
      | Some (Raise e) => Some (Raise e)
      | Some (Ok words) =>
          match encode_rows fuel ini_quantiles rows' with
          | None => None
          | Some (Raise e) => Some (Raise e)
          | Some (Ok out) => Some (Ok (words :: out))
          end
      end
  end.

Definition _batch_encode (fuel : nat) (data : batch_data) (ini_quantiles : Z)
  : option (result (list (list Z))) :=
  if negb (packetsize mod 4 =? 0)%Z then Some (Raise (ValueError BadPacketSize))
  else if (packetsize - ini_quantiles <? 3)%Z
  then Some (Raise (ValueError BadIniQuantiles))
  else if (packetsize / 4 <? 0)%Z
  then Some (Raise (ValueError NegativeDimensions))
  else encode_rows fuel ini_quantiles (rows_of data).

End BatchEncode.

(** [int32col[i].tobytes()] for big-endian words. *)
Definition i4_bytes (w : Z) : list byte :=
  (let u := w mod 2 ^ 32 in
   [byte_of (u / 2 ^ 24); byte_of ((u / 2 ^ 16) mod 256);
    byte_of ((u / 2 ^ 8) mod 256); byte_of (u mod 256)])%Z.

Definition tobytes (ws : list Z) : list byte := flat_map i4_bytes ws.

(** ** decode.py: decode_to_samples *)

(** The values the names of [decode_to_samples] can be bound to. *)
Inductive pyval : Type :=
| VArray (a : list (list float))
| VOther.

(** The names bound at module level in decode.py: its imports and its
    functions. *)
Definition decode_globals : list (string * pyval) :=
  map (fun n => (n, VOther))
    ["np"; "struct"; "sys"; "decode_quantiles"; "quantiles_to_binned";
     "quantiles_to_samples"; "decode_to_binned"; "decode_to_samples"]%string.

Fixpoint lookup (env : list (string * pyval)) (name : string) : option pyval :=
  match env with
  | [] => None
  | (n, v) :: env' => if String.eqb n name then Some v else lookup env' name
  end.

(** Reading a name: the function's locals, then the module's globals; no
    built-in of Python is called [PDF]. *)
Definition load_name (locals : list (string * pyval)) (name : string)
  : result pyval :=
  match lookup (locals ++ decode_globals) name with
  | Some v => Ok v
  | None => Raise (NameError name)
  end.

Definition wrap_value_error {A} (r : result A) : result A :=
  match r with
  | Raise (ValueError w) => Raise (ValueError (Wrapped w))
  | _ => r
  end.

Section DecodeToSamples.

(** [quantiles_to_samples]: draws from [np.random.uniform] and
    interpolates; taken as given. *)
Variable quantiles_to_samples :
  list float -> option Z -> string -> result (list float).

(** [np.full((Nsources, Nsamples), np.nan)]. *)
Definition np_full_nan (Nsources : nat) (Nsamples : option Z)
  : result (list (list float)) :=
  match Nsamples with
  | None => Raise TypeError
  | Some n =>
      if (n <? 0)%Z then Raise (ValueError NegativeCount)
      else Ok (repeat (repeat nan (Z.to_nat n)) Nsources)
  end.

(** The [for i in range(Nsources)] loop: the rows of [samples] after it. *)
Fixpoint fill_samples (int32col : list (list byte))
    (samples : list (list float)) (Nsamples : option Z) (method : string)
  : result (list (list float)) :=
  match int32col, samples with
  | row :: int32col', srow :: samples' =>
      srow' <- (if negb (max_byte row =? 0)%Z then
                  qrecovered <- decode_quantiles row ;;
                  wrap_value_error
                    (quantiles_to_samples qrecovered Nsamples method)
                else Ok srow) ;;
      rest <- fill_samples int32col' samples' Nsamples method ;;
      Ok (srow' :: rest)
  | _, _ => Ok []
  end.

Definition decode_to_samples (int32col : list (list byte))
    (Nsamples : option Z) (method : string) : result pyval :=
  let Nsources := List.length int32col in
  samples0 <- np_full_nan Nsources Nsamples ;;
  samples <- fill_samples int32col samples0 Nsamples method ;;
  let locals :=
    [("int32col", VOther); ("Nsamples", VOther); ("method", VOther);
     ("Nsources", VOther); ("samples", VArray samples); ("i", VOther);
     ("packet", VOther); ("qrecovered", VOther)]%string in
  load_name locals "PDF"%string.

End DecodeToSamples.

(** ** decode.py: quantiles_to_binned *)

(** [np.linspace(start, stop, num)]: [arange(0, num)] scaled by the step
    and shifted by [start], the last value then set to [stop].  When the
    step is 0 numpy divides by [num - 1] before it multiplies by
    [stop - start]; for a single value there is no step and it multiplies
    by [stop - start] alone. *)
Definition np_linspace (start stop : float) (num : Z) : result (list float) :=
  if (num <? 0)%Z then Raise (ValueError NegativeCount)
  else
    let div := (num - 1)%Z in
    let delta := stop - start in
    let y := map (fun i => Z2float (Z.of_nat i)) (seq 0 (Z.to_nat num)) in
    let y :=
      if (0 <? div)%Z then
        let step := delta / Z2float div in
        if step =? 0 then map (fun i => i / Z2float div * delta + start) y
        else map (fun i => i * step + start) y
      else map (fun i => i * delta + start) y in
    Ok (if (1 <? num)%Z then removelast y ++ [stop] else y).

(** [np.interp]: the search of numpy's [binary_search_with_guess] for the
    index [j] with [arr[j] <= key < arr[j+1]].  [-1] and [len] stand for a
    key below [arr[0]] and above [arr[len-1]]; the upper end is tested
    first.  Arrays of four elements or fewer are scanned from the left;
    longer ones are searched around [guess], the index found for the
    previous key, and then by bisection. *)
Definition at_index (arr : list float) (i : Z) : float :=
  nth (Z.to_nat i) arr 0.

Fixpoint linear_scan (key : float) (rest : list float) (i : Z) : Z :=
  match rest with
  | [] => i
  | a :: rest' => if a <=? key then linear_scan key rest' (i + 1)%Z else i
  end.

Fixpoint bisect (fuel : nat) (key : float) (arr : list float) (imin imax : Z)
  : Z :=
  match fuel with
  | O => imin
  | S fuel' =>
      if (imin <? imax)%Z then
        let imid := (imin + (imax - imin) / 2)%Z in
        if at_index arr imid <=? key then bisect fuel' key arr (imid + 1)%Z imax
        else bisect fuel' key arr imin imid
      else imin
  end.

Definition binary_search_with_guess (key : float) (arr : list float)
    (guess : Z) : Z :=
  let len := Z.of_nat (List.length arr) in
  if at_index arr (len - 1) <? key then len
  else if key <? at_index arr 0 then (-1)%Z
  else if (len <=? 4)%Z then (linear_scan key (tl arr) 1 - 1)%Z
  else
    let guess := if (len - 3 <? guess)%Z then (len - 3)%Z else guess in
    let guess := if (guess <? 1)%Z then 1%Z else guess in
    let search := fun imin imax =>
      (bisect (List.length arr) key arr imin imax - 1)%Z in
    if key <? at_index arr guess then
      if key <? at_index arr (guess - 1) then
        search
          (if (8 <? guess)%Z && (at_index arr (guess - 8) <=? key)
           then (guess - 8)%Z else 0%Z)
          (guess - 1)%Z
      else (guess - 1)%Z
    else if key <? at_index arr (guess + 1) then guess
    else if key <? at_index arr (guess + 2) then (guess + 1)%Z
    else
      search (guess + 2)%Z
        (if (guess <? len - 8 - 1)%Z && (key <? at_index arr (guess + 8))
         then (guess + 8)%Z else len).

(** The value at one point [x], and the index kept as the next guess; a
    NaN is passed through and keeps the guess. *)
Definition interp_at (xp fp : list float) (left right : float) (j : Z)
    (x : float) : float * Z :=
  if is_nan x then (x, j)
  else
    let len := Z.of_nat (List.length xp) in
    let j := binary_search_with_guess x xp j in
    let v :=
      if (j =? -1)%Z then left
      else if (j =? len)%Z then right
      else if (j =? len - 1)%Z then at_index fp j
      else if at_index xp j =? x then at_index fp j
      else
        let slope := (at_index fp (j + 1) - at_index fp j)
                     / (at_index xp (j + 1) - at_index xp j) in
        let r := slope * (x - at_index xp j) + at_index fp j in
        if is_nan r then
          let r' := slope * (x - at_index xp (j + 1)) + at_index fp (j + 1) in
          if is_nan r' && (at_index fp j =? at_index fp (j + 1))
          then at_index fp j else r'
        else r in
    (v, j).

Fixpoint interp_all (xp fp : list float) (left right : float) (j : Z)
    (x : list float) : list float :=
  match x with
  | [] => []
  | x0 :: x' =>
      let '(v, j') := interp_at xp fp left right j x0 in
      v :: interp_all xp fp left right j' x'
  end.

(** [np.interp(x, xp, fp, left, right)]; [left] and [right] are the values
    the caller passes or, by default, [fp[0]] and [fp[-1]]. *)
Definition np_interp (x xp fp : list float) (left right : float)
  : result (list float) :=
  match xp with
  | [] => Raise (ValueError InterpEmpty)
  | [xp0] =>
      if negb (Nat.eqb (List.length fp) 1)
      then Raise (ValueError InterpLength)
      else
        Ok (map (fun x0 => if x0 <? xp0 then left
                          else if xp0 <? x0 then right
                          else at_index fp 0) x)
  | _ =>
      if negb (Nat.eqb (List.length fp) (List.length xp))
      then Raise (ValueError InterpLength)
      else Ok (interp_all xp fp left right 0 x)
  end.

(** [a[1:] - a[:-1]]. *)
Definition np_diff (a : list float) : list float := np_sub (tl a) (removelast a).

Section QuantilesToBinned.

(** [np.sum]; [np.arange(start, stop, step)]; and
    [_monotone_natural_spline] of utils.py, which calls scipy.  They are
    taken as given. *)
Variable np_sum : list float -> float.
Variable np_arange : float -> float -> float -> result (list float).
Variable _monotone_natural_spline :
  list float -> list float -> list float -> result (list float).

Definition is_some {A} (o : option A) : bool :=
  match o with Some _ => true | None => false end.

(** The grid and [dz] after the grid creation logic; [dz] stays [None] on
    the [Nbins] path. *)
Definition make_grid (zq : list float) (dz : option float) (Nbins : option Z)
    (z_min z_max : option float) (zvector : option (list float))
  : result (list float * option float) :=
  match zvector with
  | Some zv =>
      z1 <- py_index 0 zv 1 ;;
      z0 <- py_index 0 zv 0 ;;
      Ok (zv, Some (z1 - z0))
  | None =>
      range_min <- match z_min with
                   | None => py_index 0 zq 0
                   | Some v => Ok v
                   end ;;
      range_max <- match z_max with
                   | None => py_index 0 zq (-1)
                   | Some v => Ok v
                   end ;;
      match Nbins, dz with
      | Some n, _ =>
          let '(range_min, range_max) :=
            if range_min =? range_max
            then (range_min - 0.01, range_max + 0.01)
            else (range_min, range_max) in
          g <- np_linspace range_min range_max n ;;
          Ok (g, dz)
      | None, Some d =>
          range_min <- match z_min with
                       | None => q0 <- py_index 0 zq 0 ;;
                                 Ok (d * np_floor (q0 / d))
                       | Some _ => Ok range_min
                       end ;;
          range_max <- match z_max with
                       | None => q1 <- py_index 0 zq (-1) ;;
                                 Ok (d * np_ceil (q1 / d))
                       | Some _ => Ok range_max
                       end ;;
          g <- np_arange range_min (range_max + d / 2) d ;;
          Ok (g, dz)
      | None, None => Raise (ValueError BadArguments)
      end
  end.

(** [F_grid] for the two interpolation methods. *)
Definition cdf_on_edges (method : string) (edges zq Fq : list float)
  : result (list float) :=
  if String.eqb method "linear" then np_interp edges zq Fq 0 1
  else if String.eqb method "spline" then
    q0 <- py_index 0 zq 0 ;;
    q1 <- py_index 0 zq (-1) ;;
    let inside := fun e => (q0 <=? e) && (e <=? q1) in
    F_inside <- _monotone_natural_spline (filter inside edges) zq Fq ;;
    let fl := last F_inside 0 in
    let scaled :=
      if negb (Nat.eqb (List.length F_inside) 0) && (0 <? fl)
      then map (fun v => v / fl) F_inside
      else map (fun _ => 0) F_inside in
    (* F_grid: 0 below the support, 1 above it, the spline inside *)
    Ok ((fix fill (es vs : list float) : list float :=
           match es with
           | [] => []
           | e :: es' =>
               if inside e then
                 match vs with
                 | v :: vs' => v :: fill es' vs'
                 | [] => 0 :: fill es' []
                 end
               else (if q1 <? e then 1 else 0) :: fill es' vs
           end) edges scaled)
  else Raise (ValueError UnknownMethod).

(** The last steps: per-bin differences and the renormalisation. *)
Definition normalise (F_grid : list float) (dz_eff : float) : list float :=
  let pdf := np_diff F_grid in
  let pdf_sum := np_sum (map (fun p => p * dz_eff) pdf) in
  if 0 <? pdf_sum then map (fun p => p / pdf_sum) pdf else pdf.

Definition quantiles_to_binned (zq : list float) (dz : option float)
    (Nbins : option Z) (z_min z_max : option float)
    (zvector : option (list float)) (method : string) (force_range : bool)
  : result (option (list float) * list float) :=
  if force_range && negb (is_some zvector) && negb (is_some z_min)
     && negb (is_some z_max)
  then Raise (ValueError BadArguments) else
  if is_some zvector && (is_some dz || is_some Nbins)
  then Raise (ValueError BadArguments) else
  if is_some dz && is_some Nbins then Raise (ValueError BadArguments) else
  '(z_grid, dz) <- make_grid zq dz Nbins z_min z_max zvector ;;
  q0 <- py_index 0 zq 0 ;;
  dz <- match dz with Some d => Ok d | None => Raise TypeError end ;;
  q1 <- py_index 0 zq (-1) ;;
  let zmin_q := q0 + dz / 2 + 1e-10 in
  let zmax_q := q1 - dz / 2 - 1e-10 in
  zmin_grid <- py_index 0 z_grid 0 ;;
  zmax_grid <- py_index 0 z_grid (-1) ;;
  if ((zmin_q <? zmin_grid) || (zmax_grid <? zmax_q)) && negb force_range
  then Raise (ValueError RangeExceeded) else
  let M := Z.of_nat (List.length zq) in
  Fq <- np_linspace 0 1 M ;;
  dz_eff <- (if (1 <? Z.of_nat (List.length z_grid))%Z
             then g1 <- py_index 0 z_grid 1 ;;
                  g0 <- py_index 0 z_grid 0 ;; Ok (g1 - g0)
             else Ok 0) ;;
  let edges := (zmin_grid - dz_eff / 2)
               :: map (fun g => g + dz_eff / 2) z_grid in
  F_grid <- cdf_on_edges method edges zq Fq ;;
  let pdf := normalise F_grid dz_eff in
  Ok (match zvector with None => Some z_grid | Some _ => None end, pdf).

End QuantilesToBinned.

(** Left-to-right summation, numpy's order for an array of fewer than eight
    elements. *)
Definition seq_sum (l : list float) : float := fold_left add l 0.

(** ** Definitions for the further properties *)

(** The two last bytes of a payload, or all of it when it is shorter. *)
Definition last_two (payload : list byte) : list byte :=
  skipn (List.length payload - 2) payload.

(** A list of deltas without the zeros at its end. *)
Fixpoint strip_zeros (ds : list Z) : list Z :=
  match ds with
  | [] => []
  | d :: ds' =>
      match strip_zeros ds' with
      | [] => if (d =? 0)%Z then [] else [d]
      | l => d :: l
      end
  end.

(** A word of the column: a signed 32-bit integer. *)
Definition is_int32 (w : Z) : Prop := (- 2 ^ 31 <= w < 2 ^ 31)%Z.

Section SearchResult.

Variable binned_to_quantiles : list float -> list float -> Z -> result (list float).
Variable samples_to_quantiles : list float -> Z -> result (list float).
Variable packetsize : Z.
Variable tolerance : option float.
Variable validate : bool.

(** [p] is the packet [encode_quantiles] returns for [N] quantiles of the
    row, with a payload of [L] bytes. *)
Definition packet_at (row : source_row) (N L : Z) (p : list byte) : Prop :=
  exists q,
    extract_quantiles binned_to_quantiles samples_to_quantiles row N = Ok q /\
    encode_quantiles q packetsize validate tolerance = Ok (L, p).

(** [encode_quantiles] refuses [N] quantiles of the row with a ValueError. *)
Definition refused_at (row : source_row) (N : Z) : Prop :=
  exists q w,
    extract_quantiles binned_to_quantiles samples_to_quantiles row N = Ok q /\
    encode_quantiles q packetsize validate tolerance = Raise (ValueError w).

(** What the [while True] loop leaves in [packet]: the packet of some count
    [N] reached from [ini_quantiles] in steps of 2, whose payload fills the
    packet or whose next count up was refused. *)
Definition search_result (row : source_row) (ini_quantiles : Z)
    (p : list byte) : Prop :=
  exists N L,
    ((N - ini_quantiles) mod 2 = 0)%Z /\
    packet_at row N L p /\
    (L = packetsize - 5 \/ (L < packetsize - 5 /\ refused_at row (N + 2)))%Z.

End SearchResult.

(** ** encode.py: binned_to_quantiles *)

(** [np.where(Pz > 0)[0]]: the indices of the positive entries, in
    ascending order, counted from [i]. *)
Fixpoint where_positive (i : nat) (Pz : list float) : list nat :=
  match Pz with
  | [] => []
  | p :: Pz' =>
      if 0 <? p then i :: where_positive (S i) Pz'
      else where_positive (S i) Pz'
  end.

(** [np.min] and [np.max] of an index array; numpy raises ValueError on an
    empty one. *)
Definition np_min_index (l : list nat) : result nat :=
  match l with
  | [] => Raise (ValueError Extractor)
  | a :: l' => Ok (fold_left Nat.min l' a)
  end.

Definition np_max_index (l : list nat) : result nat :=
  match l with
  | [] => Raise (ValueError Extractor)
  | a :: l' => Ok (fold_left Nat.max l' a)
  end.

(** [a[lo:hi]] for indices that are not negative. *)
Definition slice {A} (lo hi : nat) (a : list A) : list A :=
  firstn (hi - lo) (skipn lo a).

(** [np.cumsum]: the running sums, from the first element on. *)
Fixpoint cumsum_from (acc : float) (l : list float) : list float :=
  match l with
  | [] => []
  | x :: l' => let s := acc + x in s :: cumsum_from s l'
  end.

Definition np_cumsum (l : list float) : list float :=
  match l with
  | [] => []
  | x :: l' => x :: cumsum_from x l'
  end.

(** [dst[1:] = src] for a destination of [n] elements: [src] must have [n]
    elements, or one element that is repeated; numpy raises ValueError
    otherwise. *)
Definition broadcast_to (n : nat) (src : list float) : result (list float) :=
  if Nat.eqb (List.length src) n then Ok src
  else match src with
       | [x] => Ok (repeat x n)
       | _ => Raise (ValueError Extractor)
       end.

(** The quantiles of a histogram.  [np.interp] is numpy's for sample points
    in ascending order, which the CDF of a histogram without negative bins
    is. *)
Definition binned_to_quantiles (z_grid Pz : list float) (Nquantiles : Z)
  : result (list float) :=
  let nonzero := where_positive 0 Pz in
  if Nat.eqb (List.length nonzero) 1 then
    z1 <- py_index 0 z_grid 1 ;;
    z0 <- py_index 0 z_grid 0 ;;
    let dz := z1 - z0 in
    i <- py_index 0%nat nonzero 0 ;;
    zi <- py_index 0 z_grid (Z.of_nat i) ;;
    np_linspace (zi - dz / 2) (zi + dz / 2) Nquantiles
  else
    imin <- np_min_index nonzero ;;
    imax <- np_max_index nonzero ;;
    let z_grid := slice imin (imax + 1) z_grid in
    let Pz := slice imin (imax + 1) Pz in
    z1 <- py_index 0 z_grid 1 ;;
    z0 <- py_index 0 z_grid 0 ;;
    let dz := z1 - z0 in
    let edges := (z0 - dz / 2) :: map (fun z => z + dz / 2) z_grid in
    cum <- broadcast_to (List.length z_grid)
             (np_cumsum (map (fun p => p * dz) Pz)) ;;
    let cdf_edges := 0 :: cum in
    c_last <- py_index 0 cdf_edges (-1) ;;
    let cdf_edges := map (fun c => c / c_last) cdf_edges in
    targets <- np_linspace 0 1 Nquantiles ;;
    np_interp targets cdf_edges edges (hd 0 edges) (last edges 0).

(** ** encode.py: encode_from_binned, encode_from_samples *)

(** [if validate:] for an argument that defaults to [None]. *)
Definition truthy (v : option bool) : bool :=
  match v with Some b => b | None => false end.

Section BatchWrappers.

Variable np_sum : list float -> float.
Variable samples_to_quantiles : list float -> Z -> result (list float).

Definition encode_from_binned (fuel : nat) (PDF : list (list float))
    (zvector : list float) (ini_quantiles packetsize : Z)
    (tolerance : option float) (validate : option bool)
  : option (result (list (list Z))) :=
  _batch_encode np_sum binned_to_quantiles samples_to_quantiles packetsize
    tolerance (truthy validate) fuel (PDF_histogram zvector PDF) ini_quantiles.

Definition encode_from_samples (fuel : nat) (samples : list (list float))
    (ini_quantiles packetsize : Z)
    (tolerance : option float) (validate : option bool)
  : option (result (list (list Z))) :=
  _batch_encode np_sum binned_to_quantiles samples_to_quantiles packetsize
    tolerance (truthy validate) fuel (Samples samples) ini_quantiles.

End BatchWrappers.

(** ** decode.py: decode_to_binned *)

(** A binary64 number rounded to binary32, as the assignment to a row of a
    [float32] array does, and kept as the binary64 number of the same
    value. *)
Definition to_float32 (x : float) : float :=
  match Prim2SF x with
  | S754_finite s m e =>
      match binary_round 24 128 s m e with
      | S754_finite s' m' e' => SF2Prim (binary_round prec emax s' m' e')
      | y => SF2Prim y
      end
  | _ => x
  end.

Section DecodeToBinned.

Variable np_sum : list float -> float.
Variable np_arange : float -> float -> float -> result (list float).
Variable _monotone_natural_spline :
  list float -> list float -> list float -> result (list float).

(** [np.any(int32col[i] != 0)]. *)
Definition any_nonzero (row : list Z) : bool :=
  existsb (fun w => negb (w =? 0)%Z) row.

(** One pass of [for i in range(Nsources)]: the row of [PDF] for one row of
    words.  The density that [quantiles_to_binned] returns for a [zvector]
    has [len(zvector)] elements, so the assignment fits the row. *)
Definition decode_row (row : list Z) (zvector : list float)
    (force_range : bool) (method : string) : result (list float) :=
  if any_nonzero row then
    qrecovered <- decode_quantiles (tobytes row) ;;
    r <- wrap_value_error
           (quantiles_to_binned np_sum np_arange _monotone_natural_spline
              qrecovered None None None None (Some zvector) method
              force_range) ;;
    Ok (map to_float32 (snd r))
  else Ok (repeat 0 (List.length zvector)).

Fixpoint decode_rows (int32col : list (list Z)) (zvector : list float)
    (force_range : bool) (method : string) : result (list (list float)) :=
  match int32col with
  | [] => Ok []
  | row :: int32col' =>
      r <- decode_row row zvector force_range method ;;
      rest <- decode_rows int32col' zvector force_range method ;;
      Ok (r :: rest)
  end.

Definition decode_to_binned (int32col : list (list Z)) (zvector : list float)
    (force_range : bool) (method : string) : result (list (list float)) :=
  decode_rows int32col zvector force_range method.

End DecodeToBinned.

(** ** Predicates used in the statements *)

Local Open Scope Z_scope.


(** The intermediate values of a call of [encode_quantiles] that returns. *)
Inductive encode_trace (q : list float) (packetsize : Z) (validate : bool)
    (tolerance : option float) (L : Z) (packet : list byte) : Prop :=
| Trace (xmin xmax : Z) (gapthreshold gaps_last eps : float) (code : Z)
    (payload : list byte)
    (tr_fits : (Z.of_nat (List.length q) <= packetsize - 3)%Z)
    (tr_xmin_eq : int_floor ((hd 0 q + 0.01) / 0.0002)%float = Ok xmin)
    (tr_xmax_eq : int_ceil ((last q 0 + 0.01) / 0.0002)%float = Ok xmax)
    (tr_nonempty : q <> [])
    (tr_step4 :
       (0.00255 <? 0.00001 * np_ceil (100000 * gapthreshold / 254))%float
       = false)
    (tr_eps_eq :
       np_max [0.00001; 0.00001 * np_ceil (100000 * gapthreshold / 254);
               0.00001 * np_ceil (100000 * gaps_last / 65535)]%float
       = Ok eps)
    (tr_code_eq : int_round (eps * 100000)%float = Ok code)
    (tr_code_range : (0 <= code <= 255)%Z)
    (tr_payload_eq :
       encode_payload eps (Z2float xmin * 0.0002 - 0.01)%float (interior q)
       = Ok payload)
    (tr_L : L = Z.of_nat (List.length payload))
    (tr_L_fits : (L <= packetsize - 5)%Z)
    (tr_xmin_range : (0 <= xmin <= 65535)%Z)
    (tr_xmax_range : (0 <= xmax <= 65535)%Z)
    (tr_packet :
       packet =
       [byte_of code; byte_of (xmin mod 256); byte_of (xmin / 256);
        byte_of (xmax mod 256); byte_of (xmax / 256)]
       ++ payload ++ repeat x00 (Z.to_nat (packetsize - 5 - L)))
    (tr_validated :
       validate = true -> validate_packet q packet tolerance = Ok tt).

(** Passes through the loop body that are enough for any row. *)
Definition search_bound (ini_quantiles packetsize : Z) : nat :=
  (Z.to_nat (ini_quantiles + 2) + Z.to_nat packetsize + 3)%nat.

(** The quantiles of a uniform distribution between the first and the last
    value of a row: an extractor to run the loop on. *)
Definition uniform_quantiles (row : list float) (Nquantiles : Z)
  : result (list float) :=
  np_linspace (hd 0%float row) (last row 0%float) Nquantiles.

(** Steps 3 to 5 of the encoder: the sorted interior gaps and the two
    minimal steps (encode.py, lines 73 to 82). *)
Definition gaps_of (q : list float) : list float :=
  np_sort (np_sub (interior q) (but_last_two q)).

Definition step4_eps_min (q : list float) (packetsize : Z) : result float :=
  let Nq := Z.of_nat (List.length q) in
  let max_big_gaps := (packetsize - (Nq + 3)) / 2 in
  gapthreshold <- py_index 0%float (gaps_of q) (- max_big_gaps - 1) ;;
  Ok (0.00001 * np_ceil (100000 * gapthreshold / 254))%float.

Definition step5_eps_min2 (q : list float) : result float :=
  gaps_last <- py_index 0%float (gaps_of q) (-1) ;;
  Ok (0.00001 * np_ceil (100000 * gaps_last / 65535))%float.

(** [r] does not raise the error of the defensive check. *)
Definition not_eps_error {A} (r : result A) : Prop :=
  r <> Raise (ValueError EpsTooLarge).

(** Each element is at most the next one. *)
Fixpoint non_decreasing (l : list float) : bool :=
  match l with
  | x :: (y :: _) as l' => (x <=? y)%float && non_decreasing l'
  | _ => true
  end.

(** Each element is less than the next one. *)
Fixpoint strictly_increasing (l : list float) : bool :=
  match l with
  | x :: (y :: _) as l' => (x <? y)%float && strictly_increasing l'
  | _ => true
  end.

(** A float that is a number: zero or finite. *)
Definition is_number (x : float) : bool :=
  match Prim2SF x with
  | S754_zero _ | S754_finite _ _ _ => true
  | _ => false
  end.

(** * The arithmetic of binary64 rounding

    Definitions that describe, with integers, what the rounding of
    [SpecFloat] computes; the lemmas that relate the two follow below. *)

Definition fexp64 (e : Z) : Z := SpecFloat.fexp prec emax e.

(** The number of binary digits of a positive number. *)
Definition digits (m : positive) : Z := Zpos (digits2_pos m).

(** After [k >= 1] single shifts of an exact [m]: the quotient by [2^k], and
    the remainder split into its top bit (the round bit) and the rest (the
    sticky bit tells whether the rest is non-zero). *)
Definition shifted (m : Z) (k : Z) (rec : shr_record) : Prop :=
  shr_m rec = m / 2 ^ k /\
  exists low, 0 <= low < 2 ^ (k - 1) /\
    m mod 2 ^ k = (if shr_r rec then 2 ^ (k - 1) else 0) + low /\
    shr_s rec = negb (low =? 0).

(** Whether [q = m / 2^n] with remainder [r] is rounded up. *)
Definition rne_up (q r n : Z) : bool :=
  (2 ^ n <? 2 * r) || ((2 * r =? 2 ^ n) && Z.odd q).

(** [m / 2^n] rounded to the nearest integer, ties to even. *)
Definition rne (m n : Z) : Z :=
  m / 2 ^ n + (if rne_up (m / 2 ^ n) (m mod 2 ^ n) n then 1 else 0).

(** The float made of a rounded mantissa [q <= 2^53] at exponent [t]. *)
Definition pack (s : bool) (q t : Z) : spec_float :=
  if q =? 0 then S754_zero s
  else if q <? 2 ^ 53 then
    if t <=? 971 then S754_finite s (Z.to_pos q) t else S754_infinity s
  else
    if t + 1 <=? 971 then S754_finite s (Z.to_pos (2 ^ 52)) (t + 1)
    else S754_infinity s.

(** The rounded mantissa of [m * 2^e], at the exponent [fexp64] chooses. *)
Definition rnd_mantissa (m : positive) (e : Z) : Z :=
  let t := fexp64 (digits m + e) in
  if e <=? t then rne (Zpos m) (t - e) else Zpos m * 2 ^ (e - t).

Definition rnd (s : bool) (m : positive) (e : Z) : spec_float :=
  pack s (rnd_mantissa m e) (fexp64 (digits m + e)).

(** The second half of [binary_round_aux]. *)
Definition finish (s : bool) (q t : Z) : spec_float :=
  let '(mrs, e) := shr_fexp prec emax q t loc_Exact in
  match shr_m mrs with
  | Z0 => S754_zero s
  | Zpos m => if e <=? emax - prec then S754_finite s m e else S754_infinity s
  | Zneg _ => S754_nan
  end.

(** A key whose lexicographic order is the order [SFcompare] decides on
    floats that are not NaN: the class (-2 for -inf, -1 negative, 0 zero,
    1 positive, 2 for +inf), then the exponent, then the mantissa. *)
Definition key (x : spec_float) : Z * Z * Z :=
  match x with
  | S754_nan => (0, 0, 0)
  | S754_zero _ => (0, 0, 0)
  | S754_infinity true => (-2, 0, 0)
  | S754_infinity false => (2, 0, 0)
  | S754_finite true m e => (-1, - e, - Zpos m)
  | S754_finite false m e => (1, e, Zpos m)
  end.

Definition lex_le (a b : Z * Z * Z) : Prop :=
  let '(c1, e1, m1) := a in
  let '(c2, e2, m2) := b in
  c1 < c2 \/ (c1 = c2 /\ (e1 < e2 \/ (e1 = e2 /\ m1 <= m2))).

Definition lex_lt (a b : Z * Z * Z) : Prop :=
  let '(c1, e1, m1) := a in
  let '(c2, e2, m2) := b in
  c1 < c2 \/ (c1 = c2 /\ (e1 < e2 \/ (e1 = e2 /\ m1 < m2))).

Definition sf_nan (x : spec_float) : bool :=
  match x with S754_nan => true | _ => false end.

(** Classes of floats, read off the key. *)
Definition class (x : spec_float) : Z := fst (fst (key x)).

(** A positive finite float. *)
Definition pos_finite (c : float) : bool :=
  match Prim2SF c with S754_finite false _ _ => true | _ => false end.

(** A float that is zero or positive and finite. *)
Definition fin_nonneg (x : float) : bool :=
  match Prim2SF x with
  | S754_zero _ | S754_finite false _ _ => true
  | _ => false
  end.

(** * Properties *)

(** ** Rounding in SpecFloat, characterised arithmetically *)

Lemma fexp64_eq (e : Z) : fexp64 e = Z.max (e - 53) (-1074).
Proof. reflexivity. Qed.

Lemma digits2_pos_size (m : positive) : digits2_pos m = Pos.size m.
Proof. induction m; simpl; congruence. Qed.

Lemma digits_bounds (m : positive) :
  2 ^ (digits m - 1) <= Zpos m < 2 ^ digits m.
Proof.
  unfold digits. rewrite digits2_pos_size. split.
  - pose proof (Pos.size_le m) as H.
    assert (H2 : (2 ^ Pos.size m <= m~0)%positive) by exact H.
    apply Pos2Z.pos_le_pos in H2. rewrite Pos2Z.inj_pow in H2.
    replace (Zpos (Pos.size m)) with (Z.succ (Zpos (Pos.size m) - 1)) in H2 by lia.
    rewrite Z.pow_succ_r in H2 by lia.
    change (Zpos m~0) with (2 * Zpos m) in H2. lia.
  - pose proof (Pos.size_gt m) as H.
    apply Pos2Z.pos_lt_pos in H. rewrite Pos2Z.inj_pow in H. exact H.
Qed.

Lemma digits_pos (m : positive) : 1 <= digits m.
Proof. unfold digits. lia. Qed.

Lemma pow2_lt_mono (a b : Z) : 0 <= a -> 2 ^ a < 2 ^ b -> a < b.
Proof.
  intros Ha H. destruct (Z.lt_ge_cases a b) as [|Hge]; [assumption|].
  destruct (Z.lt_ge_cases b 0) as [Hb|Hb].
  - rewrite (Z.pow_neg_r 2 b) in H by lia.
    pose proof (Z.pow_pos_nonneg 2 a). lia.
  - pose proof (Z.pow_le_mono_r 2 b a). lia.
Qed.

Lemma digits_unique (m : positive) (k : Z) :
  2 ^ (k - 1) <= Zpos m < 2 ^ k -> digits m = k.
Proof.
  intros [H1 H2]. pose proof (digits_bounds m) as [B1 B2].
  pose proof (digits_pos m).
  assert (1 <= k).
  { destruct (Z.lt_ge_cases k 1); [|assumption].
    destruct (Z.eq_dec k 0) as [->|];
      [simpl in H2; lia | rewrite Z.pow_neg_r in H2 by lia; lia]. }
  assert (digits m - 1 < k) by (apply pow2_lt_mono; lia).
  assert (k - 1 < digits m) by (apply pow2_lt_mono; lia).
  lia.
Qed.

Lemma digits_le (m1 m2 : positive) :
  Zpos m1 <= Zpos m2 -> digits m1 <= digits m2.
Proof.
  intros H. pose proof (digits_bounds m1) as [B1 _].
  pose proof (digits_bounds m2) as [_ B2]. pose proof (digits_pos m1).
  assert (digits m1 - 1 < digits m2) by (apply pow2_lt_mono; lia). lia.
Qed.

Lemma digits_mul_pow2 (m : positive) (k : Z) (p : positive) :
  0 <= k -> Zpos p = Zpos m * 2 ^ k -> digits p = digits m + k.
Proof.
  intros Hk Hp. apply digits_unique. rewrite Hp.
  pose proof (digits_bounds m) as [B1 B2]. pose proof (digits_pos m).
  replace (digits m + k - 1) with ((digits m - 1) + k) by lia.
  rewrite !Z.pow_add_r by lia.
  pose proof (Z.pow_pos_nonneg 2 k). nia.
Qed.

(** ** Right shifts with a round bit and a sticky bit *)

Lemma iter_pos_iter {A} (f : A -> A) (p : positive) (x : A) :
  iter_pos f p x = Pos.iter f x p.
Proof.
  revert x. induction p as [p IH|p IH|]; intros x; simpl.
  - rewrite !IH. rewrite !Pos.iter_swap. reflexivity.
  - rewrite !IH. reflexivity.
  - reflexivity.
Qed.

Lemma iter_pos_nat {A} (f : A -> A) (p : positive) (x : A) :
  iter_pos f p x = Nat.iter (Pos.to_nat p) f x.
Proof. rewrite iter_pos_iter. apply Pos2Nat.inj_iter. Qed.

Lemma shr_1_nonneg (m : Z) (r s : bool) :
  0 <= m ->
  shr_1 {| shr_m := m; shr_r := r; shr_s := s |}
  = {| shr_m := m / 2; shr_r := Z.odd m; shr_s := r || s |}.
Proof.
  intros Hm. destruct m as [|p|p]; [reflexivity| |lia].
  destruct p as [p|p|]; unfold shr_1.
  - f_equal. rewrite Pos2Z.inj_xI.
    apply Z.div_unique with 1; lia.
  - f_equal. rewrite Pos2Z.inj_xO.
    apply Z.div_unique with 0; lia.
  - reflexivity.
Qed.

Lemma shifted_step (m k : Z) (rec : shr_record) :
  0 <= m -> 1 <= k -> shifted m k rec -> shifted m (k + 1) (shr_1 rec).
Proof.
  intros Hm Hk [Hq (low & Hlow & Hr & Hs)].
  destruct rec as [q r s]. cbn [shr_m shr_r shr_s] in *.
  assert (Hq0 : 0 <= q) by (subst q; apply Z.div_pos; [lia|apply Z.pow_pos_nonneg; lia]).
  rewrite shr_1_nonneg by exact Hq0. unfold shifted.
  cbn [shr_m shr_r shr_s].
  assert (P : 0 < 2 ^ k) by (apply Z.pow_pos_nonneg; lia).
  assert (P1 : 2 ^ k = 2 * 2 ^ (k - 1)).
  { replace k with (Z.succ (k - 1)) at 1 by lia. apply Z.pow_succ_r. lia. }
  assert (P2 : 2 ^ (k + 1) = 2 ^ k * 2).
  { replace (k + 1) with (Z.succ k) by lia. rewrite Z.pow_succ_r by lia. lia. }
  replace (k + 1 - 1) with k by lia.
  split.
  - subst q. rewrite P2. rewrite Z.div_div by lia. reflexivity.
  - exists (m mod 2 ^ k).
    split; [apply Z.mod_pos_bound; lia|].
    split.
    + rewrite P2. rewrite Z.rem_mul_r by lia. rewrite <- Hq.
      rewrite Zmod_odd. destruct (Z.odd q); lia.
    + rewrite Hr, Hs. destruct r; destruct (low =? 0) eqn:E; simpl.
      * apply Z.eqb_eq in E. subst low. symmetry.
        apply negb_true_iff, Z.eqb_neq. lia.
      * symmetry. apply negb_true_iff, Z.eqb_neq. lia.
      * apply Z.eqb_eq in E. subst low. reflexivity.
      * apply Z.eqb_neq in E. symmetry. apply negb_true_iff, Z.eqb_neq. lia.
Qed.

Lemma shifted_iter (m : Z) (k : nat) :
  0 <= m ->
  shifted m (Z.of_nat (S k))
    (Nat.iter (S k) shr_1 {| shr_m := m; shr_r := false; shr_s := false |}).
Proof.
  intros Hm. induction k as [|k IH].
  - change (Nat.iter 1 shr_1 ?x) with (shr_1 x).
    rewrite shr_1_nonneg by exact Hm.
    unfold shifted. cbn [shr_m shr_r shr_s].
    change (Z.of_nat 1) with 1. change (2 ^ 1) with 2. change (2 ^ (1 - 1)) with 1.
    split; [reflexivity|]. exists 0. split; [lia|].
    split; [|reflexivity]. rewrite Zmod_odd. destruct (Z.odd m); reflexivity.
  - replace (Z.of_nat (S (S k))) with (Z.of_nat (S k) + 1) by lia.
    change (Nat.iter (S (S k)) shr_1 ?x) with (shr_1 (Nat.iter (S k) shr_1 x)).
    apply shifted_step; [exact Hm | lia | exact IH].
Qed.

Lemma shr_shifted (m e : Z) (p : positive) :
  0 <= m ->
  let '(rec, e') := shr {| shr_m := m; shr_r := false; shr_s := false |} e (Zpos p) in
  shifted m (Zpos p) rec /\ e' = e + Zpos p.
Proof.
  intros Hm. unfold shr. split; [|reflexivity].
  rewrite iter_pos_nat.
  destruct (Pos.to_nat p) as [|k] eqn:E; [lia|].
  replace (Zpos p) with (Z.of_nat (S k)) by lia.
  apply shifted_iter. exact Hm.
Qed.

(** ** Rounding to nearest, ties to even *)

Lemma rne_0 (m : Z) : rne m 0 = m.
Proof.
  unfold rne, rne_up. change (2 ^ 0) with 1.
  rewrite Z.div_1_r, Z.mod_1_r. simpl. lia.
Qed.

Lemma rne_bounds (m n : Z) : m / 2 ^ n <= rne m n <= m / 2 ^ n + 1.
Proof. unfold rne. destruct (rne_up _ _ _); lia. Qed.

Lemma rne_shifted (m k : Z) (rec : shr_record) :
  1 <= k -> shifted m k rec ->
  round_nearest_even (shr_m rec) (loc_of_shr_record rec) = rne m k.
Proof.
  intros Hk [Hq (low & Hlow & Hr & Hs)].
  destruct rec as [q r s]. cbn [shr_m shr_r shr_s] in *.
  assert (P1 : 2 ^ k = 2 * 2 ^ (k - 1)).
  { replace k with (Z.succ (k - 1)) at 1 by lia. apply Z.pow_succ_r. lia. }
  assert (P : 0 < 2 ^ (k - 1)) by (apply Z.pow_pos_nonneg; lia).
  unfold rne, rne_up. rewrite <- Hq, Hr.
  destruct r, s; cbn [loc_of_shr_record round_nearest_even].
  - symmetry in Hs. apply negb_true_iff, Z.eqb_neq in Hs.
    destruct (2 ^ k <? 2 * (2 ^ (k - 1) + low)) eqn:E;
      [simpl; lia | apply Z.ltb_ge in E; lia].
  - symmetry in Hs. apply negb_false_iff, Z.eqb_eq in Hs. subst low.
    destruct (2 ^ k <? 2 * (2 ^ (k - 1) + 0)) eqn:E; [apply Z.ltb_lt in E; lia|].
    destruct (2 * (2 ^ (k - 1) + 0) =? 2 ^ k) eqn:F; [|apply Z.eqb_neq in F; lia].
    simpl. rewrite <- Z.negb_odd. destruct (Z.odd q); simpl; lia.
  - destruct (2 ^ k <? 2 * (0 + low)) eqn:E; [apply Z.ltb_lt in E; lia|].
    destruct (2 * (0 + low) =? 2 ^ k) eqn:F; [apply Z.eqb_eq in F; lia|].
    simpl. lia.
  - symmetry in Hs. apply negb_false_iff, Z.eqb_eq in Hs. subst low.
    destruct (2 ^ k <? 2 * (0 + 0)) eqn:E; [apply Z.ltb_lt in E; lia|].
    destruct (2 * (0 + 0) =? 2 ^ k) eqn:F; [apply Z.eqb_eq in F; lia|].
    simpl. lia.
Qed.

Lemma finish_spec (s : bool) (q t : Z) :
  0 <= q <= 2 ^ 53 -> -1074 <= t -> (-1074 < t -> 2 ^ 52 <= q) ->
  finish s q t = pack s q t.
Proof.
  intros Hq Ht Hnorm. unfold finish, pack, shr_fexp.
  destruct q as [|p|p]; [| |lia].
  - (* zero *)
    cbn [Zdigits2 shr_record_of_loc].
    assert (H : SpecFloat.fexp prec emax (0 + t) - t <= 0).
    { change (SpecFloat.fexp prec emax (0 + t)) with (fexp64 (0 + t)).
      rewrite fexp64_eq. lia. }
    unfold shr. destruct (SpecFloat.fexp prec emax (0 + t) - t); try lia; reflexivity.
  - cbn [Zdigits2 shr_record_of_loc].
    change (Zpos (digits2_pos p)) with (digits p).
    change (SpecFloat.fexp prec emax (digits p + t)) with (fexp64 (digits p + t)).
    pose proof (digits_bounds p) as [B1 B2]. pose proof (digits_pos p).
    destruct (Z.pos p =? 0) eqn:E0; [apply Z.eqb_eq in E0; lia|].
    destruct (Z.pos p <? 2 ^ 53) eqn:E1.
    + apply Z.ltb_lt in E1.
      assert (Hd : digits p <= 53).
      { assert (digits p - 1 < 53) by (apply pow2_lt_mono; lia). lia. }
      assert (Hf : fexp64 (digits p + t) - t = 0).
      { rewrite fexp64_eq. destruct (Z.eq_dec t (-1074)) as [->|Hne]; [lia|].
        assert (2 ^ 52 <= Zpos p) by (apply Hnorm; lia).
        assert (52 < digits p) by (apply pow2_lt_mono; lia). lia. }
      rewrite Hf. cbn [shr shr_m]. reflexivity.
    + apply Z.ltb_ge in E1. assert (Hp : Zpos p = 2 ^ 53) by lia.
      assert (Hd : digits p = 54).
      { apply digits_unique. rewrite Hp. simpl. lia. }
      assert (Hf : fexp64 (digits p + t) - t = 1).
      { rewrite fexp64_eq. lia. }
      rewrite Hf. cbn [shr iter_pos].
      rewrite shr_1_nonneg by lia. cbn [shr_m]. rewrite Hp.
      change (2 ^ 53 / 2) with (Zpos (Z.to_pos (2 ^ 52))).
      cbv iota. reflexivity.
Qed.

Lemma binary_round_aux_finish (s : bool) (m e : Z) :
  binary_round_aux prec emax s m e loc_Exact =
  let '(mrs, e') := shr_fexp prec emax m e loc_Exact in
  finish s (round_nearest_even (shr_m mrs) (loc_of_shr_record mrs)) e'.
Proof. reflexivity. Qed.

Lemma fexp64_ge (e : Z) : -1074 <= fexp64 e.
Proof. rewrite fexp64_eq. lia. Qed.

Lemma pow2_split (a b : Z) : 0 <= a -> 0 <= b -> 2 ^ (a + b) = 2 ^ a * 2 ^ b.
Proof. intros. apply Z.pow_add_r; assumption. Qed.

(** The quotient kept by the rounding has at most 53 digits, and exactly 53
    above the smallest exponent. *)
Lemma quotient_bounds (m : positive) (e : Z) :
  let t := fexp64 (digits m + e) in
  e <= t ->
  0 <= Zpos m / 2 ^ (t - e) < 2 ^ 53 /\
  (-1074 < t -> 2 ^ 52 <= Zpos m / 2 ^ (t - e)).
Proof.
  intros t Het. subst t. rewrite fexp64_eq in *.
  pose proof (digits_bounds m) as [B1 B2]. pose proof (digits_pos m).
  set (n := Z.max (digits m + e - 53) (-1074) - e) in *.
  assert (Hn : 0 <= n) by lia.
  assert (P : 0 < 2 ^ n) by (apply Z.pow_pos_nonneg; lia).
  split; [split|].
  - apply Z.div_pos; lia.
  - apply Z.div_lt_upper_bound; [lia|].
    rewrite <- pow2_split by lia.
    assert (2 ^ digits m <= 2 ^ (n + 53)) by (apply Z.pow_le_mono_r; lia). lia.
  - intros Hnorm. apply Z.div_le_lower_bound; [lia|].
    rewrite <- pow2_split by lia.
    replace (n + 52) with (digits m - 1) by lia. exact B1.
Qed.

Lemma binary_round_aux_spec (s : bool) (m : positive) (e : Z) :
  let t := fexp64 (digits m + e) in
  e <= t ->
  binary_round_aux prec emax s (Zpos m) e loc_Exact
  = pack s (rne (Zpos m) (t - e)) t.
Proof.
  intros t Het. rewrite binary_round_aux_finish. unfold shr_fexp.
  cbn [Zdigits2 shr_record_of_loc].
  change (Zpos (digits2_pos m)) with (digits m).
  change (SpecFloat.fexp prec emax (digits m + e)) with t.
  pose proof (quotient_bounds m e Het) as [[Q1 Q2] Q3]. fold t in Q1, Q2, Q3.
  pose proof (rne_bounds (Zpos m) (t - e)) as [R1 R2].
  pose proof (fexp64_ge (digits m + e)) as Ht. fold t in Ht.
  destruct (t - e) as [|p|p] eqn:En; [| |lia].
  - cbn [shr shr_m loc_of_shr_record round_nearest_even].
    rewrite rne_0 in *. change (2 ^ 0) with 1 in *. rewrite Z.div_1_r in *.
    replace e with t by lia.
    apply finish_spec; [lia | lia | exact Q3].
  - pose proof (shr_shifted (Zpos m) e p ltac:(lia)) as Hs.
    destruct (shr _ e (Zpos p)) as [rec e'] eqn:Eshr.
    destruct Hs as [Hs ->].
    rewrite (rne_shifted (Zpos m) (Zpos p) rec ltac:(lia) Hs).
    replace (e + Zpos p) with t by lia.
    apply finish_spec; [lia | lia | intros; specialize (Q3 ltac:(lia)); lia].
Qed.

Lemma Nat_iter_xO (m : positive) (k : nat) :
  Zpos (Nat.iter k xO m) = Zpos m * 2 ^ Z.of_nat k.
Proof.
  induction k as [|k IH].
  - simpl. lia.
  - rewrite Nat.iter_succ, Pos2Z.inj_xO, IH, Nat2Z.inj_succ, Z.pow_succ_r by lia.
    lia.
Qed.

Lemma Pos_iter_xO (m d : positive) :
  Zpos (Pos.iter xO m d) = Zpos m * 2 ^ Zpos d.
Proof.
  rewrite Pos2Nat.inj_iter.
  change (nat_rect _ m (fun _ => xO) (Pos.to_nat d))
    with (Nat.iter (Pos.to_nat d) xO m).
  rewrite Nat_iter_xO, positive_nat_Z. reflexivity.
Qed.

Lemma binary_round_spec (s : bool) (m : positive) (e : Z) :
  binary_round prec emax s m e = rnd s m e.
Proof.
  unfold binary_round, rnd, rnd_mantissa, shl_align.
  change (Zpos (digits2_pos m)) with (digits m).
  change (SpecFloat.fexp prec emax (digits m + e)) with (fexp64 (digits m + e)).
  set (t := fexp64 (digits m + e)).
  destruct (t - e) as [|p|p] eqn:En.
  - rewrite binary_round_aux_spec; fold t; [|lia].
    destruct (e <=? t) eqn:E; [|apply Z.leb_gt in E; lia].
    rewrite ?En. reflexivity.
  - rewrite binary_round_aux_spec; fold t; [|lia].
    destruct (e <=? t) eqn:E; [|apply Z.leb_gt in E; lia].
    rewrite ?En. reflexivity.
  - assert (Hd : digits (Pos.iter xO m p) = digits m + Zpos p).
    { apply digits_mul_pow2; [lia | apply Pos_iter_xO]. }
    assert (Ht : fexp64 (digits (Pos.iter xO m p) + t) = t).
    { rewrite Hd. subst t. f_equal. lia. }
    rewrite binary_round_aux_spec; rewrite Ht; [|lia].
    rewrite Z.sub_diag, rne_0, Pos_iter_xO.
    destruct (e <=? t) eqn:E; [apply Z.leb_le in E; lia|].
    do 3 f_equal. lia.
Qed.

(** ** The order of SpecFloat, through a key *)

Lemma pos_compare_cont_eq (a b : positive) :
  Pos.compare_cont Eq a b = (Zpos a ?= Zpos b).
Proof. reflexivity. Qed.

Ltac key_cases :=
  repeat match goal with
  | |- context [Z.compare ?a ?b] => destruct (Z.compare_spec a b)
  | H : context [Z.compare ?a ?b] |- _ => destruct (Z.compare_spec a b)
  end.

Lemma SFleb_key (a b : spec_float) :
  SFleb a b = true <->
  sf_nan a = false /\ sf_nan b = false /\ lex_le (key a) (key b).
Proof.
  unfold SFleb, SFcompare.
  destruct a as [sa|sa| |sa ma ea], b as [sb|sb| |sb mb eb];
    try destruct sa; try destruct sb; cbn [key sf_nan lex_le];
    rewrite ?pos_compare_cont_eq; key_cases; cbn [CompOpp];
    split; try (intros [? [? ?]]); intros; repeat split;
    try discriminate; try reflexivity; try lia.
Qed.

Lemma SFltb_key (a b : spec_float) :
  SFltb a b = true <->
  sf_nan a = false /\ sf_nan b = false /\ lex_lt (key a) (key b).
Proof.
  unfold SFltb, SFcompare.
  destruct a as [sa|sa| |sa ma ea], b as [sb|sb| |sb mb eb];
    try destruct sa; try destruct sb; cbn [key sf_nan lex_lt];
    rewrite ?pos_compare_cont_eq; key_cases; cbn [CompOpp];
    split; try (intros [? [? ?]]); intros; repeat split;
    try discriminate; try reflexivity; try lia.
Qed.

Lemma lex_le_trans (a b c : Z * Z * Z) : lex_le a b -> lex_le b c -> lex_le a c.
Proof.
  destruct a as [[? ?] ?], b as [[? ?] ?], c as [[? ?] ?]. unfold lex_le. lia.
Qed.

Lemma lex_le_refl (a : Z * Z * Z) : lex_le a a.
Proof. destruct a as [[? ?] ?]. unfold lex_le. lia. Qed.

Lemma lex_total (a b : Z * Z * Z) : lex_lt a b \/ lex_le b a.
Proof.
  destruct a as [[? ?] ?], b as [[? ?] ?]. unfold lex_le, lex_lt. lia.
Qed.

Lemma SFleb_trans (a b c : spec_float) :
  SFleb a b = true -> SFleb b c = true ->
  SFleb a c = true.
Proof.
  rewrite !SFleb_key. intros (Ha & Hb & H1) (_ & Hc & H2).
  repeat split; try assumption. eapply lex_le_trans; eassumption.
Qed.

Lemma SFleb_refl (a : spec_float) :
  sf_nan a = false -> SFleb a a = true.
Proof. intros H. apply SFleb_key. auto using lex_le_refl. Qed.

Lemma SFltb_false_leb (a b : spec_float) :
  sf_nan a = false -> sf_nan b = false ->
  SFltb a b = false -> SFleb b a = true.
Proof.
  intros Ha Hb H. apply SFleb_key. repeat split; try assumption.
  destruct (lex_total (key a) (key b)) as [Hlt|Hle]; [|exact Hle].
  assert (SFltb a b = true) by (apply SFltb_key; auto).
  congruence.
Qed.

Lemma SFcompare_opp (a b : spec_float) :
  SFcompare (SFopp a) (SFopp b) = SFcompare b a.
Proof.
  destruct a as [sa|sa| |sa ma ea], b as [sb|sb| |sb mb eb];
    try destruct sa; try destruct sb; cbn [SFopp SFcompare negb];
    try reflexivity;
    rewrite ?pos_compare_cont_eq; rewrite (Z.compare_antisym ea eb);
    try rewrite (Z.compare_antisym (Zpos ma) (Zpos mb));
    destruct (ea ?= eb); cbn [CompOpp]; try reflexivity;
    destruct (Zpos ma ?= Zpos mb); reflexivity.
Qed.

Lemma SFleb_opp (a b : spec_float) :
  SFleb (SFopp a) (SFopp b) = SFleb b a.
Proof. unfold SFleb. rewrite SFcompare_opp. reflexivity. Qed.

(** ** Valid finite floats *)

Lemma valid_finite (s : bool) (m : positive) (e : Z) :
  valid_binary (S754_finite s m e) = true ->
  fexp64 (digits m + e) = e /\ e <= 971.
Proof.
  cbn [valid_binary]. unfold bounded, canonical_mantissa.
  intros H. apply andb_prop in H as [H1 H2].
  apply Z.eqb_eq in H1. apply Z.leb_le in H2. split; [exact H1 | exact H2].
Qed.

Lemma valid_finite_digits (s : bool) (m : positive) (e : Z) :
  valid_binary (S754_finite s m e) = true ->
  -1074 <= e <= 971 /\ digits m <= 53 /\ (-1074 < e -> digits m = 53).
Proof.
  intros H. apply valid_finite in H as [H1 H2].
  rewrite fexp64_eq in H1. lia.
Qed.

Lemma valid_finite_bounds (s : bool) (m : positive) (e : Z) :
  valid_binary (S754_finite s m e) = true ->
  Zpos m < 2 ^ 53 /\ (-1074 < e -> 2 ^ 52 <= Zpos m).
Proof.
  intros H. apply valid_finite_digits in H as (_ & H1 & H2).
  pose proof (digits_bounds m) as [B1 B2]. pose proof (digits_pos m).
  split.
  - assert (2 ^ digits m <= 2 ^ 53) by (apply Z.pow_le_mono_r; lia). lia.
  - intros He. rewrite (H2 He) in B1. exact B1.
Qed.

(** ** The rounded mantissa *)

Lemma rnd_mantissa_bounds (m : positive) (e : Z) :
  let t := fexp64 (digits m + e) in
  0 <= rnd_mantissa m e <= 2 ^ 53 /\ (-1074 < t -> 2 ^ 52 <= rnd_mantissa m e).
Proof.
  intros t. unfold rnd_mantissa. fold t.
  destruct (e <=? t) eqn:E.
  - apply Z.leb_le in E.
    pose proof (quotient_bounds m e E) as [[Q1 Q2] Q3]. fold t in Q1, Q2, Q3.
    pose proof (rne_bounds (Zpos m) (t - e)) as [R1 R2].
    split; [lia|]. intros Ht. specialize (Q3 Ht). lia.
  - apply Z.leb_gt in E.
    pose proof (digits_bounds m) as [B1 B2]. pose proof (digits_pos m).
    assert (Ht : t = Z.max (digits m + e - 53) (-1074))
      by (subst t; apply fexp64_eq).
    assert (P : 0 < 2 ^ (e - t)) by (apply Z.pow_pos_nonneg; lia).
    split; [split|].
    + nia.
    + assert (2 ^ digits m * 2 ^ (e - t) <= 2 ^ 53).
      { rewrite <- pow2_split by lia. apply Z.pow_le_mono_r; lia. }
      nia.
    + intros Hn.
      replace (2 ^ 52) with (2 ^ (digits m - 1) * 2 ^ (e - t)).
      * nia.
      * rewrite <- pow2_split by lia. f_equal. lia.
Qed.

Lemma pack_not_nan (s : bool) (q t : Z) : sf_nan (pack s q t) = false.
Proof.
  unfold pack. destruct (q =? 0); [reflexivity|].
  destruct (q <? 2 ^ 53); [destruct (t <=? 971)|destruct (t + 1 <=? 971)];
    reflexivity.
Qed.

Lemma pack_opp (s : bool) (q t : Z) : pack (negb s) q t = SFopp (pack s q t).
Proof.
  unfold pack. destruct (q =? 0); [reflexivity|].
  destruct (q <? 2 ^ 53); [destruct (t <=? 971)|destruct (t + 1 <=? 971)];
    reflexivity.
Qed.

Lemma rnd_not_nan (s : bool) (m : positive) (e : Z) : sf_nan (rnd s m e) = false.
Proof. apply pack_not_nan. Qed.

Lemma rnd_opp (s : bool) (m : positive) (e : Z) :
  rnd (negb s) m e = SFopp (rnd s m e).
Proof. apply pack_opp. Qed.

(** The key of a packed non-negative float. *)
Lemma key_pack (q t : Z) :
  0 <= q <= 2 ^ 53 ->
  key (pack false q t) =
  if q =? 0 then (0, 0, 0)
  else if q <? 2 ^ 53 then (if t <=? 971 then (1, t, q) else (2, 0, 0))
  else (if t + 1 <=? 971 then (1, t + 1, 2 ^ 52) else (2, 0, 0)).
Proof.
  intros Hq. unfold pack. destruct (q =? 0) eqn:E; [reflexivity|].
  apply Z.eqb_neq in E.
  destruct (q <? 2 ^ 53); [destruct (t <=? 971)|destruct (t + 1 <=? 971)];
    cbn [key]; try reflexivity.
  rewrite Z2Pos.id by lia. reflexivity.
Qed.

(** ** Rounding is monotone *)

Lemma rne_mono (m1 m2 n : Z) :
  0 <= n -> 0 <= m1 <= m2 -> rne m1 n <= rne m2 n.
Proof.
  intros Hn Hm. unfold rne.
  assert (P : 0 < 2 ^ n) by (apply Z.pow_pos_nonneg; lia).
  pose proof (Z.div_mod m1 (2 ^ n) ltac:(lia)) as D1.
  pose proof (Z.div_mod m2 (2 ^ n) ltac:(lia)) as D2.
  pose proof (Z.mod_pos_bound m1 (2 ^ n) P) as B1.
  pose proof (Z.mod_pos_bound m2 (2 ^ n) P) as B2.
  assert (Hq : m1 / 2 ^ n <= m2 / 2 ^ n) by (apply Z.div_le_mono; lia).
  set (q1 := m1 / 2 ^ n) in *. set (q2 := m2 / 2 ^ n) in *.
  set (r1 := m1 mod 2 ^ n) in *. set (r2 := m2 mod 2 ^ n) in *.
  destruct (Z.eq_dec q1 q2) as [Heq|Hne].
  - rewrite <- Heq in *. assert (r1 <= r2) by lia.
    unfold rne_up.
    destruct (2 ^ n <? 2 * r1) eqn:E1; destruct (2 ^ n <? 2 * r2) eqn:E2;
      destruct (2 * r1 =? 2 ^ n) eqn:F1; destruct (2 * r2 =? 2 ^ n) eqn:F2;
      destruct (Z.odd q1); cbn [orb andb];
      rewrite ?Z.ltb_lt, ?Z.ltb_ge, ?Z.eqb_eq, ?Z.eqb_neq in *; lia.
  - destruct (rne_up q1 r1 n), (rne_up q2 r2 n); lia.
Qed.

Lemma rnd_mono_mantissa (m1 m2 : positive) (e : Z) :
  Zpos m1 <= Zpos m2 ->
  SFleb (rnd false m1 e) (rnd false m2 e) = true.
Proof.
  intros Hm. apply SFleb_key.
  split; [apply rnd_not_nan|]. split; [apply rnd_not_nan|].
  unfold rnd.
  pose proof (rnd_mantissa_bounds m1 e) as [Q1 N1].
  pose proof (rnd_mantissa_bounds m2 e) as [Q2 N2].
  rewrite !key_pack by lia.
  pose proof (digits_le m1 m2 Hm) as Hd.
  cbv zeta in N1, N2.
  set (t1 := fexp64 (digits m1 + e)) in *.
  set (t2 := fexp64 (digits m2 + e)) in *.
  assert (Ht : t1 <= t2) by (subst t1 t2; rewrite !fexp64_eq; lia).
  assert (Ht1 : -1074 <= t1) by apply fexp64_ge.
  assert (Hq : t1 = t2 -> rnd_mantissa m1 e <= rnd_mantissa m2 e).
  { intros Heq. unfold rnd_mantissa. fold t1 t2. rewrite <- Heq.
    destruct (e <=? t1) eqn:E.
    - apply Z.leb_le in E. apply rne_mono; lia.
    - apply Z.mul_le_mono_nonneg_r; [apply Z.pow_nonneg; lia | lia]. }
  set (q1 := rnd_mantissa m1 e) in *. set (q2 := rnd_mantissa m2 e) in *.
  unfold lex_le.
  destruct (q1 =? 0) eqn:A1; destruct (q2 =? 0) eqn:A2;
    destruct (q1 <? 2 ^ 53) eqn:B1; destruct (q2 <? 2 ^ 53) eqn:B2;
    destruct (t1 <=? 971) eqn:C1; destruct (t2 <=? 971) eqn:C2;
    destruct (t1 + 1 <=? 971) eqn:D1; destruct (t2 + 1 <=? 971) eqn:D2;
    rewrite ?Z.ltb_lt, ?Z.ltb_ge, ?Z.leb_le, ?Z.leb_gt, ?Z.eqb_eq, ?Z.eqb_neq in *;
    lia.
Qed.

(** ** Rounding depends on the value only *)

Lemma rne_shift (m n k : Z) :
  0 <= n -> 0 <= k -> rne (m * 2 ^ k) (n + k) = rne m n.
Proof.
  intros Hn Hk. unfold rne.
  assert (Pn : 0 < 2 ^ n) by (apply Z.pow_pos_nonneg; lia).
  assert (Pk : 0 < 2 ^ k) by (apply Z.pow_pos_nonneg; lia).
  rewrite pow2_split by lia.
  rewrite Z.div_mul_cancel_r by lia.
  rewrite Z.mul_mod_distr_r by lia.
  f_equal. unfold rne_up. rewrite pow2_split by lia.
  set (r := m mod 2 ^ n). set (N := 2 ^ n) in *. set (K := 2 ^ k) in *.
  replace (N * K <? 2 * (r * K)) with (N <? 2 * r).
  2:{ destruct (N <? 2 * r) eqn:E; symmetry.
      - apply Z.ltb_lt in E. apply Z.ltb_lt. nia.
      - apply Z.ltb_ge in E. apply Z.ltb_ge. nia. }
  replace (2 * (r * K) =? N * K) with (2 * r =? N).
  2:{ destruct (2 * r =? N) eqn:E; symmetry.
      - apply Z.eqb_eq in E. apply Z.eqb_eq. nia.
      - apply Z.eqb_neq in E. apply Z.eqb_neq. nia. }
  reflexivity.
Qed.

Lemma rnd_shift (s : bool) (m p : positive) (e k : Z) :
  0 <= k -> Zpos p = Zpos m * 2 ^ k -> rnd s p (e - k) = rnd s m e.
Proof.
  intros Hk Hp. unfold rnd, rnd_mantissa.
  rewrite (digits_mul_pow2 m k p Hk Hp).
  replace (digits m + k + (e - k)) with (digits m + e) by lia.
  set (t := fexp64 (digits m + e)). f_equal. rewrite Hp.
  destruct (e <=? t) eqn:E1; destruct (e - k <=? t) eqn:E2;
    rewrite ?Z.leb_le, ?Z.leb_gt in *; try lia.
  - replace (t - (e - k)) with ((t - e) + k) by lia.
    apply rne_shift; lia.
  - replace (Zpos m * 2 ^ k) with ((Zpos m * 2 ^ (e - t)) * 2 ^ (t - (e - k))).
    + replace (t - (e - k)) with (0 + (t - (e - k))) at 2 by lia.
      rewrite rne_shift by lia. apply rne_0.
    + rewrite <- Z.mul_assoc, <- pow2_split by lia. do 2 f_equal. lia.
  - rewrite <- Z.mul_assoc, <- pow2_split by lia. do 2 f_equal. lia.
Qed.

(** Rounding is monotone in the value [m * 2^e]. *)
Lemma rnd_mono (m1 m2 : positive) (e1 e2 : Z) :
  Zpos m1 * 2 ^ (e1 - Z.min e1 e2) <= Zpos m2 * 2 ^ (e2 - Z.min e1 e2) ->
  SFleb (rnd false m1 e1) (rnd false m2 e2) = true.
Proof.
  set (e0 := Z.min e1 e2). intros H.
  assert (P1 : 0 < 2 ^ (e1 - e0)) by (apply Z.pow_pos_nonneg; lia).
  assert (P2 : 0 < 2 ^ (e2 - e0)) by (apply Z.pow_pos_nonneg; lia).
  set (p1 := Z.to_pos (Zpos m1 * 2 ^ (e1 - e0))).
  set (p2 := Z.to_pos (Zpos m2 * 2 ^ (e2 - e0))).
  assert (H1 : Zpos p1 = Zpos m1 * 2 ^ (e1 - e0)) by (apply Z2Pos.id; nia).
  assert (H2 : Zpos p2 = Zpos m2 * 2 ^ (e2 - e0)) by (apply Z2Pos.id; nia).
  rewrite <- (rnd_shift false m1 p1 e1 (e1 - e0)) by (lia || exact H1).
  rewrite <- (rnd_shift false m2 p2 e2 (e2 - e0)) by (lia || exact H2).
  replace (e1 - (e1 - e0)) with e0 by lia.
  replace (e2 - (e2 - e0)) with e0 by lia.
  apply rnd_mono_mantissa. lia.
Qed.

(** A valid float is its own rounding. *)
Lemma rnd_valid (s : bool) (m : positive) (e : Z) :
  valid_binary (S754_finite s m e) = true -> rnd s m e = S754_finite s m e.
Proof.
  intros H. pose proof (valid_finite s m e H) as [Ht He].
  pose proof (valid_finite_bounds s m e H) as [Hm _].
  unfold rnd, rnd_mantissa. rewrite Ht.
  rewrite Z.leb_refl, Z.sub_diag, rne_0. unfold pack.
  destruct (Zpos m =? 0) eqn:E0; [apply Z.eqb_eq in E0; lia|].
  destruct (Zpos m <? 2 ^ 53) eqn:E1; [|apply Z.ltb_ge in E1; lia].
  destruct (e <=? 971) eqn:E2; [|apply Z.leb_gt in E2; lia].
  reflexivity.
Qed.

(** The order of two valid positive floats is the order of their values. *)
Lemma valid_le_value (m1 m2 : positive) (e1 e2 : Z) :
  valid_binary (S754_finite false m1 e1) = true ->
  valid_binary (S754_finite false m2 e2) = true ->
  e1 < e2 \/ (e1 = e2 /\ Zpos m1 <= Zpos m2) ->
  Zpos m1 * 2 ^ (e1 - Z.min e1 e2) <= Zpos m2 * 2 ^ (e2 - Z.min e1 e2).
Proof.
  intros V1 V2 H.
  pose proof (valid_finite_bounds _ _ _ V1) as [B1 _].
  pose proof (valid_finite_bounds _ _ _ V2) as [_ B2].
  pose proof (valid_finite_digits _ _ _ V1) as [R1 _].
  destruct H as [Hlt|[-> Hle]].
  - rewrite Z.min_l by lia. rewrite Z.sub_diag. change (2 ^ 0) with 1.
    specialize (B2 ltac:(lia)).
    assert (2 ^ 1 <= 2 ^ (e2 - e1)) by (apply Z.pow_le_mono_r; lia).
    change (2 ^ 1) with 2 in *. change (2 ^ 53) with (2 * 2 ^ 52) in B1. nia.
  - rewrite Z.min_id, Z.sub_diag. change (2 ^ 0) with 1. lia.
Qed.

(** ** Multiplication *)

Lemma digits_mul_ge (a b : positive) :
  digits a + digits b - 1 <= digits (a * b).
Proof.
  pose proof (digits_bounds a) as [A1 _]. pose proof (digits_bounds b) as [B1 _].
  pose proof (digits_bounds (a * b)) as [_ C2].
  pose proof (digits_pos a). pose proof (digits_pos b).
  rewrite Pos2Z.inj_mul in C2.
  assert (2 ^ (digits a - 1 + (digits b - 1)) < 2 ^ digits (a * b)).
  { rewrite pow2_split by lia.
    assert (0 < 2 ^ (digits a - 1)) by (apply Z.pow_pos_nonneg; lia).
    assert (0 < 2 ^ (digits b - 1)) by (apply Z.pow_pos_nonneg; lia). nia. }
  assert (digits a - 1 + (digits b - 1) < digits (a * b))
    by (apply pow2_lt_mono; lia).
  lia.
Qed.

Lemma SFmul_finite (sx sy : bool) (mx my : positive) (ex ey : Z) :
  valid_binary (S754_finite sx mx ex) = true ->
  valid_binary (S754_finite sy my ey) = true ->
  SFmul prec emax (S754_finite sx mx ex) (S754_finite sy my ey)
  = rnd (xorb sx sy) (mx * my) (ex + ey).
Proof.
  intros Vx Vy. cbn [SFmul].
  pose proof (valid_finite_digits _ _ _ Vx) as (Rx & Dx & Nx).
  pose proof (valid_finite_digits _ _ _ Vy) as (Ry & Dy & Ny).
  pose proof (digits_mul_ge mx my). pose proof (digits_pos mx).
  pose proof (digits_pos my).
  assert (Ht : ex + ey <= fexp64 (digits (mx * my) + (ex + ey))).
  { rewrite fexp64_eq.
    destruct (Z.eq_dec ex (-1074)); destruct (Z.eq_dec ey (-1074)); lia. }
  rewrite binary_round_aux_spec by exact Ht.
  unfold rnd, rnd_mantissa.
  destruct (_ <=? _) eqn:E; [reflexivity | apply Z.leb_gt in E; lia].
Qed.

Lemma class_rnd_false (m : positive) (e : Z) : 0 <= class (rnd false m e).
Proof.
  unfold class, rnd. pose proof (rnd_mantissa_bounds m e) as [Q _].
  rewrite key_pack by lia.
  destruct (_ =? 0); [simpl; lia|].
  destruct (_ <? _); [destruct (_ <=? 971)|destruct (_ + 1 <=? 971)];
    simpl; lia.
Qed.

Lemma key_class0 (x : spec_float) : class x = 0 -> key x = (0, 0, 0).
Proof.
  destruct x as [s|s| |s m e]; try destruct s; cbn; intros; try lia; reflexivity.
Qed.

Lemma key_opp (x : spec_float) :
  key (SFopp x) =
  let '(c, e, m) := key x in (- c, - e, - m).
Proof.
  destruct x as [s|s| |s m e]; try destruct s; cbn; try reflexivity;
    rewrite ?Z.opp_involutive; reflexivity.
Qed.

Lemma class_rnd_true (m : positive) (e : Z) : class (rnd true m e) <= 0.
Proof.
  change true with (negb false). rewrite rnd_opp.
  pose proof (class_rnd_false m e) as H. unfold class in *.
  rewrite key_opp. destruct (key (rnd false m e)) as [[c e'] m']. simpl in *. lia.
Qed.

(** A product with a positive finite factor keeps the order. *)
Lemma SFmul_mono (x y : spec_float) (mc : positive) (ec : Z) :
  valid_binary x = true -> valid_binary y = true ->
  valid_binary (S754_finite false mc ec) = true ->
  SFleb x y = true ->
  SFleb (SFmul prec emax x (S754_finite false mc ec))
        (SFmul prec emax y (S754_finite false mc ec)) = true.
Proof.
  intros Vx Vy Vc Hle.
  apply SFleb_key in Hle as (Nx & Ny & Hle).
  destruct x as [sx|sx| |sx mx ex]; [| |discriminate|];
    (destruct y as [sy|sy| |sy my ey]; [| |discriminate|]).
  all: rewrite ?SFmul_finite by assumption.
  all: cbn [SFmul xorb].
  all: rewrite ?xorb_false_r.
  all: apply SFleb_key.
  all: split; [try reflexivity; apply rnd_not_nan|].
  all: split; [try reflexivity; apply rnd_not_nan|].
  (* zero, zero *)
  - cbn. lia.
  - (* zero, inf *) destruct sx, sy; cbn in *; lia.
  - (* zero, finite *)
    destruct sy; [cbn in Hle; lia|].
    pose proof (class_rnd_false (my * mc) (ey + ec)) as Hc. unfold class in Hc.
    destruct (key (rnd false (my * mc) (ey + ec))) as [[c e] m] eqn:K.
    destruct (Z.eq_dec c 0) as [->|].
    + pose proof (key_class0 (rnd false (my * mc) (ey + ec))) as K0.
      unfold class in K0. rewrite K in K0. specialize (K0 eq_refl).
      injection K0 as -> ->. cbn. lia.
    + cbn in *. lia.
  - (* inf, zero *) destruct sx, sy; cbn in *; lia.
  - (* inf, inf *) destruct sx, sy; cbn in *; lia.
  - (* inf, finite *)
    destruct sx; [|destruct sy; cbn in Hle; lia].
    cbn [key]. destruct sy.
    + pose proof (rnd_mantissa_bounds (my * mc) (ey + ec)) as [Q _].
      change true with (negb false). rewrite rnd_opp, key_opp.
      unfold rnd. rewrite key_pack by lia.
      destruct (_ =? 0); [cbn; lia|].
      destruct (_ <? _); [destruct (_ <=? 971)|destruct (_ + 1 <=? 971)];
        cbn; lia.
    + pose proof (class_rnd_false (my * mc) (ey + ec)) as Hc. unfold class in Hc.
      destruct (key (rnd false (my * mc) (ey + ec))) as [[c e] m]. cbn in *. lia.
  - (* finite, zero *)
    destruct sx; [|cbn in Hle; lia].
    pose proof (class_rnd_true (mx * mc) (ex + ec)) as Hc. unfold class in Hc.
    destruct (key (rnd true (mx * mc) (ex + ec))) as [[c e] m] eqn:K.
    destruct (Z.eq_dec c 0) as [->|].
    + pose proof (key_class0 (rnd true (mx * mc) (ex + ec))) as K0.
      unfold class in K0. rewrite K in K0. specialize (K0 eq_refl).
      injection K0 as -> ->. cbn. lia.
    + cbn in *. lia.
  - (* finite, inf *)
    destruct sy; [destruct sx; cbn in Hle; lia|].
    cbn [key]. destruct sx.
    + pose proof (class_rnd_true (mx * mc) (ex + ec)) as Hc. unfold class in Hc.
      destruct (key (rnd true (mx * mc) (ex + ec))) as [[c e] m]. cbn in *. lia.
    + pose proof (rnd_mantissa_bounds (mx * mc) (ex + ec)) as [Q _].
      unfold rnd. rewrite key_pack by lia.
      destruct (_ =? 0); [cbn; lia|].
      destruct (_ <? _); [destruct (_ <=? 971)|destruct (_ + 1 <=? 971)];
        cbn; lia.
  - (* finite, finite *)
    assert (Hv : forall ma mb ea eb,
      valid_binary (S754_finite false ma ea) = true ->
      valid_binary (S754_finite false mb eb) = true ->
      ea < eb \/ (ea = eb /\ Zpos ma <= Zpos mb) ->
      SFleb (rnd false (ma * mc) (ea + ec)) (rnd false (mb * mc) (eb + ec))
      = true).
    { intros ma mb ea eb Va Vb H. apply rnd_mono.
      pose proof (valid_le_value ma mb ea eb Va Vb H) as Hval.
      replace (Z.min (ea + ec) (eb + ec)) with (Z.min ea eb + ec) by lia.
      replace (ea + ec - (Z.min ea eb + ec)) with (ea - Z.min ea eb) by lia.
      replace (eb + ec - (Z.min ea eb + ec)) with (eb - Z.min ea eb) by lia.
      rewrite !Pos2Z.inj_mul. nia. }
    destruct sx, sy; cbn [key lex_le] in Hle.
    + change true with (negb false). rewrite !rnd_opp.
      apply SFleb_key. rewrite SFleb_opp.
      apply Hv; [exact Vy | exact Vx | lia].
    + pose proof (class_rnd_true (mx * mc) (ex + ec)) as H1.
      pose proof (class_rnd_false (my * mc) (ey + ec)) as H2.
      pose proof (key_class0 (rnd true (mx * mc) (ex + ec))) as K1.
      pose proof (key_class0 (rnd false (my * mc) (ey + ec))) as K2.
      unfold class in *.
      destruct (key (rnd true (mx * mc) (ex + ec))) as [[c1 e1] m1].
      destruct (key (rnd false (my * mc) (ey + ec))) as [[c2 e2] m2].
      cbn in *.
      destruct (Z.eq_dec c1 0) as [->|]; [specialize (K1 eq_refl)|];
        (destruct (Z.eq_dec c2 0) as [->|]; [specialize (K2 eq_refl)|]);
        try (injection K1 as -> ->); try (injection K2 as -> ->); lia.
    + lia.
    + apply SFleb_key. apply Hv; [exact Vx | exact Vy | lia].
Qed.

(** ** Addition and subtraction *)

Lemma shl_align_fst (mx : positive) (ex ez : Z) :
  ez <= ex -> Zpos (fst (shl_align mx ex ez)) = Zpos mx * 2 ^ (ex - ez).
Proof.
  intros H. unfold shl_align.
  destruct (ez - ex) as [|d|d] eqn:E; cbn [fst]; [|lia|].
  - replace (ex - ez) with 0 by lia. simpl. lia.
  - rewrite Pos_iter_xO. do 2 f_equal. lia.
Qed.

Lemma binary_normalize_spec (M e : Z) :
  binary_normalize prec emax M e false =
  match M with
  | Z0 => S754_zero false
  | Zpos p => rnd false p e
  | Zneg p => rnd true p e
  end.
Proof. destruct M; cbn [binary_normalize]; rewrite ?binary_round_spec; reflexivity. Qed.

Lemma binary_normalize_not_nan (M e : Z) :
  sf_nan (binary_normalize prec emax M e false) = false.
Proof.
  rewrite binary_normalize_spec. destruct M; [reflexivity| |]; apply rnd_not_nan.
Qed.

(** The rounding of a signed mantissa is monotone in the mantissa. *)
Lemma binary_normalize_mono (M1 M2 e : Z) :
  M1 <= M2 ->
  SFleb (binary_normalize prec emax M1 e false)
        (binary_normalize prec emax M2 e false) = true.
Proof.
  intros H. rewrite !binary_normalize_spec.
  assert (Hpos : forall p, lex_le (0, 0, 0) (key (rnd false p e))).
  { intros p. pose proof (class_rnd_false p e) as Hc.
    pose proof (key_class0 (rnd false p e)) as K0. unfold class in *.
    destruct (key (rnd false p e)) as [[c e'] m]. cbn in *.
    destruct (Z.eq_dec c 0) as [->|]; [specialize (K0 eq_refl)|];
      try (injection K0 as -> ->); lia. }
  assert (Hneg : forall p, lex_le (key (rnd true p e)) (0, 0, 0)).
  { intros p. pose proof (class_rnd_true p e) as Hc.
    pose proof (key_class0 (rnd true p e)) as K0. unfold class in *.
    destruct (key (rnd true p e)) as [[c e'] m]. cbn in *.
    destruct (Z.eq_dec c 0) as [->|]; [specialize (K0 eq_refl)|];
      try (injection K0 as -> ->); lia. }
  destruct M1 as [|p1|p1], M2 as [|p2|p2]; try lia.
  - reflexivity.
  - apply SFleb_key. repeat split; [apply rnd_not_nan | apply Hpos].
  - apply rnd_mono_mantissa. lia.
  - apply SFleb_key. repeat split; [apply rnd_not_nan | apply Hneg].
  - apply SFleb_key. repeat split; try apply rnd_not_nan.
    eapply lex_le_trans; [apply Hneg | apply Hpos].
  - change true with (negb false). rewrite !rnd_opp, SFleb_opp.
    apply rnd_mono_mantissa. lia.
Qed.

Lemma binary_normalize_valid (s : bool) (m : positive) (e k : Z) :
  valid_binary (S754_finite s m e) = true -> 0 <= k ->
  binary_normalize prec emax (cond_Zopp s (Zpos m * 2 ^ k)) (e - k) false
  = S754_finite s m e.
Proof.
  intros V Hk. rewrite binary_normalize_spec.
  assert (P : 0 < 2 ^ k) by (apply Z.pow_pos_nonneg; lia).
  assert (Hp : Zpos (Z.to_pos (Zpos m * 2 ^ k)) = Zpos m * 2 ^ k)
    by (apply Z2Pos.id; nia).
  destruct s; cbn [cond_Zopp].
  - replace (- (Zpos m * 2 ^ k)) with (Zneg (Z.to_pos (Zpos m * 2 ^ k))) by lia.
    rewrite (rnd_shift true m _ e k Hk Hp). apply rnd_valid. exact V.
  - rewrite <- Hp.
    rewrite (rnd_shift false m _ e k Hk Hp). apply rnd_valid. exact V.
Qed.

(** Adding a non-negative float does not decrease a float that is neither
    NaN nor minus infinity. *)
Lemma SFadd_ge (x b : spec_float) :
  valid_binary x = true -> valid_binary b = true ->
  sf_nan x = false -> -2 < class x ->
  sf_nan b = false -> 0 <= class b ->
  SFleb x (SFadd prec emax x b) = true.
Proof.
  intros Vx Vb Nx Cx Nb Cb.
  destruct x as [sx|sx| |sx mx ex]; [| |discriminate|];
    (destruct b as [sb|sb| |sb mb eb]; [| |discriminate|]).
  - destruct sx, sb; reflexivity.
  - destruct sb; [cbn in Cb; lia|]. destruct sx; reflexivity.
  - destruct sb; [cbn in Cb; lia|]. destruct sx; reflexivity.
  - destruct sx; [cbn in Cx; lia|]. reflexivity.
  - destruct sx; [cbn in Cx; lia|]. destruct sb; [cbn in Cb; lia|]. reflexivity.
  - destruct sx; [cbn in Cx; lia|]. reflexivity.
  - cbn [SFadd]. apply SFleb_refl. reflexivity.
  - destruct sb; [cbn in Cb; lia|]. destruct sx; reflexivity.
  - destruct sb; [cbn in Cb; lia|].
    cbn [SFadd]. set (ez := Z.min ex eb).
    rewrite !shl_align_fst by lia. cbn [cond_Zopp].
    rewrite <- (binary_normalize_valid sx mx ex (ex - ez) Vx ltac:(lia)) at 1.
    replace (ex - (ex - ez)) with ez by lia.
    apply binary_normalize_mono.
    assert (0 < 2 ^ (eb - ez)) by (apply Z.pow_pos_nonneg; lia). nia.
Qed.

Lemma SFsub_not_nan (x y : spec_float) :
  sf_nan y = false ->
  match x with S754_zero _ | S754_finite _ _ _ => True | _ => False end ->
  sf_nan (SFsub prec emax x y) = false.
Proof.
  intros Ny Hx.
  destruct x as [sx|sx| |sx mx ex]; try contradiction;
    (destruct y as [sy|sy| |sy my ey]; [| |discriminate|]);
    cbn [SFsub]; try reflexivity.
  - destruct sx, sy; reflexivity.
  - apply binary_normalize_not_nan.
Qed.

Lemma SFcompare_refl (x : spec_float) :
  sf_nan x = false -> SFcompare x x = Some Eq.
Proof.
  destruct x as [s|s| |s m e]; try destruct s; try discriminate; intros _;
    cbn [SFcompare]; try reflexivity;
    rewrite Z.compare_refl, pos_compare_cont_eq, Z.compare_refl; reflexivity.
Qed.

(** ** Primitive floats through their specification *)

Lemma SFsub_ge (x y : spec_float) :
  valid_binary x = true -> valid_binary y = true ->
  sf_nan x = false -> 0 <= class x ->
  match y with S754_finite _ _ _ => True | _ => False end ->
  SFleb (SFopp y) (SFsub prec emax x y) = true.
Proof.
  intros Vx Vy Nx Cx Hy.
  destruct y as [sy|sy| |sy my ey]; try contradiction.
  destruct x as [sx|sx| |sx mx ex]; [| |discriminate|].
  - cbn [SFsub SFopp]. apply SFleb_refl. reflexivity.
  - destruct sx; [cbn in Cx; lia|]. destruct sy; reflexivity.
  - destruct sx; [cbn in Cx; lia|].
    cbn [SFsub SFopp]. set (ez := Z.min ex ey).
    rewrite !shl_align_fst by lia. cbn [cond_Zopp].
    assert (Vy' : valid_binary (S754_finite (negb sy) my ey) = true) by exact Vy.
    assert (Hk : 0 <= ey - ez) by lia.
    pose proof (binary_normalize_valid (negb sy) my ey (ey - ez) Vy' Hk) as E.
    rewrite <- E at 1.
    replace (ey - (ey - ez)) with ez by lia.
    apply binary_normalize_mono.
    assert (0 < 2 ^ (ex - ez)) by (apply Z.pow_pos_nonneg; lia).
    destruct sy; cbn [negb cond_Zopp]; nia.
Qed.

Lemma is_nan_spec (x : float) : is_nan x = sf_nan (Prim2SF x).
Proof.
  unfold is_nan. rewrite FloatAxioms.eqb_spec. unfold SFeqb.
  destruct (sf_nan (Prim2SF x)) eqn:E.
  - destruct (Prim2SF x); try discriminate. reflexivity.
  - rewrite SFcompare_refl by exact E. reflexivity.
Qed.

Lemma leb_not_nan (x y : float) :
  (x <=? y)%float = true -> is_nan x = false /\ is_nan y = false.
Proof.
  rewrite FloatAxioms.leb_spec, !is_nan_spec. intros H.
  apply SFleb_key in H as (H1 & H2 & _). auto.
Qed.

Lemma ltb_not_nan (x y : float) :
  (x <? y)%float = true -> is_nan x = false /\ is_nan y = false.
Proof.
  rewrite FloatAxioms.ltb_spec, !is_nan_spec. intros H.
  apply SFltb_key in H as (H1 & H2 & _). auto.
Qed.

Lemma leb_refl (x : float) : is_nan x = false -> (x <=? x)%float = true.
Proof. rewrite FloatAxioms.leb_spec, is_nan_spec. apply SFleb_refl. Qed.

Lemma leb_trans (x y z : float) :
  (x <=? y)%float = true -> (y <=? z)%float = true -> (x <=? z)%float = true.
Proof. rewrite !FloatAxioms.leb_spec. apply SFleb_trans. Qed.

Lemma ltb_false_leb (x y : float) :
  is_nan x = false -> is_nan y = false ->
  (x <? y)%float = false -> (y <=? x)%float = true.
Proof. rewrite !is_nan_spec, FloatAxioms.ltb_spec, FloatAxioms.leb_spec. apply SFltb_false_leb. Qed.

Lemma ltb_leb (x y : float) : (x <? y)%float = true -> (x <=? y)%float = true.
Proof.
  rewrite FloatAxioms.ltb_spec, FloatAxioms.leb_spec. intros H.
  apply SFltb_key in H as (H1 & H2 & H). apply SFleb_key.
  repeat split; try assumption.
  destruct (key (Prim2SF x)) as [[? ?] ?], (key (Prim2SF y)) as [[? ?] ?].
  unfold lex_lt in H. unfold lex_le. lia.
Qed.

Lemma ltb_leb_trans (x y z : float) :
  (x <? y)%float = true -> (y <=? z)%float = true -> (x <? z)%float = true.
Proof.
  rewrite !FloatAxioms.ltb_spec, FloatAxioms.leb_spec. intros H1 H2.
  apply SFltb_key in H1 as (N1 & N2 & H1).
  apply SFleb_key in H2 as (_ & N3 & H2). apply SFltb_key.
  repeat split; try assumption.
  destruct (key (Prim2SF x)) as [[? ?] ?], (key (Prim2SF y)) as [[? ?] ?],
    (key (Prim2SF z)) as [[? ?] ?].
  unfold lex_lt, lex_le in *. lia.
Qed.

Lemma mul_le_mono (x y c : float) :
  pos_finite c = true -> (x <=? y)%float = true ->
  (x * c <=? y * c)%float = true.
Proof.
  unfold pos_finite. intros Hc. rewrite !FloatAxioms.leb_spec, !FloatAxioms.mul_spec. unfold SF64mul.
  pose proof (Prim2SF_valid c) as Vc.
  destruct (Prim2SF c) as [| | |[|] mc ec]; try discriminate.
  apply SFmul_mono; auto using Prim2SF_valid.
Qed.

Lemma class_above_minf (x : float) :
  (neg_infinity <? x)%float = true <->
  sf_nan (Prim2SF x) = false /\ -2 < class (Prim2SF x).
Proof.
  rewrite FloatAxioms.ltb_spec. change (Prim2SF neg_infinity) with (S754_infinity true).
  rewrite SFltb_key. unfold class.
  destruct (Prim2SF x) as [s|s| |s m e]; try destruct s; cbn;
    intuition (try discriminate; try lia).
Qed.

Lemma class_nonneg (x : float) :
  (0 <=? x)%float = true <->
  sf_nan (Prim2SF x) = false /\ 0 <= class (Prim2SF x).
Proof.
  rewrite FloatAxioms.leb_spec. change (Prim2SF 0) with (S754_zero false).
  rewrite SFleb_key. unfold class.
  destruct (Prim2SF x) as [s|s| |s m e]; try destruct s; cbn;
    intuition (try discriminate; try lia).
Qed.

Lemma add_ge (x b : float) :
  (neg_infinity <? x)%float = true -> (0 <=? b)%float = true ->
  (x <=? x + b)%float = true.
Proof.
  intros Hx Hb. apply class_above_minf in Hx as [Nx Cx].
  apply class_nonneg in Hb as [Nb Cb].
  rewrite FloatAxioms.leb_spec, FloatAxioms.add_spec. unfold SF64add.
  apply SFadd_ge; auto using Prim2SF_valid.
Qed.

Lemma add_above_minf (x b : float) :
  (neg_infinity <? x)%float = true -> (0 <=? b)%float = true ->
  (neg_infinity <? x + b)%float = true.
Proof.
  intros Hx Hb. eapply ltb_leb_trans; [exact Hx | apply add_ge; assumption].
Qed.

Lemma fin_nonneg_nonneg (x : float) :
  fin_nonneg x = true -> (0 <=? x)%float = true.
Proof.
  unfold fin_nonneg. intros H. apply class_nonneg. unfold class.
  destruct (Prim2SF x) as [s|s| |[|] m e]; try discriminate; cbn; split;
    try reflexivity; lia.
Qed.

Lemma mul_fin_nonneg (a b : float) :
  fin_nonneg a = true -> fin_nonneg b = true -> (0 <=? a * b)%float = true.
Proof.
  unfold fin_nonneg. intros Ha Hb. apply class_nonneg.
  rewrite FloatAxioms.mul_spec. unfold SF64mul.
  pose proof (Prim2SF_valid a) as Va. pose proof (Prim2SF_valid b) as Vb.
  destruct (Prim2SF a) as [sa|sa| |[|] ma ea]; try discriminate;
    (destruct (Prim2SF b) as [sb|sb| |[|] mb eb]; try discriminate).
  - cbn. split; [reflexivity|lia].
  - cbn. split; [reflexivity|lia].
  - cbn. split; [reflexivity|lia].
  - rewrite SFmul_finite by assumption. cbn [xorb].
    split; [apply rnd_not_nan | apply class_rnd_false].
Qed.

Lemma sub_above_minf (x y : float) :
  (0 <=? x)%float = true -> is_finite y = true ->
  (neg_infinity <? x - y)%float = true.
Proof.
  intros Hx Hy. apply class_nonneg in Hx as [Nx Cx].
  pose proof (Prim2SF_valid x) as Vx. pose proof (Prim2SF_valid y) as Vy.
  unfold is_finite in Hy. apply negb_true_iff, orb_false_iff in Hy as [Hn Hi].
  rewrite is_nan_spec in Hn. unfold is_infinity in Hi.
  rewrite FloatAxioms.eqb_spec, FloatAxioms.abs_spec in Hi.
  change (Prim2SF infinity) with (S754_infinity false) in Hi.
  apply class_above_minf. rewrite FloatAxioms.sub_spec. unfold SF64sub.
  destruct (Prim2SF y) as [sy|sy| |sy my ey] eqn:Ey; try discriminate.
  - (* y is a zero: x - y is x or a zero *)
    unfold class in *.
    destruct (Prim2SF x) as [sx|sx| |sx mx ex]; try discriminate;
      try destruct sx; try destruct sy; cbn in *; split;
      try reflexivity; try lia.
  - pose proof (SFsub_ge (Prim2SF x) (S754_finite sy my ey) Vx Vy Nx Cx I) as H.
    apply SFleb_key in H as (_ & N & H). split; [exact N|].
    unfold class. cbn [SFopp key] in H.
    destruct (key (SFsub prec emax (Prim2SF x) (S754_finite sy my ey)))
      as [[c e] m].
    destruct sy; cbn in *; lia.
Qed.

(** ** Integers as floats *)

Lemma Z2float_spec (z : Z) :
  0 <= z < 2 ^ 62 ->
  Prim2SF (Z2float z) = binary_normalize prec emax z 0 false.
Proof.
  intros Hz. unfold Z2float.
  destruct (Z.abs z <? 2 ^ 62) eqn:E; [|apply Z.ltb_ge in E; lia].
  destruct (z <? 0) eqn:F; [apply Z.ltb_lt in F; lia|].
  rewrite FloatAxioms.of_uint63_spec. f_equal.
  rewrite Uint63.of_Z_spec. apply Z.mod_small.
  change Uint63.wB with (2 ^ 63). lia.
Qed.

Lemma Z2float_fin_nonneg (z : Z) :
  0 <= z < 2 ^ 62 -> fin_nonneg (Z2float z) = true.
Proof.
  intros Hz. unfold fin_nonneg. rewrite Z2float_spec by exact Hz.
  rewrite binary_normalize_spec.
  destruct z as [|p|p]; [reflexivity| |lia].
  unfold rnd, pack.
  pose proof (digits_bounds p) as [B1 B2]. pose proof (digits_pos p).
  assert (Hd : digits p <= 62).
  { assert (digits p - 1 < 62) by (apply pow2_lt_mono; lia). lia. }
  assert (Ht : fexp64 (digits p + 0) <= 9) by (rewrite fexp64_eq; lia).
  destruct (_ =? 0); [reflexivity|].
  destruct (_ <? 2 ^ 53).
  - destruct (_ <=? 971) eqn:E; [reflexivity | apply Z.leb_gt in E; lia].
  - destruct (_ + 1 <=? 971) eqn:E; [reflexivity | apply Z.leb_gt in E; lia].
Qed.

Lemma eps_of_byte_fin_nonneg (b : byte) :
  fin_nonneg (Z2float (byte_val b) * 0.00001)%float = true.
Proof. destruct b; vm_compute; reflexivity. Qed.

(** ** Rounding a float to an integer *)

Lemma half_even_bounds (m n : Z) :
  0 <= m -> 1 <= n ->
  let q := m / 2 ^ n in
  q <= half_even m n <= q + 1 /\
  (m - q * 2 ^ n < 2 ^ (n - 1) -> half_even m n = q).
Proof.
  intros Hm Hn q. unfold half_even.
  rewrite Z.shiftr_div_pow2 by lia. fold q.
  rewrite !Z.shiftl_mul_pow2 by lia. rewrite Z.mul_1_l.
  destruct (_ <? _) eqn:E1; [split; [lia | reflexivity]|].
  apply Z.ltb_ge in E1.
  destruct (_ <? _); [split; [lia | lia]|].
  destruct (Z.even q); split; lia.
Qed.

Lemma int_round_ge_1 (y : float) (c : Z) :
  (1 <=? y)%float = true -> int_round y = Ok c -> 1 <= c.
Proof.
  rewrite FloatAxioms.leb_spec.
  change (Prim2SF 1) with (S754_finite false 4503599627370496 (-52)).
  intros Hle. apply SFleb_key in Hle as (_ & _ & Hle).
  pose proof (Prim2SF_valid y) as V.
  unfold int_round, to_int.
  destruct (Prim2SF y) as [s|s| |s m e]; try discriminate.
  - cbn in Hle. lia.
  - destruct s; [cbn in Hle; lia|]. cbn [key lex_le] in Hle.
    intros [= <-]. unfold round_scaled. cbn [cond_Zopp].
    pose proof (valid_finite_bounds _ _ _ V) as [B1 B2].
    pose proof (valid_finite_digits _ _ _ V) as [R _].
    destruct (0 <=? e) eqn:E.
    + apply Z.leb_le in E. rewrite Z.shiftl_mul_pow2 by lia.
      assert (0 < 2 ^ e) by (apply Z.pow_pos_nonneg; lia). nia.
    + apply Z.leb_gt in E.
      pose proof (half_even_bounds (Zpos m) (- e) ltac:(lia) ltac:(lia)) as [[H1 _] _].
      assert (Hm : 2 ^ 52 <= Zpos m).
      { destruct (Z.eq_dec e (-52)) as [->|]; [lia | apply B2; lia]. }
      assert (1 <= Zpos m / 2 ^ (- e)).
      { apply Z.div_le_lower_bound; [apply Z.pow_pos_nonneg; lia|].
        rewrite Z.mul_1_r.
        assert (2 ^ (- e) <= 2 ^ 52) by (apply Z.pow_le_mono_r; lia). lia. }
      lia.
Qed.

Lemma int_round_le_255 (y : float) (c : Z) :
  (y <=? 255.00000000000003)%float = true -> int_round y = Ok c -> c <= 255.
Proof.
  rewrite FloatAxioms.leb_spec.
  change (Prim2SF 255.00000000000003)
    with (S754_finite false 8972014882652161 (-45)).
  intros Hle. apply SFleb_key in Hle as (_ & _ & Hle).
  pose proof (Prim2SF_valid y) as V.
  unfold int_round, to_int.
  destruct (Prim2SF y) as [s|s| |s m e]; try discriminate.
  - intros [= <-]. lia.
  - intros [= <-]. unfold round_scaled.
    pose proof (valid_finite_bounds _ _ _ V) as [B1 B2].
    destruct s; cbn [cond_Zopp].
    + destruct (0 <=? e) eqn:E.
      * apply Z.leb_le in E. rewrite Z.shiftl_mul_pow2 by lia.
        assert (0 < 2 ^ e) by (apply Z.pow_pos_nonneg; lia). nia.
      * apply Z.leb_gt in E.
        pose proof (half_even_bounds (Zpos m) (- e) ltac:(lia) ltac:(lia))
          as [[H1 _] _].
        assert (0 <= Zpos m / 2 ^ (- e))
          by (apply Z.div_pos; [lia | apply Z.pow_pos_nonneg; lia]).
        lia.
    + cbn [key lex_le] in Hle.
      destruct (0 <=? e) eqn:E; [apply Z.leb_le in E; lia|].
      apply Z.leb_gt in E.
      pose proof (half_even_bounds (Zpos m) (- e) ltac:(lia) ltac:(lia))
        as [[_ H2] H3].
      destruct (Z.eq_dec e (-45)) as [->|Hne].
      * change (- -45) with 45 in *.
        assert (Hm : Zpos m <= 8972014882652161) by lia.
        change (2 ^ 45) with 35184372088832 in *.
        change (2 ^ (45 - 1)) with 17592186044416 in *.
        assert (Hq : Zpos m / 35184372088832 < 256)
          by (apply Z.div_lt_upper_bound; lia).
        destruct (Z.eq_dec (Zpos m / 35184372088832) 255) as [Heq|].
        -- rewrite H3; [lia|]. rewrite Heq. lia.
        -- lia.
      * assert (Hq : Zpos m / 2 ^ (- e) < 128).
        { apply Z.div_lt_upper_bound; [apply Z.pow_pos_nonneg; lia|].
          assert (2 ^ 46 <= 2 ^ (- e)) by (apply Z.pow_le_mono_r; lia).
          change (2 ^ 53) with (2 ^ 46 * 128) in B1. nia. }
        lia.
Qed.

(** ** Maxima *)

Lemma np_max2_not_nan (a b : float) :
  is_nan (np_max2 a b) = false ->
  is_nan a = false /\ is_nan b = false /\
  (a <=? np_max2 a b)%float = true /\ (b <=? np_max2 a b)%float = true /\
  (np_max2 a b = a \/ np_max2 a b = b).
Proof.
  unfold np_max2.
  destruct (is_nan a) eqn:Na; [cbn [orb]; intros H; discriminate H|].
  destruct (is_nan b) eqn:Nb; [cbn [orb]; intros H; discriminate H|].
  cbn [orb]. intros _.
  destruct (a <? b)%float eqn:E.
  - repeat split; auto using leb_refl, ltb_leb.
  - repeat split; auto using leb_refl, ltb_false_leb.
Qed.

Lemma py_max_fold_ge (l : list float) :
  forall a, is_nan a = false ->
    let m := fold_left (fun m x => if (m <? x)%float then x else m) l a in
    is_nan m = false /\ (a <=? m)%float = true /\
    Forall (fun x => is_nan x = false -> (x <=? m)%float = true) l.
Proof.
  induction l as [|x l IH]; intros a Na; cbn [fold_left].
  - auto using leb_refl.
  - destruct (a <? x)%float eqn:E.
    + destruct (ltb_not_nan _ _ E) as [_ Nx].
      destruct (IH x Nx) as (Nm & Hm & Hall).
      repeat split; [exact Nm | |].
      * eapply leb_trans; [apply ltb_leb; exact E | exact Hm].
      * constructor; [intros _; exact Hm | exact Hall].
    + destruct (IH a Na) as (Nm & Hm & Hall).
      repeat split; [exact Nm | exact Hm |].
      constructor; [|exact Hall].
      intros Nx. eapply leb_trans; [|exact Hm].
      apply ltb_false_leb; assumption.
Qed.

Local Open Scope float_scope.

(** ** Bytes *)

Lemma byte_val_range (b : byte) : (0 <= byte_val b <= 255)%Z.
Proof.
  unfold byte_val. pose proof (Byte.to_N_bounded b) as H.
  split; [apply N2Z.is_nonneg|].
  change 255%Z with (Z.of_N 255). apply N2Z.inj_le. exact H.
Qed.

Lemma byte_val_of (z : Z) : (0 <= z <= 255)%Z -> byte_val (byte_of z) = z.
Proof.
  intros Hz. unfold byte_val, byte_of.
  destruct (Byte.of_N (Z.to_N z)) as [b|] eqn:E.
  - apply Byte.to_of_N in E. rewrite E. apply Z2N.id. lia.
  - apply Byte.of_N_None_iff in E. lia.
Qed.

Lemma byte_of_val (b : byte) : byte_of (byte_val b) = b.
Proof.
  unfold byte_val, byte_of. rewrite N2Z.id, Byte.of_to_N. reflexivity.
Qed.

Lemma unpack_pack_H_be (n : Z) (bs : list byte) :
  pack_H_be n = Ok bs -> unpack_H_be bs = Ok n.
Proof.
  unfold pack_H_be, in_u16. destruct (_ && _) eqn:E; [|discriminate].
  intros [= <-]. apply andb_prop in E as [E1 E2].
  apply Z.leb_le in E1, E2. cbn [unpack_H_be].
  rewrite !byte_val_of.
  - f_equal. pose proof (Z.div_mod n 256 ltac:(lia)). lia.
  - pose proof (Z.mod_pos_bound n 256). lia.
  - split; [apply Z.div_pos; lia|].
    enough (n / 256 < 256)%Z by lia. apply Z.div_lt_upper_bound; lia.
Qed.

Lemma unpack_pack_H_le (n m : Z) (bn bm : list byte) :
  pack_H_le n = Ok bn -> pack_H_le m = Ok bm ->
  unpack_HH_le (bn ++ bm) = Ok (n, m).
Proof.
  unfold pack_H_le, in_u16.
  destruct ((0 <=? n)%Z && _) eqn:E; [|discriminate]. intros [= <-].
  destruct ((0 <=? m)%Z && _) eqn:F; [|discriminate]. intros [= <-].
  apply andb_prop in E as [E1 E2]. apply andb_prop in F as [F1 F2].
  apply Z.leb_le in E1, E2, F1, F2. cbn [app unpack_HH_le].
  assert (Hb : forall k, (0 <= k <= 65535)%Z ->
    (byte_val (byte_of (k mod 256)) + 256 * byte_val (byte_of (k / 256)) = k)%Z).
  { intros k Hk. rewrite !byte_val_of.
    - pose proof (Z.div_mod k 256 ltac:(lia)). lia.
    - split; [apply Z.div_pos; lia|].
      enough (k / 256 < 256)%Z by lia. apply Z.div_lt_upper_bound; lia.
    - pose proof (Z.mod_pos_bound k 256). lia. }
  rewrite !Hb by lia. reflexivity.
Qed.

Lemma max_byte_zero_iff (bs : list byte) :
  max_byte bs = 0%Z <-> Forall (fun b => byte_val b = 0%Z) bs.
Proof.
  induction bs as [|b bs IH]; simpl.
  - split; auto.
  - pose proof (byte_val_range b).
    assert (0 <= max_byte bs)%Z.
    { clear. induction bs; simpl; lia. }
    split.
    + intros H1. constructor; [lia|]. apply IH. lia.
    + intros H1. inversion H1; subst. apply IH in H5. lia.
Qed.

Lemma max_byte_repeat_zero (n : nat) : max_byte (repeat x00 n) = 0%Z.
Proof.
  apply max_byte_zero_iff. apply Forall_forall.
  intros b Hb. apply repeat_spec in Hb. subst. reflexivity.
Qed.

(** ** The decoder loop *)

Lemma decode_loop_zeros (eps last : float) (n : nat) :
  decode_loop eps last (repeat x00 n) = Ok [].
Proof.
  destruct n; [reflexivity|].
  change (repeat x00 (S n)) with (x00 :: repeat x00 n).
  unfold decode_loop.
  replace (max_byte (x00 :: repeat x00 n)) with 0%Z; [reflexivity|].
  symmetry. apply (max_byte_repeat_zero (S n)).
Qed.

Lemma decode_deltas_zeros (n : nat) : decode_deltas (repeat x00 n) = Ok [].
Proof.
  destruct n; [reflexivity|].
  change (repeat x00 (S n)) with (x00 :: repeat x00 n).
  unfold decode_deltas.
  replace (max_byte (x00 :: repeat x00 n)) with 0%Z; [reflexivity|].
  symmetry. apply (max_byte_repeat_zero (S n)).
Qed.

(** The loop of [decode_quantiles] accumulates the delta codes it reads. *)
Lemma decode_loop_deltas_bounded (eps : float) (n : nat) :
  forall payload last,
    (List.length payload <= n)%nat ->
    decode_loop eps last payload =
    (ds <- decode_deltas payload ;; Ok (accumulate eps last ds)).
Proof.
  induction n as [|n IH]; intros payload last Hn.
  - destruct payload; [reflexivity | simpl in Hn; lia].
  - destruct payload as [|b rest]; [reflexivity|].
    unfold decode_loop; fold decode_loop.
    unfold decode_deltas; fold decode_deltas.
    destruct (_ && _); [reflexivity|].
    destruct (byte_val b <? 255)%Z.
    + rewrite IH by (simpl in Hn; lia).
      destruct (decode_deltas rest); reflexivity.
    + destruct rest as [|hi [|lo rest']]; try reflexivity.
      rewrite IH by (simpl in Hn; lia).
      destruct (decode_deltas rest'); reflexivity.
Qed.

Lemma decode_loop_deltas (eps last : float) (payload : list byte) :
  decode_loop eps last payload =
  (ds <- decode_deltas payload ;; Ok (accumulate eps last ds)).
Proof. apply (decode_loop_deltas_bounded eps (List.length payload)). lia. Qed.

Lemma decode_deltas_example (n : nat) :
  decode_deltas ([x0a; xff; x01; x2c; x05] ++ repeat x00 n) = Ok [10; 300; 5]%Z.
Proof.
  change ([x0a; xff; x01; x2c; x05] ++ repeat x00 n)
    with (x0a :: xff :: x01 :: x2c :: x05 :: repeat x00 n).
  unfold decode_deltas; fold decode_deltas.
  change (byte_val x0a) with 10%Z. change (byte_val xff) with 255%Z.
  change (byte_val x05) with 5%Z. change (byte_val x01) with 1%Z.
  change (byte_val x2c) with 44%Z.
  cbn [Z.eqb Z.ltb Z.compare Pos.compare Pos.compare_cont andb].
  rewrite decode_deltas_zeros. reflexivity.
Qed.

(** C8.  A packet whose byte 0 is 1 and whose payload is
    [10, 255, 0x01, 0x2C, 5] followed by zeros decodes, whatever its four
    endpoint bytes and however many zeros pad it, to three interior steps
    with delta codes 10, 300 and 5, that is to increments of 0.0001, 0.003
    and 0.00005 added in turn to zmin. *)
Theorem decode_example (b1 b2 b3 b4 : byte) (n : nat) :
  let packet :=
    [x01; b1; b2; b3; b4; x0a; xff; x01; x2c; x05] ++ repeat x00 n in
  let zmin := (Z2float (byte_val b1 + 256 * byte_val b2) * 0.0002 - 0.01)%float in
  let zmax := (Z2float (byte_val b3 + 256 * byte_val b4) * 0.0002 - 0.01)%float in
  decode_deltas (skipn 5 packet) = Ok [10; 300; 5]%Z /\
  decode_quantiles packet =
    Ok [zmin; zmin + 0.0001; zmin + 0.0001 + 0.003;
        zmin + 0.0001 + 0.003 + 0.00005; zmax]%float.
Proof.
  intros packet zmin zmax.
  split; [apply decode_deltas_example|].
  unfold decode_quantiles, packet.
  change (py_index x00 _ 0) with (@Ok byte x01).
  cbn [bind app skipn firstn unpack_HH_le].
  rewrite decode_loop_deltas.
  change (x0a :: xff :: x01 :: x2c :: x05 :: repeat x00 n)
    with ([x0a; xff; x01; x2c; x05] ++ repeat x00 n).
  rewrite decode_deltas_example.
  cbn [bind accumulate app].
  fold zmin zmax.
  change (Z2float (byte_val x01) * 0.00001)%float with 0.00001%float.
  change (Z2float 10 * 0.00001)%float with 0.0001%float.
  change (Z2float 300 * 0.00001)%float with 0.003%float.
  change (Z2float 5 * 0.00001)%float with 0.00005%float.
  reflexivity.
Qed.

(** ** Delta records *)

Lemma delta_record_short (d : Z) :
  (0 <= d <= 254)%Z -> delta_record d = Ok [byte_of d].
Proof.
  intros H. unfold delta_record.
  destruct (0 <=? d)%Z eqn:E1; [|apply Z.leb_gt in E1; lia].
  destruct (d <=? 254)%Z eqn:E2; [|apply Z.leb_gt in E2; lia].
  reflexivity.
Qed.

Lemma delta_record_escape (d : Z) :
  (255 <= d <= 65535)%Z ->
  delta_record d = Ok [xff; byte_of (d / 256); byte_of (d mod 256)].
Proof.
  intros H. unfold delta_record, pack_H_be, in_u16.
  destruct (0 <=? d)%Z eqn:E1; [|apply Z.leb_gt in E1; lia].
  destruct (d <=? 254)%Z eqn:E2; [apply Z.leb_le in E2; lia|].
  destruct (d <=? 65535)%Z eqn:E3; [|apply Z.leb_gt in E3; lia].
  reflexivity.
Qed.

Lemma delta_record_error (d : Z) :
  (d < 0 \/ 65535 < d)%Z -> delta_record d = Raise StructError.
Proof.
  intros H. unfold delta_record, pack_H_be, in_u16.
  destruct (0 <=? d)%Z eqn:E1.
  - apply Z.leb_le in E1.
    destruct (d <=? 254)%Z eqn:E2; [apply Z.leb_le in E2; lia|].
    destruct (d <=? 65535)%Z eqn:E3; [apply Z.leb_le in E3; lia|].
    reflexivity.
  - reflexivity.
Qed.

Lemma delta_record_cases (d : Z) :
  (0 <= d <= 254)%Z \/ (255 <= d <= 65535)%Z \/ (d < 0 \/ 65535 < d)%Z.
Proof. lia. Qed.

(** The decoder reads a non-zero delta back from its record, whatever
    follows the record. *)
Lemma decode_deltas_record (d : Z) (rec rest : list byte) :
  delta_record d = Ok rec -> d <> 0%Z ->
  decode_deltas (rec ++ rest) = (ds <- decode_deltas rest ;; Ok (d :: ds)).
Proof.
  intros Hrec Hd.
  destruct (delta_record_cases d) as [H|[H|H]].
  - rewrite delta_record_short in Hrec by exact H. injection Hrec as <-.
    cbn [app]. unfold decode_deltas; fold decode_deltas.
    rewrite byte_val_of by lia.
    destruct (d =? 0)%Z eqn:E; [apply Z.eqb_eq in E; lia|].
    destruct (d <? 255)%Z eqn:F; [|apply Z.ltb_ge in F; lia].
    reflexivity.
  - rewrite delta_record_escape in Hrec by exact H. injection Hrec as <-.
    cbn [app]. unfold decode_deltas; fold decode_deltas.
    change (byte_val xff) with 255%Z.
    cbn [Z.eqb Z.ltb Z.compare Pos.compare Pos.compare_cont andb].
    rewrite !byte_val_of.
    + replace (256 * (d / 256) + d mod 256)%Z with d
        by (pose proof (Z.div_mod d 256 ltac:(lia)); lia).
      reflexivity.
    + pose proof (Z.mod_pos_bound d 256). lia.
    + split; [apply Z.div_pos; lia|].
      enough (d / 256 < 256)%Z by lia. apply Z.div_lt_upper_bound; lia.
  - rewrite delta_record_error in Hrec by exact H. discriminate.
Qed.

(** C5 as first stated fails at this input: the first interior quantile is
    65549 steps of 1e-5 above the quantized left endpoint, the loop takes
    the escape branch, and [struct.pack] raises instead of emitting a
    record. *)
Lemma escape_record_not_emitted :
  int_round ((0.65549 - (Z2float 50 * 0.0002 - 0.01)) / 0.00001)%float
    = Ok 65549%Z /\
  delta_record 65549 = Raise StructError /\
  encode_quantiles [0.00019; 0.65549; 0.6555; 0.7]%float 9 true (Some 0.001%float)
    = Raise StructError.
Proof. repeat split; vm_compute; reflexivity. Qed.

(** C5, amended.  The payload loop emits the 3-byte escape record (255, then
    the delta big-endian) exactly when the rounded delta lies in 255..65535,
    the 1-byte record exactly when it lies in 0..254, and raises
    [struct.error] for every other delta; the decoder, on the marker 255,
    reads the same delta back from the two bytes that follow. *)
Theorem escape_record_correct (d : Z) :
  (delta_record d = Ok [xff; byte_of (d / 256); byte_of (d mod 256)]
     <-> (255 <= d <= 65535)%Z) /\
  (delta_record d = Ok [byte_of d] <-> (0 <= d <= 254)%Z) /\
  (delta_record d = Raise StructError <-> (d < 0 \/ 65535 < d)%Z) /\
  (forall rec rest, delta_record d = Ok rec -> (255 <= d)%Z ->
     exists hi lo, rec = [xff; hi; lo] /\
       unpack_H_be [hi; lo] = Ok d /\
       decode_deltas (rec ++ rest) = (ds <- decode_deltas rest ;; Ok (d :: ds))).
Proof.
  split; [split|split; [split|split; [split|]]].
  - intros H. destruct (delta_record_cases d) as [C|[C|C]]; [|exact C|].
    + rewrite delta_record_short in H by exact C. discriminate.
    + rewrite delta_record_error in H by exact C. discriminate.
  - apply delta_record_escape.
  - intros H. destruct (delta_record_cases d) as [C|[C|C]]; [exact C| |].
    + rewrite delta_record_escape in H by exact C. discriminate.
    + rewrite delta_record_error in H by exact C. discriminate.
  - apply delta_record_short.
  - intros H. destruct (delta_record_cases d) as [C|[C|C]]; [| |exact C].
    + rewrite delta_record_short in H by exact C. discriminate.
    + rewrite delta_record_escape in H by exact C. discriminate.
  - apply delta_record_error.
  - intros rec rest Hrec Hd.
    destruct (delta_record_cases d) as [C|[C|C]]; [lia| |].
    + pose proof Hrec as Hrec'.
      rewrite delta_record_escape in Hrec' by exact C. injection Hrec' as <-.
      exists (byte_of (d / 256)), (byte_of (d mod 256)).
      split; [reflexivity|]. split.
      * apply unpack_pack_H_be. unfold pack_H_be, in_u16.
        destruct (0 <=? d)%Z eqn:E1; [|apply Z.leb_gt in E1; lia].
        destruct (d <=? 65535)%Z eqn:E3; [|apply Z.leb_gt in E3; lia].
        reflexivity.
      * apply decode_deltas_record; [exact Hrec | lia].
    + rewrite delta_record_error in Hrec by exact C. discriminate.
Qed.

(** ** Lengths and indices *)

Lemma length_removelast {A} (l : list A) :
  List.length (removelast l) = pred (List.length l).
Proof.
  induction l as [|a [|b l] IH]; try reflexivity.
  change (removelast (a :: b :: l)) with (a :: removelast (b :: l)).
  cbn [List.length]. rewrite IH. reflexivity.
Qed.

Lemma length_interior {A} (l : list A) :
  List.length (interior l) = (List.length l - 2)%nat.
Proof. unfold interior. rewrite length_removelast, length_tl. lia. Qed.

Lemma length_but_last_two {A} (l : list A) :
  List.length (but_last_two l) = (List.length l - 2)%nat.
Proof. unfold but_last_two. rewrite !length_removelast. lia. Qed.

Lemma length_np_sub (a b : list float) :
  List.length (np_sub a b) = Nat.min (List.length a) (List.length b).
Proof.
  revert b. induction a as [|x a IH]; intros [|y b]; simpl; auto.
Qed.

Lemma length_insert_sorted (x : float) (l : list float) :
  List.length (insert_sorted x l) = S (List.length l).
Proof.
  induction l as [|y l IH]; simpl; [reflexivity|].
  destruct (sort_le x y); simpl; auto.
Qed.

Lemma length_np_sort (l : list float) :
  List.length (np_sort l) = List.length l.
Proof.
  induction l as [|x l IH]; simpl; [reflexivity|].
  rewrite length_insert_sorted. auto.
Qed.

Lemma length_gaps (q : list float) :
  List.length (np_sort (np_sub (interior q) (but_last_two q)))
  = (List.length q - 2)%nat.
Proof.
  rewrite length_np_sort, length_np_sub, length_interior, length_but_last_two.
  lia.
Qed.

Lemma py_index_first {A} (d a : A) (l : list A) :
  py_index d (a :: l) 0 = Ok a.
Proof.
  unfold py_index. cbn [Z.ltb Z.compare Z.leb andb].
  destruct (0 <? Z.of_nat (List.length (a :: l)))%Z eqn:E; [reflexivity|].
  apply Z.ltb_ge in E. simpl List.length in E. lia.
Qed.

Lemma py_index_last {A} (d a : A) (l : list A) :
  py_index d (a :: l) (-1) = Ok (last (a :: l) d).
Proof.
  unfold py_index. cbn [Z.ltb Z.compare].
  set (n := List.length (a :: l)).
  assert (Hn : (1 <= n)%nat) by (subst n; simpl; lia).
  destruct (0 <=? -1 + Z.of_nat n)%Z eqn:E1; [|apply Z.leb_gt in E1; lia].
  destruct (-1 + Z.of_nat n <? Z.of_nat n)%Z eqn:E2; [|apply Z.ltb_ge in E2; lia].
  cbn [andb]. f_equal.
  replace (Z.to_nat (-1 + Z.of_nat n)) with (pred n) by lia.
  subst n. clear. revert a.
  induction l as [|b l IH]; intros a; [reflexivity|].
  change (last (a :: b :: l) d) with (last (b :: l) d).
  rewrite <- IH. reflexivity.
Qed.

Lemma py_index_empty {A} (d : A) (i : Z) : py_index d [] i = Raise IndexError.
Proof.
  unfold py_index. cbn [List.length Z.of_nat].
  destruct (i <? 0)%Z eqn:E.
  - apply Z.ltb_lt in E.
    destruct (0 <=? i + 0)%Z eqn:F; [apply Z.leb_le in F; lia|reflexivity].
  - destruct (0 <=? i)%Z; [|reflexivity].
    destruct (i <? 0)%Z; [discriminate|reflexivity].
Qed.

(** ** The gap-threshold lookup *)



(** ** decode_to_samples *)

Lemma load_name_PDF (samples : list (list float)) :
  load_name
    [("int32col", VOther); ("Nsamples", VOther); ("method", VOther);
     ("Nsources", VOther); ("samples", VArray samples); ("i", VOther);
     ("packet", VOther); ("qrecovered", VOther)]%string "PDF"%string
  = Raise (NameError "PDF"%string).
Proof. reflexivity. Qed.

Lemma fill_samples_all_zero (q2s : list float -> option Z -> string -> result (list float))
    (Nsamples : option Z) (method : string) (int32col : list (list byte)) :
  Forall (fun row => max_byte row = 0%Z) int32col ->
  forall samples, is_ok (fill_samples q2s int32col samples Nsamples method) = true.
Proof.
  induction 1 as [|row rows Hrow Hrows IH]; intros samples.
  - destruct samples; reflexivity.
  - destruct samples as [|srow samples]; [reflexivity|].
    cbn [fill_samples]. rewrite Hrow. cbn [Z.eqb negb bind].
    specialize (IH samples).
    destruct (fill_samples q2s rows samples Nsamples method);
      [reflexivity|discriminate].
Qed.

(** C9.  [decode_to_samples] never returns a value: whatever the packets,
    the sample count, the method and the sampler, the call raises; a call
    that gets past the allocation and the loop raises NameError for [PDF];
    and this is what happens when every packet is all-zero. *)
Theorem decode_to_samples_never_returns
    (quantiles_to_samples : list float -> option Z -> string -> result (list float))
    (int32col : list (list byte)) (Nsamples : option Z) (method : string) :
  let call := decode_to_samples quantiles_to_samples int32col Nsamples method in
  is_ok call = false /\
  (forall samples0 samples,
     np_full_nan (List.length int32col) Nsamples = Ok samples0 ->
     fill_samples quantiles_to_samples int32col samples0 Nsamples method
       = Ok samples ->
     call = Raise (NameError "PDF"%string)) /\
  (forall n, Nsamples = Some n -> (0 <= n)%Z ->
     Forall (fun row => max_byte row = 0%Z) int32col ->
     call = Raise (NameError "PDF"%string)).
Proof.
  intros call. subst call. unfold decode_to_samples.
  split; [|split].
  - destruct (np_full_nan _ _) as [samples0|]; [|reflexivity]. cbn [bind].
    destruct (fill_samples _ _ _ _ _) as [samples|]; [|reflexivity].
    cbn [bind]. rewrite load_name_PDF. reflexivity.
  - intros samples0 samples H0 H1. rewrite H0. cbn [bind]. rewrite H1.
    cbn [bind]. apply load_name_PDF.
  - intros n -> Hn Hz. unfold np_full_nan.
    destruct (n <? 0)%Z eqn:E; [apply Z.ltb_lt in E; lia|]. cbn [bind].
    pose proof (fill_samples_all_zero quantiles_to_samples (Some n) method
                  int32col Hz
                  (repeat (repeat nan (Z.to_nat n)) (List.length int32col))) as Hf.
    destruct (fill_samples _ _ _ _ _) as [samples|]; [|discriminate].
    cbn [bind]. apply load_name_PDF.
Qed.

(** ** What a successful encode went through *)

Lemma bind_ok {A B} (m : result A) (k : A -> result B) (b : B) :
  bind m k = Ok b -> exists a, m = Ok a /\ k a = Ok b.
Proof. destruct m as [a|e]; [intros H; exists a; auto | discriminate]. Qed.

Ltac bind_inv H :=
  let a := fresh "a" in
  let Ha := fresh "Ha" in
  apply bind_ok in H; destruct H as (a & Ha & H).

Tactic Notation "unbind" hyp(H) "as" ident(a) ident(Ha) :=
  apply bind_ok in H; destruct H as (a & Ha & H).

Ltac if_inv H :=
  match type of H with
  | (if ?c then _ else _) = _ =>
      let E := fresh "E" in destruct c eqn:E; [discriminate H|]
  end.

Lemma pack_H_le_ok (n : Z) (bs : list byte) :
  pack_H_le n = Ok bs ->
  (0 <= n <= 65535)%Z /\ bs = [byte_of (n mod 256); byte_of (n / 256)].
Proof.
  unfold pack_H_le, in_u16.
  destruct ((0 <=? n)%Z && _) eqn:E; [|discriminate].
  intros [= <-]. apply andb_prop in E as [E1 E2].
  apply Z.leb_le in E1, E2. auto.
Qed.

Lemma encode_quantiles_ok (q : list float) (packetsize : Z) (validate : bool)
    (tolerance : option float) (L : Z) (packet : list byte) :
  encode_quantiles q packetsize validate tolerance = Ok (L, packet) ->
  encode_trace q packetsize validate tolerance L packet.
Proof.
  unfold encode_quantiles. intros H.
  if_inv H. apply Z.ltb_ge in E.
  destruct q as [|z q']; [discriminate H|].
  rewrite py_index_first, py_index_last in H. cbn [bind] in H.
  bind_inv H. rename a into xmin, Ha into Hxmin.
  bind_inv H. rename a into xmax, Ha into Hxmax.
  bind_inv H. rename a into gapthreshold, Ha into Hthr.
  if_inv H. rename E0 into Hstep4.
  bind_inv H. rename a into gaps_last, Ha into Hlast.
  bind_inv H. rename a into eps, Ha into Heps.
  bind_inv H. rename a into code, Ha into Hcode.
  if_inv H. apply Z.ltb_ge in E0.
  bind_inv H. rename a into payload, Ha into Hpayload.
  if_inv H. apply Z.ltb_ge in E1.
  if_inv H.
  if_inv H. apply negb_false_iff, andb_prop in E3 as [E3 E4].
  apply Z.leb_le in E3, E4.
  bind_inv H. rename a into xmin_bytes, Ha into Hxminb.
  bind_inv H. rename a into xmax_bytes, Ha into Hxmaxb.
  bind_inv H. injection H as HL Hpacket.
  apply pack_H_le_ok in Hxminb as [Rmin ->].
  apply pack_H_le_ok in Hxmaxb as [Rmax ->].
  apply (Trace _ _ _ _ _ _ xmin xmax gapthreshold gaps_last eps code payload);
    try assumption; try lia; try discriminate.
  - subst L packet. reflexivity.
  - intros ->. subst L packet. destruct a; exact Ha.
Qed.

Lemma encode_quantiles_too_many (q : list float) (packetsize : Z)
    (validate : bool) (tolerance : option float) :
  (packetsize - 3 < Z.of_nat (List.length q))%Z ->
  encode_quantiles q packetsize validate tolerance
  = Raise (ValueError TooManyQuantiles).
Proof.
  intros H. unfold encode_quantiles.
  destruct (_ <? _)%Z eqn:E; [reflexivity | apply Z.ltb_ge in E; lia].
Qed.

(** ** The search loop of _batch_encode *)

Section SearchLoop.

Variable np_sum : list float -> float.
Variable binned_to_quantiles : list float -> list float -> Z -> result (list float).
Variable samples_to_quantiles : list float -> Z -> result (list float).
Variable packetsize : Z.
Variable tolerance : option float.
Variable validate : bool.

Let extract := extract_quantiles binned_to_quantiles samples_to_quantiles.
Let loop :=
  search_loop binned_to_quantiles samples_to_quantiles packetsize tolerance
    validate.

(** What the loop needs from numpy: [np.linspace] refuses a negative
    number of points, and an extractor asked for [N] quantiles returns
    [N] of them. *)
Hypothesis extract_negative :
  forall row N, (N < 0)%Z -> is_ok (extract row N) = false.
Hypothesis extract_length :
  forall row N q, extract row N = Ok q -> Z.of_nat (List.length q) = N.

(** After a first success the quantile count only grows, and it cannot
    pass [packetsize - 3]. *)
Lemma search_loop_up (row : source_row) :
  forall fuel N p,
    (Z.to_nat (packetsize - N) < fuel)%nat ->
    exists r, loop fuel row N (Some p) = Some r.
Proof.
  induction fuel as [|fuel IH]; intros N p Hfuel; [lia|].
  unfold loop. cbn [search_loop]. fold extract.
  destruct (extract row N) as [q|e] eqn:Hq; [|eauto].
  apply extract_length in Hq.
  destruct (encode_quantiles q packetsize validate tolerance)
    as [[L packet]|e] eqn:Henc.
  - apply encode_quantiles_ok in Henc. destruct Henc.
    destruct (L <? packetsize - 5)%Z eqn:E1.
    + apply IH. lia.
    + destruct (L =? packetsize - 5)%Z eqn:E2; [eauto|].
      apply Z.ltb_ge in E1. apply Z.eqb_neq in E2. lia.
  - destruct e; eauto.
Qed.

(** Before the first success the count only shrinks, and the extractor
    refuses a negative count. *)
Lemma search_loop_down (row : source_row) :
  forall fuel N,
    (Z.to_nat (N + 2) + Z.to_nat packetsize + 2 < fuel)%nat ->
    exists r, loop fuel row N None = Some r.
Proof.
  induction fuel as [|fuel IH]; intros N Hfuel; [lia|].
  unfold loop. cbn [search_loop]. fold extract.
  destruct (extract row N) as [q|e] eqn:Hq; [|eauto].
  assert (HN : (0 <= N)%Z).
  { destruct (Z.lt_ge_cases N 0) as [Hneg|]; [|assumption].
    apply (extract_negative row) in Hneg. rewrite Hq in Hneg. discriminate. }
  apply extract_length in Hq.
  destruct (encode_quantiles q packetsize validate tolerance)
    as [[L packet]|e] eqn:Henc.
  - apply encode_quantiles_ok in Henc. destruct Henc.
    destruct (L <? packetsize - 5)%Z eqn:E1.
    + apply search_loop_up. lia.
    + destruct (L =? packetsize - 5)%Z eqn:E2; [eauto|].
      apply Z.ltb_ge in E1. apply Z.eqb_neq in E2. lia.
  - destruct e; eauto. apply IH. lia.
Qed.

Lemma search_loop_bounded (row : source_row) (ini_quantiles : Z) :
  exists r, loop (search_bound ini_quantiles packetsize) row ini_quantiles None
            = Some r.
Proof. apply search_loop_down. unfold search_bound. lia. Qed.


End SearchLoop.


Lemma np_linspace_negative (a b : float) (N : Z) :
  (N < 0)%Z -> is_ok (np_linspace a b N) = false.
Proof.
  intros H. unfold np_linspace.
  destruct (N <? 0)%Z eqn:E; [reflexivity | apply Z.ltb_ge in E; lia].
Qed.

Lemma np_linspace_length (a b : float) (N : Z) (q : list float) :
  np_linspace a b N = Ok q -> Z.of_nat (List.length q) = N.
Proof.
  unfold np_linspace. cbv zeta.
  destruct (N <? 0)%Z eqn:E0; [discriminate|]. apply Z.ltb_ge in E0.
  intros [= <-].
  match goal with
  | |- context [removelast ?y] =>
      assert (Hy : List.length y = Z.to_nat N)
        by (destruct (0 <? N - 1)%Z; [destruct (_ =? _)%float|];
            rewrite !length_map, length_seq; reflexivity);
      generalize dependent y
  end.
  intros y Hy.
  destruct (1 <? N)%Z eqn:E1.
  - apply Z.ltb_lt in E1.
    rewrite length_app, length_removelast, Hy. cbn [List.length]. lia.
  - rewrite Hy. lia.
Qed.

Lemma np_linspace_last (a b : float) (N : Z) :
  (2 <= N)%Z -> exists qs, np_linspace a b N = Ok qs /\ last qs 0%float = b.
Proof.
  intros HN. unfold np_linspace. cbv zeta.
  destruct (N <? 0)%Z eqn:E0; [apply Z.ltb_lt in E0; lia|].
  destruct (1 <? N)%Z eqn:E1; [|apply Z.ltb_ge in E1; lia].
  eexists. split; [reflexivity|]. apply last_last.
Qed.

Lemma length_interp_all (xp fp : list float) (l r : float) (x : list float) :
  forall j, List.length (interp_all xp fp l r j x) = List.length x.
Proof.
  induction x as [|x0 x IH]; intros j; [reflexivity|].
  cbn [interp_all]. destruct (interp_at xp fp l r j x0) as [v j'].
  cbn [List.length]. rewrite IH. reflexivity.
Qed.

Lemma length_np_interp (x xp fp : list float) (l r : float) (v : list float) :
  np_interp x xp fp l r = Ok v -> List.length v = List.length x.
Proof.
  unfold np_interp. destruct xp as [|xp0 [|xp1 xp]]; [discriminate| |];
    (destruct (negb _); [discriminate|]); intros [= <-].
  - apply length_map.
  - apply length_interp_all.
Qed.

Lemma np_interp_ok (x xp fp : list float) (l r : float) :
  xp <> [] -> List.length fp = List.length xp ->
  exists v, np_interp x xp fp l r = Ok v.
Proof.
  intros Hxp Hlen. unfold np_interp.
  destruct xp as [|xp0 [|xp1 xp]]; [contradiction| |].
  - rewrite Hlen. cbn. eauto.
  - rewrite Hlen, Nat.eqb_refl. cbn [negb]. eauto.
Qed.


(** ** Grid reconstruction *)




Local Open Scope Z_scope.

(** ** The quantization step *)

Lemma int_round_not_nan (y : float) (c : Z) :
  int_round y = Ok c -> is_nan y = false.
Proof.
  unfold int_round, to_int. rewrite is_nan_spec.
  destruct (Prim2SF y); try discriminate; reflexivity.
Qed.

Lemma mul_not_nan_l (x c : float) : is_nan (x * c)%float = false -> is_nan x = false.
Proof.
  rewrite !is_nan_spec, FloatAxioms.mul_spec. unfold SF64mul.
  destruct (Prim2SF x); try reflexivity. cbn [SFmul]. discriminate.
Qed.

(** The final [eps] is the largest of its three candidates. *)
Lemma np_max3 (a b c eps : float) :
  np_max [a; b; c] = Ok eps -> is_nan eps = false ->
  is_nan a = false /\ is_nan b = false /\ is_nan c = false /\
  (a <=? eps)%float = true /\ (eps = a \/ eps = b \/ eps = c).
Proof.
  unfold np_max. cbn [fold_left]. intros [= <-] N.
  destruct (np_max2_not_nan _ _ N) as (N1 & Nc & H1 & H2 & H3).
  destruct (np_max2_not_nan _ _ N1) as (Na & Nb & H4 & H5 & H6).
  repeat split; try assumption.
  - eapply leb_trans; eassumption.
  - destruct H3 as [-> | ->]; [|auto]. destruct H6 as [-> | ->]; auto.
Qed.

(** Byte 0 of a packet is at least 1. *)
Lemma eps_code_ge_1 (e1 e2 eps : float) (code : Z) :
  np_max [0.00001; e1; e2]%float = Ok eps ->
  int_round (eps * 100000)%float = Ok code -> 1 <= code.
Proof.
  intros Hmax Hcode.
  pose proof (mul_not_nan_l _ _ (int_round_not_nan _ _ Hcode)) as N.
  destruct (np_max3 _ _ _ _ Hmax N) as (_ & _ & _ & Hle & _).
  apply (int_round_ge_1 (eps * 100000)%float); [|exact Hcode].
  change 1%float with (0.00001 * 100000)%float.
  apply mul_le_mono; [reflexivity | exact Hle].
Qed.

(** When neither candidate exceeds 2.55e-3, the code of [eps] fits a byte. *)
Lemma eps_code_le_255 (e1 e2 eps : float) (code : Z) :
  (0.00255 <? e1)%float = false -> (0.00255 <? e2)%float = false ->
  np_max [0.00001; e1; e2]%float = Ok eps ->
  int_round (eps * 100000)%float = Ok code -> code <= 255.
Proof.
  intros H1 H2 Hmax Hcode.
  pose proof (mul_not_nan_l _ _ (int_round_not_nan _ _ Hcode)) as N.
  destruct (np_max3 _ _ _ _ Hmax N) as (_ & N1 & N2 & _ & Hsel).
  assert (Hle : (eps <=? 0.00255)%float = true).
  { destruct Hsel as [->|[-> | ->]].
    - reflexivity.
    - apply ltb_false_leb; [reflexivity | exact N1 | exact H1].
    - apply ltb_false_leb; [reflexivity | exact N2 | exact H2]. }
  apply (int_round_le_255 (eps * 100000)%float); [|exact Hcode].
  change 255.00000000000003%float with (0.00255 * 100000)%float.
  apply mul_le_mono; [reflexivity | exact Hle].
Qed.

(** ** The sentinel *)

Lemma tobytes_zeros (n : nat) : max_byte (tobytes (repeat 0 n)) = 0.
Proof.
  induction n as [|n IH]; [reflexivity|].
  cbn [repeat tobytes flat_map]. fold (tobytes (repeat 0 n)).
  change (i4_bytes 0) with [x00; x00; x00; x00].
  cbn [app max_byte fold_right]. fold (max_byte (tobytes (repeat 0 n))).
  rewrite IH. reflexivity.
Qed.

Lemma max_byte_head (b : byte) (l : list byte) : byte_val b <= max_byte (b :: l).
Proof. cbn [max_byte fold_right]. lia. Qed.

Section Sentinel.

Variable np_sum : list float -> float.
Variable binned_to_quantiles : list float -> list float -> Z -> result (list float).
Variable samples_to_quantiles : list float -> Z -> result (list float).
Variable packetsize : Z.
Variable tolerance : option float.
Variable validate : bool.

Lemma encode_rows_skipped (fuel : nat) (ini_quantiles : Z) :
  forall rows out,
    encode_rows np_sum binned_to_quantiles samples_to_quantiles packetsize
      tolerance validate fuel ini_quantiles rows = Some (Ok out) ->
    forall i row,
      nth_error rows i = Some row -> row_valid np_sum row = false ->
      nth_error out i = Some (repeat 0 (Z.to_nat (packetsize / 4))).
Proof.
  induction rows as [|r rows IH]; intros out H i row Hi Hv.
  - destruct i; discriminate.
  - cbn [encode_rows] in H.
    destruct (encode_row _ _ _ _ _ _ _ _ r) as [[words|e]|] eqn:Er;
      try discriminate.
    destruct (encode_rows _ _ _ _ _ _ _ _ rows) as [[out'|e]|] eqn:Ers;
      try discriminate.
    injection H as <-.
    destruct i as [|i]; cbn [nth_error] in *.
    + injection Hi as ->. unfold encode_row in Er. rewrite Hv in Er.
      cbn [negb] in Er. injection Er as <-. reflexivity.
    + apply (IH out' eq_refl i row Hi Hv).
Qed.

End Sentinel.

(** Two batches that return: a histogram whose second row has no mass, and
    samples whose first row holds an infinity.  The skipped rows come out as
    zero words, the other rows as packets whose byte 0 is not zero. *)
Lemma skipped_rows_run :
  _batch_encode seq_sum (fun _ => uniform_quantiles) uniform_quantiles 8
    (Some 0.001%float) true (search_bound 5 8)
    (PDF_histogram [0.0; 0.5; 1.0]%float
       [[0.2; 0.5; 0.3]; [0.0; 0.0; 0.0]]%float) 5
  = Some (Ok [[169477134; 117111546]; [0; 0]]) /\
  _batch_encode seq_sum (fun _ => uniform_quantiles) uniform_quantiles 8
    (Some 0.001%float) true (search_bound 5 8)
    (Samples [[0.1; infinity; 0.4]; [0.1; 0.2; 0.4]]%float) 5
  = Some (Ok [[0; 0]; [505807362; 150665978]]).
Proof. split; vm_compute; reflexivity. Qed.

(** C6.  In a batch that returns, every row whose total mass is not
    positive, or whose samples are not all finite, is skipped: its row of
    the output is all zero words, that is an all-zero packet.  And no packet
    returned by [encode_quantiles] is all-zero: its byte 0, the code of
    [eps], is at least 1. *)
Theorem sentinel_packets
    (np_sum : list float -> float)
    (binned_to_quantiles : list float -> list float -> Z -> result (list float))
    (samples_to_quantiles : list float -> Z -> result (list float))
    (packetsize : Z) (tolerance : option float) (validate : bool) :
  (forall fuel data ini_quantiles out,
     _batch_encode np_sum binned_to_quantiles samples_to_quantiles packetsize
       tolerance validate fuel data ini_quantiles = Some (Ok out) ->
     forall i row,
       nth_error (rows_of data) i = Some row ->
       row_valid np_sum row = false ->
       exists words,
         nth_error out i = Some words /\
         words = repeat 0 (Z.to_nat (packetsize / 4)) /\
         max_byte (tobytes words) = 0) /\
  (forall quantiles L packet,
     encode_quantiles quantiles packetsize validate tolerance = Ok (L, packet) ->
     exists b rest,
       packet = b :: rest /\ 1 <= byte_val b /\ max_byte packet <> 0).
Proof.
  split.
  - intros fuel data ini out H i row Hi Hv.
    unfold _batch_encode in H.
    destruct (negb _); [discriminate|].
    destruct (_ <? _); [discriminate|].
    destruct (_ <? _); [discriminate|].
    exists (repeat 0 (Z.to_nat (packetsize / 4))).
    split; [|split; [reflexivity | apply tobytes_zeros]].
    eapply encode_rows_skipped; eassumption.
  - intros q L packet H.
    destruct (encode_quantiles_ok _ _ _ _ _ _ H).
    exists (byte_of code). eexists. split; [exact tr_packet|].
    pose proof (eps_code_ge_1 _ _ _ _ tr_eps_eq tr_code_eq) as Hc.
    rewrite byte_val_of by lia. split; [exact Hc|].
    rewrite tr_packet. cbn [app].
    match goal with |- max_byte (?b :: ?l) <> 0 =>
      pose proof (max_byte_head b l) as Hm end.
    rewrite byte_val_of in Hm by lia. lia.
Qed.

(** ** Which statement raises *)

Lemma bind_not_eps {A B} (m : result A) (k : A -> result B) :
  not_eps_error m -> (forall a, not_eps_error (k a)) ->
  not_eps_error (bind m k).
Proof.
  unfold not_eps_error. intros Hm Hk. destruct m as [a|e]; cbn [bind].
  - apply Hk.
  - intros [= ->]. apply Hm. reflexivity.
Qed.

Lemma to_int_not_eps (f : bool -> positive -> Z -> Z) (x : float) :
  not_eps_error (to_int f x).
Proof. unfold not_eps_error, to_int. destruct (Prim2SF x); discriminate. Qed.

Lemma py_index_not_eps {A} (d : A) (l : list A) (i : Z) :
  not_eps_error (py_index d l i).
Proof. unfold not_eps_error, py_index. destruct (_ && _); discriminate. Qed.

Lemma delta_record_not_eps (d : Z) : not_eps_error (delta_record d).
Proof.
  unfold not_eps_error, delta_record, pack_H_be.
  destruct (_ && _); [discriminate|]. destruct (in_u16 d); discriminate.
Qed.

Lemma pack_H_le_not_eps (n : Z) : not_eps_error (pack_H_le n).
Proof. unfold not_eps_error, pack_H_le. destruct (in_u16 n); discriminate. Qed.

Lemma encode_payload_not_eps (eps : float) (zs : list float) :
  forall prev, not_eps_error (encode_payload eps prev zs).
Proof.
  induction zs as [|z zs IH]; intros prev; cbn [encode_payload].
  - discriminate.
  - apply bind_not_eps; [apply to_int_not_eps|]. intros d.
    apply bind_not_eps; [apply delta_record_not_eps|]. intros rec.
    apply bind_not_eps; [apply IH|]. intros rest. discriminate.
Qed.

Lemma decode_loop_not_eps (eps : float) (n : nat) :
  forall payload last,
    (List.length payload <= n)%nat ->
    not_eps_error (decode_loop eps last payload).
Proof.
  induction n as [|n IH]; intros payload last Hn.
  - destruct payload; [discriminate | simpl in Hn; lia].
  - destruct payload as [|b rest]; [discriminate|].
    unfold decode_loop; fold decode_loop.
    destruct (_ && _); [discriminate|].
    destruct (byte_val b <? 255).
    + apply bind_not_eps; [apply IH; simpl in Hn; lia|]. discriminate.
    + destruct rest as [|hi [|lo rest']]; try discriminate.
      apply bind_not_eps; [apply IH; simpl in Hn; lia|]. discriminate.
Qed.

Lemma decode_quantiles_not_eps (packet : list byte) :
  not_eps_error (decode_quantiles packet).
Proof.
  unfold decode_quantiles.
  apply bind_not_eps; [apply py_index_not_eps|]. intros b.
  apply bind_not_eps.
  { unfold not_eps_error, unpack_HH_le.
    destruct (firstn 4 _) as [|? [|? [|? [|? [|? ?]]]]]; discriminate. }
  intros [xmin xmax].
  apply bind_not_eps; [|discriminate].
  apply (decode_loop_not_eps _ (List.length (skipn 5 packet))). lia.
Qed.

Lemma validate_packet_not_eps (q : list float) (packet : list byte)
    (tol : option float) :
  not_eps_error (validate_packet q packet tol).
Proof.
  unfold validate_packet.
  apply bind_not_eps; [apply decode_quantiles_not_eps|]. intros qrec.
  destruct (negb _); [discriminate|].
  apply bind_not_eps.
  { unfold not_eps_error, py_max. destruct (float_abs_list _); discriminate. }
  intros m. destruct tol; [|discriminate].
  destruct (_ <? _)%float; discriminate.
Qed.

(** The defensive check is the only statement of [encode_quantiles] that
    raises its error: when it is raised, steps 4 and 5 have returned, step 4
    has passed, and the code of the final [eps] exceeds 255. *)
Lemma encode_eps_too_large (q : list float) (packetsize : Z) (validate : bool)
    (tolerance : option float) :
  encode_quantiles q packetsize validate tolerance
    = Raise (ValueError EpsTooLarge) ->
  exists e1 e2 eps code,
    step4_eps_min q packetsize = Ok e1 /\
    (0.00255 <? e1)%float = false /\
    step5_eps_min2 q = Ok e2 /\
    np_max [0.00001; e1; e2]%float = Ok eps /\
    int_round (eps * 100000)%float = Ok code /\
    255 < code.
Proof.
  unfold encode_quantiles, step4_eps_min, step5_eps_min2.
  fold (gaps_of q). intros H.
  destruct (_ <? _) eqn:E0; [discriminate|].
  destruct q as [|z q']; [discriminate|].
  rewrite py_index_first, py_index_last in H. cbn [bind] in H.
  destruct (int_floor _) as [xmin|e] eqn:Hxmin;
    [cbn [bind] in H | cbn [bind] in H; injection H as ->; exfalso; exact (to_int_not_eps _ _ Hxmin)].
  destruct (int_ceil _) as [xmax|e] eqn:Hxmax;
    [cbn [bind] in H | cbn [bind] in H; injection H as ->; exfalso; exact (to_int_not_eps _ _ Hxmax)].
  destruct (py_index 0%float (gaps_of (z :: q')) _) as [gapthreshold|e] eqn:Hthr;
    [cbn [bind] in H | cbn [bind] in H; injection H as ->; exfalso; exact (py_index_not_eps _ _ _ Hthr)].
  destruct (0.00255 <? _)%float eqn:Hstep4; [discriminate|].
  destruct (py_index 0%float (gaps_of (z :: q')) (-1)) as [gaps_last|e] eqn:Hlast;
    [cbn [bind] in H | cbn [bind] in H; injection H as ->; exfalso; exact (py_index_not_eps _ _ _ Hlast)].
  destruct (np_max _) as [eps|e] eqn:Heps; [cbn [bind] in H | discriminate].
  destruct (int_round _) as [code|e] eqn:Hcode;
    [cbn [bind] in H | cbn [bind] in H; injection H as ->; exfalso; exact (to_int_not_eps _ _ Hcode)].
  destruct (255 <? code) eqn:Hbig.
  - apply Z.ltb_lt in Hbig.
    exists (0.00001 * np_ceil (100000 * gapthreshold / 254))%float,
           (0.00001 * np_ceil (100000 * gaps_last / 65535))%float, eps, code.
    cbn [bind]. repeat split; try assumption; reflexivity.
  - exfalso. revert H.
    apply bind_not_eps; [apply encode_payload_not_eps|]. intros payload.
    destruct (packetsize - 5 <? _); [discriminate|].
    destruct (packetsize <? 0); [discriminate|].
    destruct (negb _); [discriminate|].
    apply bind_not_eps; [apply pack_H_le_not_eps|]. intros xmin_bytes.
    apply bind_not_eps; [apply pack_H_le_not_eps|]. intros xmax_bytes.
    apply bind_not_eps; [|discriminate].
    destruct validate; [apply validate_packet_not_eps | discriminate].
Qed.

(** C2 as first stated fails at this input: the gap threshold is 0.1, the
    step-4 value 0.0004 passes the check, and the largest gap, 199.9, makes
    step 5 ask for 0.00306, whose code 306 does not fit a byte. *)
Lemma defensive_check_reached :
  step4_eps_min [0.1; 0.10001; 200.0; 200.1; 200.2]%float 10
    = Ok 0.00040000000000000002%float /\
  (0.00255 <? 0.00040000000000000002)%float = false /\
  step5_eps_min2 [0.1; 0.10001; 200.0; 200.1; 200.2]%float
    = Ok 0.0030600000000000002%float /\
  int_round (0.0030600000000000002 * 100000)%float = Ok 306 /\
  encode_quantiles [0.1; 0.10001; 200.0; 200.1; 200.2]%float 10 true
    (Some 0.001%float) = Raise (ValueError EpsTooLarge).
Proof. repeat split; vm_compute; reflexivity. Qed.

(** C2, amended.  For every quantile array that passes step 4's check and
    whose two-byte minimum [eps_min2] of step 5 does not exceed 2.55e-3
    either, the rounded code of the final [eps] is at most 255, and the
    defensive check after the maximum does not raise. *)
Theorem defensive_check_unreachable (q : list float) (packetsize : Z)
    (validate : bool) (tolerance : option float) (e1 e2 : float) :
  step4_eps_min q packetsize = Ok e1 -> (0.00255 <? e1)%float = false ->
  step5_eps_min2 q = Ok e2 -> (0.00255 <? e2)%float = false ->
  (forall eps code,
     np_max [0.00001; e1; e2]%float = Ok eps ->
     int_round (eps * 100000)%float = Ok code -> code <= 255) /\
  encode_quantiles q packetsize validate tolerance
    <> Raise (ValueError EpsTooLarge).
Proof.
  intros H4 S4 H5 S5. split.
  - intros eps code. apply eps_code_le_255; assumption.
  - intros H. apply encode_eps_too_large in H
      as (e1' & e2' & eps & code & H4' & _ & H5' & Hmax & Hcode & Hbig).
    rewrite H4 in H4'. injection H4' as <-.
    rewrite H5 in H5'. injection H5' as <-.
    pose proof (eps_code_le_255 _ _ _ _ S4 S5 Hmax Hcode). lia.
Qed.

Lemma defensive_check_unreachable_witness :
  (forall eps code,
     np_max [0.00001; 0.00020000000000000001; 1.0000000000000001e-05]%float
       = Ok eps ->
     int_round (eps * 100000)%float = Ok code -> code <= 255) /\
  encode_quantiles [0.1; 0.15; 0.2]%float 6 true (Some 0.001%float)
    <> Raise (ValueError EpsTooLarge).
Proof.
  apply (defensive_check_unreachable [0.1; 0.15; 0.2]%float 6 true
           (Some 0.001%float)); vm_compute; reflexivity.
Defined.

(** ** The decoded array *)

Lemma decode_deltas_cons (b : byte) (rest : list byte) :
  decode_deltas (b :: rest) =
  if (byte_val b =? 0) && (max_byte (b :: rest) =? 0) then Ok []
  else if byte_val b <? 255 then
    ds <- decode_deltas rest ;; Ok (byte_val b :: ds)
  else
    match rest with
    | hi :: lo :: rest' =>
        ds <- decode_deltas rest' ;;
        Ok ((256 * byte_val hi + byte_val lo) :: ds)
    | _ => Raise StructError
    end.
Proof. reflexivity. Qed.

Lemma decode_deltas_range (n : nat) :
  forall payload ds,
    (List.length payload <= n)%nat ->
    decode_deltas payload = Ok ds ->
    Forall (fun d => 0 <= d <= 65535) ds.
Proof.
  induction n as [|n IH]; intros payload ds Hn H.
  - destruct payload; [injection H as <-; constructor | simpl in Hn; lia].
  - destruct payload as [|b rest]; [injection H as <-; constructor|].
    rewrite decode_deltas_cons in H.
    destruct (_ && _); [injection H as <-; constructor|].
    pose proof (byte_val_range b).
    destruct (byte_val b <? 255).
    + unbind H as ds' Hds. injection H as <-.
      constructor; [lia|]. apply (IH rest); [simpl in Hn; lia | exact Hds].
    + destruct rest as [|hi [|lo rest']]; try discriminate.
      unbind H as ds' Hds. injection H as <-.
      pose proof (byte_val_range hi). pose proof (byte_val_range lo).
      constructor; [|apply (IH rest'); [simpl in Hn; lia | exact Hds]].
      match goal with
      | |- 0 <= ?t + _ <= _ => change t with (256 * byte_val hi)
      end.
      lia.
Qed.

(** The running value never decreases. *)
Lemma accumulate_non_decreasing (eps : float) (ds : list Z) :
  fin_nonneg eps = true ->
  Forall (fun d => 0 <= d <= 65535) ds ->
  forall last,
    (neg_infinity <? last)%float = true ->
    non_decreasing (last :: accumulate eps last ds) = true /\
    Forall (fun z => (neg_infinity <? z)%float = true) (accumulate eps last ds).
Proof.
  intros Heps. induction 1 as [|d ds Hd Hds IH]; intros last Hlast.
  - split; [reflexivity | constructor].
  - cbn [accumulate].
    assert (Hb : (0 <=? Z2float d * eps)%float = true).
    { apply mul_fin_nonneg; [apply Z2float_fin_nonneg; lia | exact Heps]. }
    pose proof (add_ge last _ Hlast Hb) as Hge.
    pose proof (add_above_minf last _ Hlast Hb) as Hnext.
    destruct (IH _ Hnext) as [IH1 IH2].
    split.
    + change (non_decreasing (last :: ?y :: ?l))
        with ((last <=? y)%float && non_decreasing (y :: l)).
      rewrite Hge, IH1. reflexivity.
    + constructor; assumption.
Qed.

Lemma header_code_range (a0 a1 : byte) :
  0 <= byte_val a0 + 256 * byte_val a1 < 2 ^ 62.
Proof.
  pose proof (byte_val_range a0). pose proof (byte_val_range a1).
  change (2 ^ 62) with 4611686018427387904. lia.
Qed.

Lemma endpoint_above_minf (x : Z) :
  0 <= x < 2 ^ 62 ->
  (neg_infinity <? Z2float x * 0.0002 - 0.01)%float = true.
Proof.
  intros Hx. apply sub_above_minf; [|reflexivity].
  apply mul_fin_nonneg; [apply Z2float_fin_nonneg; exact Hx | reflexivity].
Qed.

(** What [decode_quantiles] returns: the left endpoint, the accumulated
    values, the right endpoint. *)
Lemma decode_quantiles_ok (packet : list byte) (zs : list float) :
  decode_quantiles packet = Ok zs ->
  exists b0 a0 a1 c0 c1 payload ds,
    packet = b0 :: a0 :: a1 :: c0 :: c1 :: payload /\
    decode_deltas payload = Ok ds /\
    Forall (fun d => 0 <= d <= 65535) ds /\
    let eps := (Z2float (byte_val b0) * 0.00001)%float in
    let zmin := (Z2float (byte_val a0 + 256 * byte_val a1) * 0.0002 - 0.01)%float in
    let zmax := (Z2float (byte_val c0 + 256 * byte_val c1) * 0.0002 - 0.01)%float in
    zs = zmin :: accumulate eps zmin ds ++ [zmax].
Proof.
  unfold decode_quantiles. intros H.
  destruct packet as [|b0 packet]; [discriminate|].
  rewrite py_index_first in H. cbn [bind skipn] in H.
  destruct packet as [|a0 [|a1 [|c0 [|c1 payload]]]]; try discriminate.
  cbn [firstn unpack_HH_le bind skipn] in H.
  rewrite decode_loop_deltas in H.
  destruct (decode_deltas payload) as [ds|] eqn:Hds; [|discriminate].
  cbn [bind] in H. injection H as <-.
  exists b0, a0, a1, c0, c1, payload, ds.
  split; [reflexivity|]. split; [exact Hds|]. split; [|reflexivity].
  apply (decode_deltas_range (List.length payload) payload); [lia | exact Hds].
Qed.

Lemma removelast_cons_app {A} (x : A) (l : list A) (y : A) :
  removelast (x :: l ++ [y]) = x :: l.
Proof.
  change (x :: l ++ [y]) with ((x :: l) ++ [y]). apply removelast_last.
Qed.

Lemma non_decreasing_snoc (l : list float) (z : float) :
  forall x,
    non_decreasing (x :: l) = true ->
    (non_decreasing ((x :: l) ++ [z]) = true <->
     (last (x :: l) 0 <=? z)%float = true).
Proof.
  induction l as [|y l IH]; intros x Hnd.
  - cbn. rewrite andb_true_r. reflexivity.
  - change (non_decreasing ((x :: y :: l) ++ [z]))
      with ((x <=? y)%float && non_decreasing ((y :: l) ++ [z])).
    change (non_decreasing (x :: y :: l))
      with ((x <=? y)%float && non_decreasing (y :: l)) in Hnd.
    apply andb_prop in Hnd as [H1 H2]. rewrite H1. cbn [andb].
    change (last (x :: y :: l) 0%float) with (last (y :: l) 0%float).
    apply IH. exact H2.
Qed.

(** C4 as first stated fails at this input: a strictly increasing quantile
    array, encoded with validation into an 8-byte packet, decodes to an array
    whose last element, the right endpoint 0.3998 read from the header, is
    smaller than the last accumulated value, 0.4. *)
Lemma decoded_array_decreases :
  strictly_increasing [0.10001; 0.35251; 0.3996; 0.3997]%float = true /\
  encode_quantiles [0.10001; 0.35251; 0.3996; 0.3997]%float 8 true
    (Some 0.001%float)
    = Ok (2, [x64; x26; x02; x01; x08; xfd; x2f; x00]) /\
  decode_quantiles [x64; x26; x02; x01; x08; xfd; x2f; x00]
    = Ok [0.10000000000000001; 0.35299999999999998; 0.39999999999999997;
          0.39979999999999999]%float /\
  (0.39979999999999999 <? 0.39999999999999997)%float = true /\
  non_decreasing [0.10000000000000001; 0.35299999999999998;
                  0.39999999999999997; 0.39979999999999999]%float = false.
Proof. repeat split; vm_compute; reflexivity. Qed.

(** C4, amended.  For every packet that [decode_quantiles] decodes, the
    array without its last element, that is the left endpoint followed by
    the accumulated deltas, is non-decreasing; the right endpoint appended
    from the header keeps the whole array non-decreasing exactly when it is
    not below the last accumulated value. *)
Theorem decoded_prefix_non_decreasing (packet : list byte) (zs : list float) :
  decode_quantiles packet = Ok zs ->
  non_decreasing (removelast zs) = true /\
  (non_decreasing zs = true <->
   (last (removelast zs) 0 <=? last zs 0)%float = true).
Proof.
  intros H. apply decode_quantiles_ok in H
    as (b0 & a0 & a1 & c0 & c1 & payload & ds & -> & Hds & Hrange & Hzs).
  cbv zeta in Hzs. subst zs.
  set (eps := (Z2float (byte_val b0) * 0.00001)%float).
  set (zmin := (Z2float (byte_val a0 + 256 * byte_val a1) * 0.0002 - 0.01)%float).
  set (zmax := (Z2float (byte_val c0 + 256 * byte_val c1) * 0.0002 - 0.01)%float).
  rewrite removelast_cons_app.
  assert (Hmin : (neg_infinity <? zmin)%float = true)
    by (apply endpoint_above_minf, header_code_range).
  destruct (accumulate_non_decreasing eps ds (eps_of_byte_fin_nonneg b0)
              Hrange zmin Hmin) as [Hnd _].
  split; [exact Hnd|].
  change (zmin :: accumulate eps zmin ds ++ [zmax])
    with ((zmin :: accumulate eps zmin ds) ++ [zmax]).
  rewrite last_last.
  apply non_decreasing_snoc. exact Hnd.
Qed.

Lemma decoded_prefix_non_decreasing_witness :
  non_decreasing
    (removelast [0.10000000000000001; 0.35299999999999998;
                 0.39999999999999997; 0.39979999999999999]%float) = true /\
  (non_decreasing [0.10000000000000001; 0.35299999999999998;
                   0.39999999999999997; 0.39979999999999999]%float = true <->
   (last (removelast [0.10000000000000001; 0.35299999999999998;
                      0.39999999999999997; 0.39979999999999999]%float) 0
    <=? last [0.10000000000000001; 0.35299999999999998;
              0.39999999999999997; 0.39979999999999999]%float 0)%float = true).
Proof.
  apply (decoded_prefix_non_decreasing
           [x64; x26; x02; x01; x08; xfd; x2f; x00]).
  vm_compute. reflexivity.
Defined.

(** ** The round trip *)

Lemma between_is_number (a x c : float) :
  (a <? x)%float = true -> (x <? c)%float = true -> is_number x = true.
Proof.
  rewrite !FloatAxioms.ltb_spec. intros H1 H2.
  apply SFltb_key in H1 as (_ & Nx & H1). apply SFltb_key in H2 as (_ & _ & H2).
  unfold is_number.
  destruct (Prim2SF x) as [s|[|]| |s m e]; try reflexivity; try discriminate.
  - destruct (Prim2SF a) as [sa|[|]| |[|] ma ea]; cbn in H1; lia.
  - destruct (Prim2SF c) as [sc|[|]| |[|] mc ec]; cbn in H2; lia.
Qed.

Lemma sub_not_nan (x y : float) :
  is_number x = true -> is_nan y = false -> is_nan (x - y)%float = false.
Proof.
  unfold is_number. rewrite !is_nan_spec, FloatAxioms.sub_spec. unfold SF64sub.
  intros Hx Hy. apply SFsub_not_nan; [exact Hy|].
  destruct (Prim2SF x); try discriminate; exact I.
Qed.

Lemma abs_not_nan (x : float) : is_nan (abs x) = is_nan x.
Proof.
  rewrite !is_nan_spec, FloatAxioms.abs_spec. destruct (Prim2SF x); reflexivity.
Qed.

Lemma interior_cons3 {A} (a b c : A) (l : list A) :
  interior (a :: b :: c :: l) = b :: interior (b :: c :: l).
Proof. reflexivity. Qed.

Lemma strictly_increasing_interior (q : list float) :
  strictly_increasing q = true ->
  Forall (fun z => is_number z = true) (interior q).
Proof.
  induction q as [|a q IH]; intros H; [constructor|].
  destruct q as [|b [|c q]]; [constructor | constructor |].
  rewrite interior_cons3.
  change (strictly_increasing (a :: b :: c :: q))
    with ((a <? b)%float && strictly_increasing (b :: c :: q)) in H.
  apply andb_prop in H as [H1 H2].
  constructor.
  - change (strictly_increasing (b :: c :: q))
      with ((b <? c)%float && strictly_increasing (c :: q)) in H2.
    apply andb_prop in H2 as [H2 _].
    exact (between_is_number a b c H1 H2).
  - apply IH. exact H2.
Qed.

(** Python's [max] of numbers is at least each of them. *)
Lemma py_max_ge (l : list float) (m : float) :
  Forall (fun x => is_nan x = false) l ->
  py_max l = Ok m ->
  is_nan m = false /\ Forall (fun x => (x <=? m)%float = true) l.
Proof.
  intros Hl. destruct l as [|a l]; [discriminate|].
  cbn [py_max]. intros [= <-]. inversion Hl as [|? ? Na Hl']; subst.
  destruct (py_max_fold_ge l a Na) as (Nm & Ha & Hall).
  split; [exact Nm|]. constructor; [exact Ha|].
  rewrite Forall_forall in Hall, Hl'. apply Forall_forall.
  intros x Hx. apply Hall; [exact Hx | apply Hl'; exact Hx].
Qed.

Lemma shifts_within (tol : float) (A : list float) :
  forall B,
    List.length A = List.length B ->
    Forall (fun x => (x <=? tol)%float = true) (float_abs_list (np_sub A B)) ->
    Forall2 (fun z r => (abs (z - r) <=? tol)%float = true) A B.
Proof.
  induction A as [|z A IH]; intros [|r B] Hlen H; try discriminate.
  - constructor.
  - cbn [np_sub float_abs_list map] in H. inversion H; subst.
    constructor; [assumption|]. apply IH; [simpl in Hlen; lia | assumption].
Qed.

Lemma shifts_not_nan (A : list float) :
  forall B,
    Forall (fun z => is_number z = true) A ->
    Forall (fun r => is_nan r = false) B ->
    Forall (fun x => is_nan x = false) (float_abs_list (np_sub A B)).
Proof.
  induction A as [|z A IH]; intros [|r B] HA HB; try constructor.
  - inversion HA; inversion HB; subst.
    rewrite abs_not_nan. apply sub_not_nan; assumption.
  - inversion HA; inversion HB; subst. apply IH; assumption.
Qed.

Lemma interior_decoded {A} (x : A) (l : list A) (y : A) :
  interior (x :: l ++ [y]) = l.
Proof. unfold interior. cbn [tl]. apply removelast_last. Qed.

(** C1.  For every strictly increasing quantile array on which
    [encode_quantiles], with validation and a tolerance that is a number,
    returns a packet: [decode_quantiles] returns from that packet an array
    of the same length, whose interior values each differ from those of the
    input by at most the tolerance, whose first element is the left
    endpoint quantized downwards at 2e-4 and whose last element is the right
    endpoint quantized upwards. *)
Theorem round_trip (q : list float) (packetsize : Z) (tol : float) (L : Z)
    (packet : list byte) :
  strictly_increasing q = true -> is_nan tol = false ->
  encode_quantiles q packetsize true (Some tol) = Ok (L, packet) ->
  exists qrec xmin xmax,
    decode_quantiles packet = Ok qrec /\
    List.length qrec = List.length q /\
    int_floor ((hd 0 q + 0.01) / 0.0002)%float = Ok xmin /\
    int_ceil ((last q 0 + 0.01) / 0.0002)%float = Ok xmax /\
    hd 0%float qrec = (Z2float xmin * 0.0002 - 0.01)%float /\
    last qrec 0%float = (Z2float xmax * 0.0002 - 0.01)%float /\
    Forall2 (fun z r => (abs (z - r) <=? tol)%float = true)
      (interior q) (interior qrec).
Proof.
  intros Hinc Ntol Henc.
  destruct (encode_quantiles_ok _ _ _ _ _ _ Henc).
  specialize (tr_validated eq_refl). unfold validate_packet in tr_validated.
  unbind tr_validated as qrec Hdec.
  destruct (negb _) eqn:Hlen; [discriminate|].
  apply negb_false_iff, Nat.eqb_eq in Hlen.
  unbind tr_validated as m Hmax.
  destruct (tol <? m)%float eqn:Htol; [discriminate|].
  exists qrec, xmin, xmax.
  split; [exact Hdec|]. split; [exact Hlen|].
  split; [exact tr_xmin_eq|]. split; [exact tr_xmax_eq|].
  destruct (decode_quantiles_ok _ _ Hdec)
    as (b0 & a0 & a1 & c0 & c1 & payload' & ds & Hpk & Hds & Hrange & Hq).
  cbv zeta in Hq. rewrite tr_packet in Hpk. cbn [app] in Hpk.
  injection Hpk as Hb0 Ha0 Ha1 Hc0 Hc1 _.
  assert (Hxmin : byte_val a0 + 256 * byte_val a1 = xmin).
  { subst a0 a1. rewrite !byte_val_of.
    - pose proof (Z.div_mod xmin 256 ltac:(lia)). lia.
    - split; [apply Z.div_pos; lia|].
      enough (xmin / 256 < 256) by lia. apply Z.div_lt_upper_bound; lia.
    - pose proof (Z.mod_pos_bound xmin 256). lia. }
  assert (Hxmax : byte_val c0 + 256 * byte_val c1 = xmax).
  { subst c0 c1. rewrite !byte_val_of.
    - pose proof (Z.div_mod xmax 256 ltac:(lia)). lia.
    - split; [apply Z.div_pos; lia|].
      enough (xmax / 256 < 256) by lia. apply Z.div_lt_upper_bound; lia.
    - pose proof (Z.mod_pos_bound xmax 256). lia. }
  rewrite Hxmin, Hxmax in Hq.
  set (eps' := (Z2float (byte_val b0) * 0.00001)%float) in *.
  set (zmin := (Z2float xmin * 0.0002 - 0.01)%float) in *.
  set (zmax := (Z2float xmax * 0.0002 - 0.01)%float) in *.
  subst qrec.
  split; [reflexivity|].
  split.
  { change (zmin :: accumulate eps' zmin ds ++ [zmax])
      with ((zmin :: accumulate eps' zmin ds) ++ [zmax]).
    apply last_last. }
  rewrite interior_decoded in *.
  assert (Hmin : (neg_infinity <? zmin)%float = true).
  { apply endpoint_above_minf. change (2 ^ 62) with 4611686018427387904. lia. }
  destruct (accumulate_non_decreasing eps' ds (eps_of_byte_fin_nonneg b0)
              Hrange zmin Hmin) as [_ Hacc].
  assert (Nacc : Forall (fun r => is_nan r = false) (accumulate eps' zmin ds)).
  { eapply Forall_impl; [|exact Hacc]. intros r Hr.
    apply (ltb_not_nan _ _ Hr). }
  pose proof (shifts_not_nan _ _ (strictly_increasing_interior q Hinc) Nacc)
    as Nshift.
  destruct (py_max_ge _ _ Nshift Hmax) as [Nm Hle].
  pose proof (ltb_false_leb _ _ Ntol Nm Htol) as Hm.
  apply shifts_within.
  - rewrite length_interior.
    rewrite <- Hlen. cbn [List.length]. rewrite length_app. cbn [List.length].
    lia.
  - eapply Forall_impl; [|exact Hle]. intros x Hx.
    exact (leb_trans _ _ _ Hx Hm).
Qed.

Lemma round_trip_witness :
  exists qrec xmin xmax,
    decode_quantiles
      [x28; x26; x02; xde; x0d; x7d; x7d; xfa; xfa; xfa; xfa; x00] = Ok qrec /\
    List.length qrec
      = List.length [0.1; 0.15; 0.2; 0.3; 0.4; 0.5; 0.6; 0.7]%float /\
    int_floor ((hd 0 [0.1; 0.15; 0.2; 0.3; 0.4; 0.5; 0.6; 0.7] + 0.01) / 0.0002)%float
      = Ok xmin /\
    int_ceil ((last [0.1; 0.15; 0.2; 0.3; 0.4; 0.5; 0.6; 0.7] 0 + 0.01) / 0.0002)%float
      = Ok xmax /\
    hd 0%float qrec = (Z2float xmin * 0.0002 - 0.01)%float /\
    last qrec 0%float = (Z2float xmax * 0.0002 - 0.01)%float /\
    Forall2 (fun z r => (abs (z - r) <=? 0.001)%float = true)
      (interior [0.1; 0.15; 0.2; 0.3; 0.4; 0.5; 0.6; 0.7]%float) (interior qrec).
Proof.
  apply (round_trip [0.1; 0.15; 0.2; 0.3; 0.4; 0.5; 0.6; 0.7]%float 12
           0.001%float 6).
  - vm_compute. reflexivity.
  - vm_compute. reflexivity.
  - vm_compute. reflexivity.
Defined.

(** * Further properties of the codec *)

(** ** The decoder on arbitrary packets *)

Lemma max_byte_app (a b : list byte) :
  max_byte (a ++ b) = Z.max (max_byte a) (max_byte b).
Proof.
  induction a as [|x a IH]; cbn [app max_byte fold_right].
  - assert (0 <= max_byte b) by (clear; induction b; simpl; lia).
    fold (max_byte b). lia.
  - fold (max_byte (a ++ b)). fold (max_byte a). rewrite IH. lia.
Qed.

Lemma max_byte_app_zeros (a : list byte) (n : nat) :
  max_byte (a ++ repeat x00 n) = max_byte a.
Proof.
  rewrite max_byte_app, max_byte_repeat_zero.
  assert (0 <= max_byte a) by (clear; induction a; simpl; lia). lia.
Qed.

(** Zero bytes after a payload that decodes are not read as records. *)
Lemma decode_deltas_padded (k : nat) (n : nat) :
  forall payload ds,
    (List.length payload <= k)%nat ->
    decode_deltas payload = Ok ds ->
    decode_deltas (payload ++ repeat x00 n) = Ok ds.
Proof.
  induction k as [|k IH]; intros payload ds Hk H.
  - destruct payload; [|simpl in Hk; lia].
    injection H as <-. apply decode_deltas_zeros.
  - destruct payload as [|b rest].
    { injection H as <-. apply decode_deltas_zeros. }
    cbn [app]. rewrite decode_deltas_cons in *.
    change (b :: rest ++ repeat x00 n) with ((b :: rest) ++ repeat x00 n).
    rewrite max_byte_app_zeros.
    destruct (_ && _); [exact H|].
    destruct (byte_val b <? 255).
    + unbind H as ds' Hds. injection H as <-.
      rewrite (IH rest ds') by (simpl in Hk; lia || exact Hds). reflexivity.
    + destruct rest as [|hi [|lo rest']]; try discriminate.
      unbind H as ds' Hds. injection H as <-.
      cbn [app].
      rewrite (IH rest' ds') by (simpl in Hk; lia || exact Hds). reflexivity.
Qed.

(** Each record is at least one byte. *)
Lemma decode_deltas_length (k : nat) :
  forall payload ds,
    (List.length payload <= k)%nat ->
    decode_deltas payload = Ok ds ->
    (List.length ds <= List.length payload)%nat.
Proof.
  induction k as [|k IH]; intros payload ds Hk H.
  - destruct payload; [|simpl in Hk; lia]. injection H as <-. simpl. lia.
  - destruct payload as [|b rest]; [injection H as <-; simpl; lia|].
    rewrite decode_deltas_cons in H.
    destruct (_ && _); [injection H as <-; simpl; lia|].
    destruct (byte_val b <? 255).
    + unbind H as ds' Hds. injection H as <-.
      apply IH in Hds; [|simpl in Hk; lia]. simpl. lia.
    + destruct rest as [|hi [|lo rest']]; try discriminate.
      unbind H as ds' Hds. injection H as <-.
      apply IH in Hds; [|simpl in Hk; lia]. simpl in *. lia.
Qed.

Lemma length_accumulate (eps last : float) (ds : list Z) :
  List.length (accumulate eps last ds) = List.length ds.
Proof.
  revert last. induction ds as [|d ds IH]; intros last; [reflexivity|].
  cbn [accumulate List.length]. rewrite IH. reflexivity.
Qed.


Lemma decode_deltas_struct_error (k : nat) :
  forall payload e,
    (List.length payload <= k)%nat ->
    decode_deltas payload = Raise e ->
    e = StructError /\ In xff (last_two payload).
Proof.
  induction k as [|k IH]; intros payload e Hk H.
  - destruct payload; [discriminate | simpl in Hk; lia].
  - destruct payload as [|b rest]; [discriminate|].
    rewrite decode_deltas_cons in H.
    destruct (_ && _); [discriminate|].
    destruct (byte_val b <? 255) eqn:Eb.
    + destruct (decode_deltas rest) as [ds'|e'] eqn:Hds; [discriminate|].
      cbn [bind] in H. injection H as <-.
      destruct (IH rest e' ltac:(simpl in Hk; lia) Hds) as [-> Hin].
      split; [reflexivity|].
      unfold last_two in *. cbn [List.length].
      destruct rest as [|r1 [|r2 rest']].
      * destruct Hin.
      * cbn in Hin |- *. tauto.
      * replace (S (List.length (r1 :: r2 :: rest')) - 2)%nat
          with (S (List.length (r1 :: r2 :: rest') - 2))%nat
          by (cbn [List.length]; lia).
        exact Hin.
    + assert (Hb : b = xff).
      { apply Z.ltb_ge in Eb. pose proof (byte_val_range b).
        rewrite <- (byte_of_val b). replace (byte_val b) with 255 by lia.
        reflexivity. }
      subst b.
      destruct rest as [|hi [|lo rest']].
      * injection H as <-. split; [reflexivity | left; reflexivity].
      * injection H as <-. split; [reflexivity | left; reflexivity].
      * destruct (decode_deltas rest') as [ds'|e'] eqn:Hds; [discriminate|].
        cbn [bind] in H. injection H as <-.
        destruct (IH rest' e' ltac:(simpl in Hk; lia) Hds) as [-> Hin].
        split; [reflexivity|].
        unfold last_two in *.
        destruct rest' as [|r1 [|r2 rest'']].
        -- destruct Hin.
        -- cbn in Hin |- *. tauto.
        -- replace (List.length (xff :: hi :: lo :: r1 :: r2 :: rest'') - 2)%nat
             with (3 + (List.length (r1 :: r2 :: rest'') - 2))%nat
             by (cbn [List.length]; lia).
           exact Hin.
Qed.

(** X1.  [decode_quantiles] fails in two ways only.  The empty packet
    raises IndexError at [packet[0]]; a packet of one to four bytes raises
    [struct.error] at the header; a packet of five bytes or more is decoded,
    unless an escape marker 255 stands among the last two bytes of the
    payload with fewer than two bytes after it, which raises
    [struct.error]. *)
Theorem decode_quantiles_failures (packet : list byte) :
  match decode_quantiles packet with
  | Ok zs => (5 <= List.length packet)%nat
  | Raise IndexError => packet = []
  | Raise StructError =>
      (1 <= List.length packet <= 4)%nat \/
      ((5 <= List.length packet)%nat /\ In xff (last_two (skipn 5 packet)))
  | Raise _ => False
  end.
Proof.
  destruct packet as [|b0 packet]; [reflexivity|].
  unfold decode_quantiles. rewrite py_index_first. cbn [bind skipn].
  destruct packet as [|a0 [|a1 [|c0 [|c1 payload]]]];
    try (cbn; left; lia).
  cbn [firstn unpack_HH_le bind skipn].
  rewrite decode_loop_deltas.
  destruct (decode_deltas payload) as [ds|e] eqn:Hds; cbn [bind].
  - cbn [List.length]. lia.
  - apply (decode_deltas_struct_error (List.length payload)) in Hds as [-> Hin];
      [|lia].
    right. split; [cbn [List.length]; lia | exact Hin].
Qed.

(** X2.  An all-zero packet of five bytes or more is decoded without an
    error, to the two endpoints of code 0: the array [-0.01, -0.01].
    [decode_quantiles] itself does not tell the sentinel from a packet. *)
Theorem decode_all_zero_packet (n : nat) :
  decode_quantiles (repeat x00 (5 + n)) = Ok [-0.01; -0.01]%float.
Proof.
  change (repeat x00 (5 + n))
    with (x00 :: x00 :: x00 :: x00 :: x00 :: repeat x00 n).
  unfold decode_quantiles. rewrite py_index_first.
  cbn [bind skipn firstn unpack_HH_le].
  rewrite decode_loop_zeros. cbn [bind app]. vm_compute. reflexivity.
Qed.

(** X3.  Zero bytes appended to a packet that decodes do not change what
    it decodes to: the packet size can grow without touching the content. *)
Theorem decode_zero_padding (packet : list byte) (zs : list float) (n : nat) :
  decode_quantiles packet = Ok zs ->
  decode_quantiles (packet ++ repeat x00 n) = Ok zs.
Proof.
  intros H.
  destruct (decode_quantiles_ok _ _ H)
    as (b0 & a0 & a1 & c0 & c1 & payload & ds & -> & Hds & _ & Hzs).
  cbv zeta in Hzs. subst zs.
  cbn [app]. unfold decode_quantiles. rewrite py_index_first.
  cbn [bind skipn firstn unpack_HH_le].
  rewrite decode_loop_deltas.
  rewrite (decode_deltas_padded (List.length payload) n payload ds) by (lia || exact Hds).
  reflexivity.
Qed.

Lemma decode_zero_padding_witness :
  decode_quantiles ([x01; x26; x02; x01; x08; x0a; xff; x01; x2c; x05]
                    ++ repeat x00 6)
  = Ok [0.10000000000000001; 0.10010000000000001; 0.10310000000000001;
        0.10315000000000001; 0.39979999999999999]%float.
Proof.
  apply (decode_zero_padding [x01; x26; x02; x01; x08; x0a; xff; x01; x2c; x05]).
  vm_compute. reflexivity.
Defined.

(** X4.  The array decoded from a packet has at least the two endpoints and
    at most one value per payload byte besides them: between 2 and
    [len(packet) - 3] elements, the bound [encode_quantiles] puts on the
    number of quantiles. *)
Theorem decoded_length_bounds (packet : list byte) (zs : list float) :
  decode_quantiles packet = Ok zs ->
  (2 <= List.length zs <= List.length packet - 3)%nat.
Proof.
  intros H.
  destruct (decode_quantiles_ok _ _ H)
    as (b0 & a0 & a1 & c0 & c1 & payload & ds & -> & Hds & _ & Hzs).
  cbv zeta in Hzs. subst zs.
  apply (decode_deltas_length (List.length payload)) in Hds; [|lia].
  cbn [List.length]. rewrite length_app, length_accumulate. cbn [List.length].
  lia.
Qed.

Lemma decoded_length_bounds_witness :
  (2 <= List.length [0.10000000000000001; 0.10010000000000001;
                     0.10310000000000001; 0.10315000000000001;
                     0.39979999999999999]%float
     <= List.length [x01; x26; x02; x01; x08; x0a; xff; x01; x2c; x05] - 3)%nat.
Proof.
  apply (decoded_length_bounds
           [x01; x26; x02; x01; x08; x0a; xff; x01; x2c; x05]).
  vm_compute. reflexivity.
Defined.

(** ** The column of 32-bit words *)

Lemma be_i4_int32 (a b c d : byte) : is_int32 (be_i4 a b c d).
Proof.
  pose proof (byte_val_range a). pose proof (byte_val_range b).
  pose proof (byte_val_range c). pose proof (byte_val_range d).
  unfold is_int32, be_i4. cbv zeta.
  change (2 ^ 31) with 2147483648. change (2 ^ 32) with 4294967296.
  destruct (_ <? _) eqn:E; [apply Z.ltb_lt in E | apply Z.ltb_ge in E]; lia.
Qed.

Lemma i4_bytes_be_i4 (a b c d : byte) : i4_bytes (be_i4 a b c d) = [a; b; c; d].
Proof.
  pose proof (byte_val_range a) as Ha. pose proof (byte_val_range b) as Hb.
  pose proof (byte_val_range c) as Hc. pose proof (byte_val_range d) as Hd.
  unfold i4_bytes, be_i4. cbv zeta.
  set (u := ((byte_val a * 256 + byte_val b) * 256 + byte_val c) * 256
            + byte_val d).
  change (2 ^ 31) with 2147483648. change (2 ^ 32) with 4294967296.
  change (2 ^ 24) with 16777216. change (2 ^ 16) with 65536.
  change (2 ^ 8) with 256.
  assert (Hu : 0 <= u < 4294967296) by (subst u; lia).
  assert (Hm : (if u <? 2147483648 then u else u - 4294967296) mod 4294967296
               = u).
  { destruct (u <? 2147483648).
    - apply Z.mod_small. lia.
    - rewrite <- (Z.mod_add _ 1) by lia.
      replace (u - 4294967296 + 1 * 4294967296) with u by lia.
      apply Z.mod_small. lia. }
  rewrite Hm.
  replace (u / 16777216) with (byte_val a)
    by (subst u; Z.div_mod_to_equations; lia).
  replace ((u / 65536) mod 256) with (byte_val b)
    by (subst u; Z.div_mod_to_equations; lia).
  replace ((u / 256) mod 256) with (byte_val c)
    by (subst u; Z.div_mod_to_equations; lia).
  replace (u mod 256) with (byte_val d)
    by (subst u; Z.div_mod_to_equations; lia).
  rewrite !byte_of_val. reflexivity.
Qed.

Lemma be_i4_i4_bytes (w : Z) :
  is_int32 w ->
  match i4_bytes w with
  | [a; b; c; d] => be_i4 a b c d = w
  | _ => False
  end.
Proof.
  unfold is_int32, i4_bytes, be_i4. cbv zeta.
  change (2 ^ 31) with 2147483648. change (2 ^ 32) with 4294967296.
  change (2 ^ 24) with 16777216. change (2 ^ 16) with 65536.
  change (2 ^ 8) with 256.
  intros Hw. set (u := w mod 4294967296).
  assert (Hu : 0 <= u < 4294967296) by (apply Z.mod_pos_bound; lia).
  rewrite !byte_val_of by (Z.div_mod_to_equations; lia).
  replace (((u / 16777216 * 256 + (u / 65536) mod 256) * 256
            + (u / 256) mod 256) * 256 + u mod 256) with u
    by (Z.div_mod_to_equations; lia).
  destruct (u <? 2147483648) eqn:E;
    [apply Z.ltb_lt in E | apply Z.ltb_ge in E];
    subst u; Z.div_mod_to_equations; lia.
Qed.

Lemma tobytes_cons (w : Z) (ws : list Z) :
  tobytes (w :: ws) = i4_bytes w ++ tobytes ws.
Proof. reflexivity. Qed.

Lemma frombuffer_tobytes (n : nat) :
  forall bs ws,
    (List.length bs <= n)%nat ->
    frombuffer_i4 bs = Ok ws ->
    tobytes ws = bs /\ List.length bs = (4 * List.length ws)%nat /\
    Forall is_int32 ws.
Proof.
  induction n as [|n IH]; intros bs ws Hn H.
  - destruct bs; [|simpl in Hn; lia]. injection H as <-.
    repeat split. constructor.
  - destruct bs as [|a [|b [|c [|d bs']]]]; try discriminate.
    { injection H as <-. repeat split. constructor. }
    cbn [frombuffer_i4] in H. unbind H as ws' Hws. injection H as <-.
    destruct (IH bs' ws' ltac:(simpl in Hn; lia) Hws) as (E1 & E2 & E3).
    rewrite tobytes_cons, i4_bytes_be_i4, E1.
    split; [reflexivity|]. split; [cbn [List.length]; lia|].
    constructor; [apply be_i4_int32 | exact E3].
Qed.

Lemma frombuffer_ok_iff (n : nat) :
  forall bs,
    (List.length bs <= n)%nat ->
    (is_ok (frombuffer_i4 bs) = true <-> (List.length bs mod 4 = 0)%nat).
Proof.
  induction n as [|n IH]; intros bs Hn.
  - destruct bs; [|simpl in Hn; lia]. split; reflexivity.
  - destruct bs as [|a [|b [|c [|d bs']]]];
      try (split; [discriminate | cbn; lia]).
    { split; reflexivity. }
    cbn [frombuffer_i4].
    specialize (IH bs' ltac:(simpl in Hn; lia)).
    replace (List.length (a :: b :: c :: d :: bs') mod 4)%nat
      with (List.length bs' mod 4)%nat.
    + destruct (frombuffer_i4 bs'); cbn [bind is_ok] in *; exact IH.
    + cbn [List.length].
      replace (S (S (S (S (List.length bs')))))
        with (List.length bs' + 1 * 4)%nat by lia.
      rewrite Nat.Div0.mod_add. reflexivity.
Qed.

(** X5.  Storing a packet as big-endian signed 32-bit words loses nothing.
    [np.frombuffer] accepts exactly the byte strings whose length is a
    multiple of 4, gives one word of the int32 range per four bytes, and
    [tobytes] gives the same bytes back; and the words of a column are read
    back from their bytes. *)
Theorem int32_column_round_trip :
  (forall bs, is_ok (frombuffer_i4 bs) = true
              <-> (List.length bs mod 4 = 0)%nat) /\
  (forall bs ws,
     frombuffer_i4 bs = Ok ws ->
     tobytes ws = bs /\ List.length bs = (4 * List.length ws)%nat /\
     Forall is_int32 ws) /\
  (forall ws, Forall is_int32 ws -> frombuffer_i4 (tobytes ws) = Ok ws).
Proof.
  split; [|split].
  - intros bs. apply (frombuffer_ok_iff (List.length bs)). lia.
  - intros bs ws. apply (frombuffer_tobytes (List.length bs)). lia.
  - induction 1 as [|w ws Hw _ IH]; [reflexivity|].
    rewrite tobytes_cons.
    pose proof (be_i4_i4_bytes w Hw) as E.
    destruct (i4_bytes w) as [|a [|b [|c [|d [|]]]]]; try contradiction.
    cbn [app frombuffer_i4]. rewrite IH, E. reflexivity.
Qed.

(** ** The shape of an encoded packet *)

Lemma delta_record_length (d : Z) (rec : list byte) :
  delta_record d = Ok rec -> (1 <= List.length rec <= 3)%nat.
Proof.
  intros H. destruct (delta_record_cases d) as [C|[C|C]].
  - rewrite delta_record_short in H by exact C. injection H as <-. simpl. lia.
  - rewrite delta_record_escape in H by exact C. injection H as <-. simpl. lia.
  - rewrite delta_record_error in H by exact C. discriminate.
Qed.

Lemma encode_payload_length (eps : float) (zs : list float) :
  forall prev payload,
    encode_payload eps prev zs = Ok payload ->
    (List.length zs <= List.length payload <= 3 * List.length zs)%nat.
Proof.
  induction zs as [|z zs IH]; intros prev payload H.
  - injection H as <-. simpl. lia.
  - cbn [encode_payload] in H.
    unbind H as d Hd. unbind H as rec Hrec. unbind H as rest Hrest.
    injection H as <-.
    apply delta_record_length in Hrec. apply IH in Hrest.
    rewrite length_app. cbn [List.length]. lia.
Qed.

Lemma py_index_ok_range {A} (d : A) (l : list A) (i : Z) (a : A) :
  py_index d l i = Ok a ->
  - Z.of_nat (List.length l) <= i < Z.of_nat (List.length l).
Proof.
  unfold py_index. cbv zeta.
  destruct (i <? 0) eqn:E; [apply Z.ltb_lt in E | apply Z.ltb_ge in E];
    destruct (_ && _) eqn:F; try discriminate;
    apply andb_prop in F as [F1 F2];
    apply Z.leb_le in F1; apply Z.ltb_lt in F2; intros _; lia.
Qed.

Lemma encode_quantiles_gap_index (q : list float) (packetsize : Z)
    (validate : bool) (tolerance : option float) (L : Z) (packet : list byte) :
  encode_quantiles q packetsize validate tolerance = Ok (L, packet) ->
  (packetsize - (Z.of_nat (List.length q) + 3)) / 2 + 1
  <= Z.of_nat (List.length q - 2).
Proof.
  unfold encode_quantiles. intros H.
  if_inv H.
  destruct q as [|z q']; [discriminate H|].
  rewrite py_index_first, py_index_last in H. cbn [bind] in H.
  bind_inv H. bind_inv H. unbind H as gapthreshold Hthr.
  apply py_index_ok_range in Hthr. rewrite length_gaps in Hthr. lia.
Qed.

Lemma encode_quantiles_length (q : list float) (packetsize : Z)
    (validate : bool) (tolerance : option float) (L : Z) (packet : list byte) :
  encode_quantiles q packetsize validate tolerance = Ok (L, packet) ->
  Z.of_nat (List.length packet) = packetsize.
Proof.
  intros H. destruct (encode_quantiles_ok _ _ _ _ _ _ H).
  rewrite tr_packet. cbn [app List.length].
  rewrite length_app, repeat_length. lia.
Qed.

(** X6.  A packet is returned only for a number [M] of quantiles with
    [packetsize + 2 <= 3 M] and [M <= packetsize - 3].  The packet has
    exactly [packetsize] bytes; its payload takes between one and three
    bytes per interior quantile and never more than [packetsize - 5], so
    nothing is truncated; the bytes after the payload are zero. *)
Theorem encoded_packet_shape (q : list float) (packetsize : Z)
    (validate : bool) (tolerance : option float) (L : Z) (packet : list byte) :
  encode_quantiles q packetsize validate tolerance = Ok (L, packet) ->
  let M := Z.of_nat (List.length q) in
  3 <= M /\ packetsize + 2 <= 3 * M /\ M <= packetsize - 3 /\
  Z.of_nat (List.length packet) = packetsize /\
  M - 2 <= L <= 3 * (M - 2) /\ L <= packetsize - 5 /\
  skipn (Z.to_nat (5 + L)) packet = repeat x00 (Z.to_nat (packetsize - 5 - L)).
Proof.
  intros H M.
  pose proof (encode_quantiles_gap_index _ _ _ _ _ _ H) as Hgap.
  destruct (encode_quantiles_ok _ _ _ _ _ _ H).
  apply encode_payload_length in tr_payload_eq.
  rewrite length_interior in tr_payload_eq.
  fold M in Hgap, tr_fits.
  assert (HM : 3 <= M).
  { assert (0 <= (packetsize - (M + 3)) / 2) by (apply Z.div_pos; lia). lia. }
  assert (Hq : Z.of_nat (List.length q - 2) = M - 2) by (subst M; lia).
  split; [exact HM|].
  split; [rewrite Hq in Hgap; Z.div_mod_to_equations; lia|].
  split; [exact tr_fits|].
  split; [apply (encode_quantiles_length _ _ _ _ _ _ H)|].
  split; [lia|]. split; [lia|].
  rewrite tr_packet.
  replace (Z.to_nat (5 + L)) with (5 + List.length payload)%nat by lia.
  cbn [app plus skipn].
  rewrite skipn_app, skipn_all, Nat.sub_diag. reflexivity.
Qed.

Lemma encoded_packet_shape_witness :
  let M := Z.of_nat (List.length [0.1; 0.15; 0.2; 0.3; 0.4; 0.5; 0.6; 0.7]%float) in
  3 <= M /\ 12 + 2 <= 3 * M /\ M <= 12 - 3 /\
  Z.of_nat (List.length
              [x28; x26; x02; xde; x0d; x7d; x7d; xfa; xfa; xfa; xfa; x00]) = 12 /\
  M - 2 <= 6 <= 3 * (M - 2) /\ 6 <= 12 - 5 /\
  skipn (Z.to_nat (5 + 6))
        [x28; x26; x02; xde; x0d; x7d; x7d; xfa; xfa; xfa; xfa; x00]
  = repeat x00 (Z.to_nat (12 - 5 - 6)).
Proof.
  apply (encoded_packet_shape [0.1; 0.15; 0.2; 0.3; 0.4; 0.5; 0.6; 0.7]%float
           12 true (Some 0.001%float)).
  vm_compute. reflexivity.
Defined.

(** ** What the batch search returns *)

Section SearchInvariant.

Variable np_sum : list float -> float.
Variable binned_to_quantiles : list float -> list float -> Z -> result (list float).
Variable samples_to_quantiles : list float -> Z -> result (list float).
Variable packetsize : Z.
Variable tolerance : option float.
Variable validate : bool.

Let extract := extract_quantiles binned_to_quantiles samples_to_quantiles.
Let loop :=
  search_loop binned_to_quantiles samples_to_quantiles packetsize tolerance
    validate.
Let at_count :=
  packet_at binned_to_quantiles samples_to_quantiles packetsize tolerance
    validate.
Let result_of :=
  search_result binned_to_quantiles samples_to_quantiles packetsize tolerance
    validate.

(** [lastgood] is always the packet of the count just below, with room
    left in it. *)
Lemma search_loop_result (row : source_row) (ini_quantiles : Z) :
  forall fuel N lastgood p,
    loop fuel row N lastgood = Some (Ok p) ->
    (N - ini_quantiles) mod 2 = 0 ->
    (forall p0, lastgood = Some p0 ->
       exists L0, at_count row (N - 2) L0 p0 /\ L0 < packetsize - 5) ->
    result_of row ini_quantiles p.
Proof.
  induction fuel as [|fuel IH]; intros N lastgood p H Hpar Hlast;
    [discriminate|].
  unfold loop in H. cbn [search_loop] in H. fold extract in H.
  destruct (extract row N) as [q|e] eqn:Hq; [|discriminate].
  destruct (encode_quantiles q packetsize validate tolerance)
    as [[L packet]|e] eqn:Henc.
  - pose proof (encode_quantiles_ok _ _ _ _ _ _ Henc) as T. destruct T.
    destruct (L <? packetsize - 5) eqn:E1.
    + apply Z.ltb_lt in E1.
      apply (IH (N + 2) (Some packet) p H).
      * replace (N + 2 - ini_quantiles) with (N - ini_quantiles + 1 * 2) by lia.
        rewrite Z.mod_add by lia. exact Hpar.
      * intros p0 [= <-]. exists L. split; [|exact E1].
        replace (N + 2 - 2) with N by lia. exists q. auto.
    + destruct (L =? packetsize - 5) eqn:E2.
      * apply Z.eqb_eq in E2. injection H as <-.
        exists N, L. split; [exact Hpar|]. split; [exists q; auto | left; exact E2].
      * apply Z.ltb_ge in E1. apply Z.eqb_neq in E2. lia.
  - destruct e as [w| | | | |]; try discriminate.
    destruct lastgood as [p0|].
    + injection H as <-.
      destruct (Hlast p0 eq_refl) as (L0 & Hat & HL0).
      exists (N - 2), L0. split.
      * replace (N - 2 - ini_quantiles) with (N - ini_quantiles + (-1) * 2) by lia.
        rewrite Z.mod_add by lia. exact Hpar.
      * split; [exact Hat|]. right. split; [exact HL0|].
        replace (N - 2 + 2) with N by lia. exists q, w. auto.
    + apply (IH (N - 2) None p H); [|discriminate].
      replace (N - 2 - ini_quantiles) with (N - ini_quantiles + (-1) * 2) by lia.
      rewrite Z.mod_add by lia. exact Hpar.
Qed.

Lemma encode_row_result (fuel : nat) (ini_quantiles : Z) (row : source_row)
    (words : list Z) :
  encode_row np_sum binned_to_quantiles samples_to_quantiles packetsize
    tolerance validate fuel ini_quantiles row = Some (Ok words) ->
  if row_valid np_sum row
  then result_of row ini_quantiles (tobytes words) /\
       frombuffer_i4 (tobytes words) = Ok words
  else words = repeat 0 (Z.to_nat (packetsize / 4)).
Proof.
  unfold encode_row. destruct (row_valid np_sum row); cbn [negb].
  - destruct (search_loop _ _ _ _ _ _ _ _ _) as [[packet|e]|] eqn:Hloop;
      try discriminate.
    intros [= Hw].
    destruct (frombuffer_tobytes (List.length packet) packet words
                (le_n _) Hw) as (E & _ & _).
    rewrite E. split; [|exact Hw].
    apply (search_loop_result row ini_quantiles fuel ini_quantiles None packet
             Hloop).
    + rewrite Z.sub_diag. reflexivity.
    + discriminate.
  - intros [= <-]. reflexivity.
Qed.

Lemma encode_rows_result (fuel : nat) (ini_quantiles : Z) :
  forall rows out,
    encode_rows np_sum binned_to_quantiles samples_to_quantiles packetsize
      tolerance validate fuel ini_quantiles rows = Some (Ok out) ->
    Forall2 (fun row words =>
               encode_row np_sum binned_to_quantiles samples_to_quantiles
                 packetsize tolerance validate fuel ini_quantiles row
               = Some (Ok words)) rows out.
Proof.
  induction rows as [|r rows IH]; intros out H.
  - injection H as <-. constructor.
  - cbn [encode_rows] in H.
    destruct (encode_row _ _ _ _ _ _ _ _ r) as [[words|e]|] eqn:Er;
      try discriminate.
    destruct (encode_rows _ _ _ _ _ _ _ _ rows) as [[out'|e]|] eqn:Ers;
      try discriminate.
    injection H as <-. constructor; [exact Er | apply IH; reflexivity].
Qed.

End SearchInvariant.

Lemma Forall2_nth_error {A B} (R : A -> B -> Prop) (l : list A) (l' : list B) :
  Forall2 R l l' ->
  forall i a b, nth_error l i = Some a -> nth_error l' i = Some b -> R a b.
Proof.
  induction 1 as [|x y l l' Hxy _ IH]; intros i a b Ha Hb.
  - destruct i; discriminate.
  - destruct i as [|i]; cbn [nth_error] in *.
    + injection Ha as <-. injection Hb as <-. exact Hxy.
    + eapply IH; eassumption.
Qed.

(** X7.  What a batch call returns, for a packet size that is not negative.
    There is one row of [packetsize // 4] words per input row.  The row of
    a valid input holds, byte for byte, a packet that [encode_quantiles]
    returned for some number [N] of quantiles of that input, where [N]
    differs from [ini_quantiles] by an even number, and either the payload
    fills the packet or [N + 2] quantiles were refused with a ValueError. *)
Theorem batch_rows_are_packets
    (np_sum : list float -> float)
    (binned_to_quantiles : list float -> list float -> Z -> result (list float))
    (samples_to_quantiles : list float -> Z -> result (list float))
    (packetsize : Z) (tolerance : option float) (validate : bool)
    (fuel : nat) (data : batch_data) (ini_quantiles : Z)
    (out : list (list Z)) :
  0 <= packetsize ->
  _batch_encode np_sum binned_to_quantiles samples_to_quantiles packetsize
    tolerance validate fuel data ini_quantiles = Some (Ok out) ->
  packetsize mod 4 = 0 /\ ini_quantiles <= packetsize - 3 /\
  List.length out = List.length (rows_of data) /\
  forall i row words,
    nth_error (rows_of data) i = Some row ->
    nth_error out i = Some words ->
    Z.of_nat (List.length words) = packetsize / 4 /\
    (row_valid np_sum row = true ->
     frombuffer_i4 (tobytes words) = Ok words /\
     search_result binned_to_quantiles samples_to_quantiles packetsize
       tolerance validate row ini_quantiles (tobytes words)).
Proof.
  intros Hps H. unfold _batch_encode in H.
  destruct (packetsize mod 4 =? 0) eqn:E4; cbn [negb] in H; [|discriminate].
  destruct (packetsize - ini_quantiles <? 3) eqn:E3; [discriminate|].
  destruct (packetsize / 4 <? 0); [discriminate|].
  apply Z.eqb_eq in E4. apply Z.ltb_ge in E3.
  apply encode_rows_result in H.
  split; [exact E4|]. split; [lia|].
  split; [symmetry; eapply Forall2_length; exact H|].
  intros i row words Hrow Hwords.
  pose proof (Forall2_nth_error _ _ _ H i row words Hrow Hwords) as Hr.
  apply encode_row_result in Hr.
  destruct (row_valid np_sum row).
  - destruct Hr as [Hres Hbuf]. split; [|intros _; split; assumption].
    destruct Hres as (N & L & _ & (q & _ & Henc) & _).
    apply encode_quantiles_length in Henc.
    destruct (frombuffer_tobytes (List.length (tobytes words)) (tobytes words)
                words (le_n _) Hbuf) as (_ & E & _).
    Z.div_mod_to_equations. lia.
  - subst words. split; [|discriminate].
    rewrite repeat_length. apply Z2Nat.id. apply Z.div_pos; lia.
Qed.

Lemma batch_rows_are_packets_witness :
  8 mod 4 = 0 /\ 5 <= 8 - 3 /\
  List.length [[0; 0]; [505807362; 150665978]]
  = List.length (rows_of (Samples [[0.1; infinity; 0.4]; [0.1; 0.2; 0.4]]%float)) /\
  forall i row words,
    nth_error (rows_of (Samples [[0.1; infinity; 0.4]; [0.1; 0.2; 0.4]]%float)) i
    = Some row ->
    nth_error [[0; 0]; [505807362; 150665978]] i = Some words ->
    Z.of_nat (List.length words) = 8 / 4 /\
    (row_valid seq_sum row = true ->
     frombuffer_i4 (tobytes words) = Ok words /\
     search_result (fun _ => uniform_quantiles) uniform_quantiles 8
       (Some 0.001%float) true row 5 (tobytes words)).
Proof.
  apply (batch_rows_are_packets seq_sum (fun _ => uniform_quantiles)
           uniform_quantiles 8 (Some 0.001%float) true (search_bound 5 8)).
  - lia.
  - vm_compute. reflexivity.
Defined.

(** ** Validation *)

Lemma validate_packet_no_tolerance (q : list float) (packet : list byte) :
  validate_packet q packet None <> Ok tt.
Proof.
  unfold validate_packet.
  destruct (decode_quantiles packet) as [qrec|]; cbn [bind]; [|discriminate].
  destruct (negb _); [discriminate|].
  destruct (py_max _); cbn [bind]; discriminate.
Qed.

Lemma encode_quantiles_no_tolerance (q : list float) (packetsize : Z)
    (r : Z * list byte) :
  encode_quantiles q packetsize true None <> Ok r.
Proof.
  destruct r as [L packet]. intros H.
  destruct (encode_quantiles_ok _ _ _ _ _ _ H).
  apply (validate_packet_no_tolerance q packet). apply tr_validated. reflexivity.
Qed.

(** With validation, a call does what the call without validation does,
    then checks the packet. *)
Lemma encode_quantiles_validate (q : list float) (packetsize : Z)
    (tolerance : option float) :
  encode_quantiles q packetsize true tolerance =
  (r <- encode_quantiles q packetsize false tolerance ;;
   _ <- validate_packet q (snd r) tolerance ;; Ok r).
Proof.
  unfold encode_quantiles. cbv zeta.
  repeat first
    [ reflexivity
    | progress cbn [bind snd]
    | match goal with
      | |- context [bind ?m _] =>
          lazymatch m with
          | validate_packet _ _ _ => fail
          | context [bind _ _] => fail
          | context [if _ then _ else _] => fail
          | _ => destruct m
          end
      | |- context [if ?c then _ else _] =>
          lazymatch c with
          | context [bind _ _] => fail
          | _ => destruct c
          end
      end ].
Qed.

Lemma py_max_ok (l : list float) : l <> [] -> exists m, py_max l = Ok m.
Proof. destruct l; [contradiction | intros _; cbn; eauto]. Qed.

(** X8.  With [validate=True] and [tolerance=None], the defaults that
    [encode_from_binned] and [encode_from_samples] pass for [tolerance],
    [encode_quantiles] never returns a packet: the comparison of the largest
    shift with [None] raises TypeError whenever the packet built without
    validation decodes to as many values as were encoded, and an earlier
    exception is raised otherwise. *)
Theorem validation_needs_tolerance (q : list float) (packetsize : Z) :
  (exists e, encode_quantiles q packetsize true None = Raise e) /\
  (forall L packet qrec,
     encode_quantiles q packetsize false None = Ok (L, packet) ->
     decode_quantiles packet = Ok qrec ->
     List.length qrec = List.length q ->
     encode_quantiles q packetsize true None = Raise TypeError).
Proof.
  split.
  - destruct (encode_quantiles q packetsize true None) as [r|e] eqn:H; [|eauto].
    exfalso. exact (encode_quantiles_no_tolerance _ _ _ H).
  - intros L packet qrec Henc Hdec Hlen.
    rewrite encode_quantiles_validate, Henc. cbn [bind snd].
    unfold validate_packet. rewrite Hdec. cbn [bind].
    rewrite Hlen, Nat.eqb_refl. cbn [negb].
    destruct (py_max_ok
                (float_abs_list (np_sub (interior q) (interior qrec))))
      as [m ->]; [|reflexivity].
    intros E. apply (f_equal (@List.length float)) in E.
    unfold float_abs_list in E.
    rewrite length_map, length_np_sub, !length_interior, Hlen in E.
    pose proof (encode_quantiles_gap_index _ _ _ _ _ _ Henc) as Hgap.
    destruct (encode_quantiles_ok _ _ _ _ _ _ Henc).
    assert (0 <= (packetsize - (Z.of_nat (List.length q) + 3)) / 2)
      by (apply Z.div_pos; lia).
    cbn [List.length] in E. lia.
Qed.

(** Three quantiles in six bytes: the packet is built, decoded to three
    values, and the comparison with [None] raises. *)
Lemma validation_type_error_run :
  encode_quantiles [0.1; 0.15; 0.2]%float 6 false None
  = Ok (1, [x14; x26; x02; x1a; x04; xfa]) /\
  encode_quantiles [0.1; 0.15; 0.2]%float 6 true None = Raise TypeError.
Proof. split; vm_compute; reflexivity. Qed.

Section NoTolerance.

Variable np_sum : list float -> float.
Variable binned_to_quantiles : list float -> list float -> Z -> result (list float).
Variable samples_to_quantiles : list float -> Z -> result (list float).
Variable packetsize : Z.

Lemma encode_rows_no_tolerance (fuel : nat) (ini_quantiles : Z) :
  forall rows out row,
    In row rows -> row_valid np_sum row = true ->
    encode_rows np_sum binned_to_quantiles samples_to_quantiles packetsize
      None true fuel ini_quantiles rows <> Some (Ok out).
Proof.
  intros rows out row Hin Hvalid H.
  apply encode_rows_result in H.
  apply In_nth_error in Hin as [i Hi].
  destruct (nth_error out i) as [words|] eqn:Hw.
  - pose proof (Forall2_nth_error _ _ _ H i row words Hi Hw) as Hr.
    apply encode_row_result in Hr. rewrite Hvalid in Hr.
    destruct Hr as [(N & L & _ & (q & _ & Henc) & _) _].
    exact (encode_quantiles_no_tolerance _ _ _ Henc).
  - apply nth_error_None in Hw. apply Forall2_length in H.
    assert (i < List.length rows)%nat by (apply nth_error_Some; congruence).
    lia.
Qed.

End NoTolerance.

(** X9.  A batch call with [validate=True] and the default
    [tolerance=None] cannot return: as soon as one row of the input is
    valid, the call ends in an exception (or, in the model, runs out of
    fuel), whatever the quantile extractors give. *)
Theorem batch_validation_needs_tolerance
    (np_sum : list float -> float)
    (binned_to_quantiles : list float -> list float -> Z -> result (list float))
    (samples_to_quantiles : list float -> Z -> result (list float))
    (packetsize : Z) (fuel : nat) (data : batch_data) (ini_quantiles : Z)
    (row : source_row) (out : list (list Z)) :
  In row (rows_of data) -> row_valid np_sum row = true ->
  _batch_encode np_sum binned_to_quantiles samples_to_quantiles packetsize
    None true fuel data ini_quantiles <> Some (Ok out).
Proof.
  intros Hin Hvalid. unfold _batch_encode.
  destruct (negb _); [discriminate|].
  destruct (_ <? _); [discriminate|].
  destruct (_ <? _); [discriminate|].
  apply (encode_rows_no_tolerance _ _ _ _ _ _ _ _ row); assumption.
Qed.

Lemma batch_validation_needs_tolerance_witness :
  _batch_encode seq_sum (fun _ => uniform_quantiles) uniform_quantiles 8
    None true (search_bound 5 8)
    (Samples [[0.1; infinity; 0.4]; [0.1; 0.2; 0.4]]%float) 5
  = Some (Raise TypeError) /\
  _batch_encode seq_sum (fun _ => uniform_quantiles) uniform_quantiles 8
    None true (search_bound 5 8)
    (Samples [[0.1; infinity; 0.4]; [0.1; 0.2; 0.4]]%float) 5
  <> Some (Ok [[0; 0]; [505807362; 150665978]]).
Proof.
  split; [vm_compute; reflexivity|].
  apply (batch_validation_needs_tolerance seq_sum (fun _ => uniform_quantiles)
           uniform_quantiles 8 (search_bound 5 8)
           (Samples [[0.1; infinity; 0.4]; [0.1; 0.2; 0.4]]%float) 5
           (SamplesRow [0.1; 0.2; 0.4]%float)).
  - right. left. reflexivity.
  - vm_compute. reflexivity.
Defined.

(** ** Decoding what the encoder wrote, without validation *)

Lemma decode_deltas_all_zero (payload : list byte) :
  max_byte payload = 0 -> decode_deltas payload = Ok [].
Proof.
  intros H. destruct payload as [|b rest]; [reflexivity|].
  rewrite decode_deltas_cons.
  assert (Hb : byte_val b = 0).
  { apply max_byte_zero_iff in H. inversion H; assumption. }
  rewrite Hb, H. reflexivity.
Qed.

Lemma decode_deltas_nil (payload : list byte) :
  decode_deltas payload = Ok [] -> max_byte payload = 0.
Proof.
  destruct payload as [|b rest]; [reflexivity|].
  rewrite decode_deltas_cons.
  destruct (byte_val b =? 0) eqn:E1; cbn [andb].
  - destruct (max_byte (b :: rest) =? 0) eqn:E2.
    + intros _. apply Z.eqb_eq. exact E2.
    + destruct (byte_val b <? 255).
      * destruct (decode_deltas rest); discriminate.
      * destruct rest as [|hi [|lo rest']]; try discriminate.
        destruct (decode_deltas rest'); discriminate.
  - destruct (byte_val b <? 255).
    + destruct (decode_deltas rest); discriminate.
    + destruct rest as [|hi [|lo rest']]; try discriminate.
      destruct (decode_deltas rest'); discriminate.
Qed.

Lemma strip_zeros_cons_nonzero (d : Z) (ds : list Z) :
  d <> 0 -> strip_zeros (d :: ds) = d :: strip_zeros ds.
Proof.
  intros Hd. cbn [strip_zeros].
  destruct (strip_zeros ds); [|reflexivity].
  destruct (d =? 0) eqn:E; [apply Z.eqb_eq in E; contradiction | reflexivity].
Qed.

Lemma length_strip_zeros (ds : list Z) :
  (List.length (strip_zeros ds) <= List.length ds)%nat /\
  (List.length (strip_zeros ds) = List.length ds <-> last ds 1 <> 0).
Proof.
  induction ds as [|d ds [IH1 IH2]].
  - cbn. split; [lia|]. split; [discriminate | reflexivity].
  - cbn [strip_zeros].
    destruct ds as [|d' ds'].
    + cbn. destruct (d =? 0) eqn:E; cbn.
      * apply Z.eqb_eq in E. split; [lia|]. split; [discriminate | lia].
      * apply Z.eqb_neq in E. split; [lia|]. split; [auto | reflexivity].
    + change (last (d :: d' :: ds') 1) with (last (d' :: ds') 1).
      destruct (strip_zeros (d' :: ds')) as [|s l] eqn:Hs.
      * cbn [List.length] in *.
        assert (Hz : last (d' :: ds') 1 = 0).
        { destruct (Z.eq_dec (last (d' :: ds') 1) 0) as [|N]; [assumption|].
          apply IH2 in N. discriminate. }
        destruct (d =? 0); cbn [List.length]; (split; [lia|]);
          (split; [lia | intros N; contradiction]).
      * cbn [List.length] in *. split; [lia|].
        rewrite <- IH2. lia.
Qed.

(** The decoder reads back the deltas of the payload loop, except the
    zeros at the end, which it takes for padding. *)
Lemma decode_encoded_deltas (eps : float) (n : nat) (zs : list float) :
  forall prev payload,
    encode_payload eps prev zs = Ok payload ->
    exists ds,
      encode_deltas eps prev zs = Ok ds /\
      List.length ds = List.length zs /\
      decode_deltas (payload ++ repeat x00 n) = Ok (strip_zeros ds).
Proof.
  induction zs as [|z zs IH]; intros prev payload H.
  - injection H as <-. exists []. repeat split. apply decode_deltas_zeros.
  - cbn [encode_payload] in H.
    unbind H as d Hd. unbind H as rec Hrec. unbind H as rest Hrest.
    injection H as <-.
    destruct (IH _ _ Hrest) as (ds & Hds & Hlen & Hdec).
    exists (d :: ds).
    split.
    { cbn [encode_deltas]. rewrite Hd. cbn [bind]. rewrite Hrec. cbn [bind].
      rewrite Hds. reflexivity. }
    split; [cbn [List.length]; lia|].
    rewrite <- app_assoc.
    destruct (Z.eq_dec d 0) as [->|Hnz].
    + rewrite delta_record_short in Hrec by lia. injection Hrec as <-.
      cbn [app]. rewrite decode_deltas_cons.
      change (byte_val (byte_of 0)) with 0. cbn [Z.eqb andb].
      destruct (max_byte (byte_of 0 :: rest ++ repeat x00 n) =? 0) eqn:E.
      * apply Z.eqb_eq in E.
        assert (E' : max_byte (rest ++ repeat x00 n) = 0).
        { apply max_byte_zero_iff in E. apply max_byte_zero_iff.
          inversion E; assumption. }
        rewrite (decode_deltas_all_zero _ E') in Hdec.
        injection Hdec as Hs. cbn [strip_zeros]. rewrite <- Hs. reflexivity.
      * cbn [Z.ltb Z.compare]. rewrite Hdec. cbn [bind].
        apply Z.eqb_neq in E.
        cbn [strip_zeros].
        destruct (strip_zeros ds) as [|s l] eqn:Hs; [|reflexivity].
        exfalso. apply E.
        apply decode_deltas_nil in Hdec.
        apply max_byte_zero_iff. constructor; [reflexivity|].
        apply max_byte_zero_iff. exact Hdec.
    + rewrite (decode_deltas_record d rec _ Hrec Hnz), Hdec. cbn [bind].
      rewrite strip_zeros_cons_nonzero by exact Hnz. reflexivity.
Qed.



(** ** The arguments of quantiles_to_binned *)

Section BinnedArguments.

Variable np_sum : list float -> float.
Variable np_arange : float -> float -> float -> result (list float).
Variable _monotone_natural_spline :
  list float -> list float -> list float -> result (list float).

Let binned := quantiles_to_binned np_sum np_arange _monotone_natural_spline.

Lemma np_linspace_ok (a b : float) (n : Z) :
  0 <= n -> exists g, np_linspace a b n = Ok g.
Proof.
  intros Hn. unfold np_linspace.
  destruct (n <? 0) eqn:E; [apply Z.ltb_lt in E; lia|].
  destruct (n =? 0); [eauto|]. destruct (n =? 1); eauto.
Qed.

Lemma nbins_raises (zq : list float) (dz : option float) (n : Z)
    (z_min z_max : option float) (zvector : option (list float))
    (method : string) (force_range : bool) :
  exists e,
    binned zq dz (Some n) z_min z_max zvector method force_range = Raise e.
Proof.
  unfold binned, quantiles_to_binned.
  destruct (_ && _ && _ && _); [eauto|].
  destruct zvector as [zv|]; cbn [is_some orb andb]; [rewrite orb_true_r; eauto|].
  destruct dz as [d|]; cbn [is_some orb andb]; [eauto|].
  unfold make_grid.
  destruct (match z_min with None => _ | Some v => _ end); cbn [bind]; [|eauto].
  destruct (match z_max with None => _ | Some v => _ end); cbn [bind]; [|eauto].
  destruct (_ =? _)%float;
    (destruct (np_linspace _ _ n); cbn [bind]; [|eauto]);
    (destruct (py_index 0%float zq 0); cbn [bind]; eauto).
Qed.

Lemma nbins_type_error (zq : list float) (n : Z) (z_min z_max : option float)
    (method : string) (force_range : bool) :
  zq <> [] -> 0 <= n ->
  (force_range = true -> is_some z_min || is_some z_max = true) ->
  binned zq None (Some n) z_min z_max None method force_range
  = Raise TypeError.
Proof.
  intros Hzq Hn Hforce. unfold binned, quantiles_to_binned.
  destruct zq as [|z zq']; [contradiction|].
  cbn [is_some negb andb orb].
  replace (force_range && true && negb (is_some z_min) && negb (is_some z_max))
    with false.
  2:{ destruct force_range; [|reflexivity]. specialize (Hforce eq_refl).
      destruct z_min, z_max; cbn in *; congruence. }
  unfold make_grid. rewrite py_index_first, py_index_last.
  destruct z_min as [a|], z_max as [b|]; cbn [bind];
    match goal with
    | |- context [if ?c then _ else _] => destruct c
    end;
    match goal with
    | |- context [np_linspace ?a ?b n] =>
        destruct (np_linspace_ok a b n Hn) as [g ->]
    end; reflexivity.
Qed.

Lemma length_np_diff (a : list float) :
  List.length (np_diff a) = (List.length a - 1)%nat.
Proof.
  unfold np_diff. rewrite length_np_sub, length_tl, length_removelast. lia.
Qed.

Lemma length_normalise (F : list float) (dz_eff : float) :
  List.length (normalise np_sum F dz_eff) = (List.length F - 1)%nat.
Proof.
  unfold normalise. cbv zeta.
  destruct (_ <? _)%float; [rewrite length_map|]; apply length_np_diff.
Qed.

Lemma length_cdf_on_edges (method : string) (edges zq Fq F : list float) :
  cdf_on_edges _monotone_natural_spline method edges zq Fq = Ok F ->
  List.length F = List.length edges /\
  (method = "linear" \/ method = "spline")%string.
Proof.
  unfold cdf_on_edges.
  destruct (String.eqb method "linear") eqn:E1.
  { apply String.eqb_eq in E1. intros H. apply length_np_interp in H. auto. }
  destruct (String.eqb method "spline") eqn:E2; [|discriminate].
  apply String.eqb_eq in E2.
  intros H. unbind H as q0 H0. unbind H as q1 H1. unbind H as Fin HF.
  injection H as <-. split; [|auto]. clear HF.
  generalize (if negb (Nat.eqb (List.length Fin) 0) && (0 <? last Fin 0)%float
              then map (fun v => (v / last Fin 0)%float) Fin
              else map (fun _ => 0%float) Fin).
  induction edges as [|e es IH]; intros vs; [reflexivity|].
  destruct ((q0 <=? e)%float && (e <=? q1)%float).
  - destruct vs; cbn [List.length]; rewrite IH; reflexivity.
  - cbn [List.length]. rewrite IH. reflexivity.
Qed.

Lemma py_index_ok_length {A} (d : A) (l : list A) (i : Z) (a : A) :
  py_index d l i = Ok a -> 0 <= i -> (Z.to_nat i < List.length l)%nat.
Proof. intros H Hi. apply py_index_ok_range in H. lia. Qed.

Lemma binned_returns_shape (zq : list float) (dz : option float)
    (Nbins : option Z) (z_min z_max : option float)
    (zvector : option (list float)) (method : string) (force_range : bool)
    (g : option (list float)) (pdf : list float) :
  binned zq dz Nbins z_min z_max zvector method force_range = Ok (g, pdf) ->
  Nbins = None /\ zq <> [] /\
  (method = "linear" \/ method = "spline")%string /\
  (force_range = true ->
   is_some zvector || is_some z_min || is_some z_max = true) /\
  match zvector with
  | Some zv =>
      dz = None /\ g = None /\ List.length pdf = List.length zv /\
      (2 <= List.length zv)%nat
  | None =>
      is_some dz = true /\
      exists grid,
        g = Some grid /\ List.length pdf = List.length grid /\
        (1 <= List.length grid)%nat
  end.
Proof.
  intros H.
  destruct Nbins as [n|].
  { destruct (nbins_raises zq dz n z_min z_max zvector method force_range)
      as [e He]. rewrite He in H. discriminate. }
  split; [reflexivity|].
  unfold binned, quantiles_to_binned in H.
  destruct (force_range && _ && _ && _) eqn:Ef; [discriminate|].
  destruct (is_some zvector && _) eqn:Ev; [discriminate|].
  destruct (is_some dz && _) eqn:Ed; [discriminate|].
  unbind H as gd Hgrid. destruct gd as [z_grid dz'].
  unbind H as q0 Hq0. unbind H as d Hd. unbind H as q1 Hq1.
  unbind H as zmin_grid Hg0. unbind H as zmax_grid Hg1.
  destruct (_ && negb force_range); [discriminate|].
  unbind H as Fq HFq. unbind H as dz_eff Hdz. unbind H as F HF.
  injection H as <- <-.
  apply length_cdf_on_edges in HF as [HF Hmethod].
  cbn [List.length] in HF. rewrite length_map in HF.
  split; [intros ->; rewrite py_index_empty in Hq0; discriminate|].
  split; [exact Hmethod|].
  split.
  { intros ->. destruct zvector, z_min, z_max; cbn in *; congruence. }
  rewrite length_normalise, HF.
  apply py_index_ok_length in Hg0; [|lia].
  unfold make_grid in Hgrid.
  destruct zvector as [zv|].
  - destruct dz as [d0|]; [discriminate|].
    unbind Hgrid as z1 Hz1. unbind Hgrid as z0 Hz0.
    injection Hgrid as <- <-.
    apply py_index_ok_length in Hz1; [|lia].
    repeat split; try lia.
  - unbind Hgrid as rmin Hrmin. unbind Hgrid as rmax Hrmax.
    destruct dz as [d0|]; [|discriminate].
    split; [reflexivity|].
    exists z_grid. repeat split; lia.
Qed.


End BinnedArguments.

(** X11.  [quantiles_to_binned] cannot be used with [Nbins]: on that path
    [dz] is still [None] when the range check computes [dz/2].  Every call
    that passes [Nbins] ends in an exception; when the quantile array is
    not empty, [Nbins] is not negative, [dz] and [zvector] are not given
    and [force_range] comes with a range, the exception is this
    TypeError. *)
Theorem nbins_grid_never_returns
    (np_sum : list float -> float)
    (np_arange : float -> float -> float -> result (list float))
    (spline : list float -> list float -> list float -> result (list float))
    (zq : list float) (dz : option float) (n : Z)
    (z_min z_max : option float) (zvector : option (list float))
    (method : string) (force_range : bool) :
  (exists e,
     quantiles_to_binned np_sum np_arange spline zq dz (Some n) z_min z_max
       zvector method force_range = Raise e) /\
  (zq <> [] -> 0 <= n ->
   (force_range = true -> is_some z_min || is_some z_max = true) ->
   quantiles_to_binned np_sum np_arange spline zq None (Some n) z_min z_max
     None method force_range = Raise TypeError).
Proof. split; [apply nbins_raises | apply nbins_type_error]. Qed.

(** Ten bins over the range of three quantiles. *)
Lemma nbins_type_error_run :
  quantiles_to_binned seq_sum (fun _ _ _ => Raise TypeError)
    (fun _ _ _ => Raise TypeError) [0.1; 0.2; 0.3]%float None (Some 10)
    None None None "linear" false = Raise TypeError.
Proof. vm_compute. reflexivity. Qed.

(** X12.  What a call of [quantiles_to_binned] that returns was given, and
    the shape of what it returns.  [Nbins] was not passed, the quantile
    array is not empty and the method is 'linear' or 'spline'.  With
    [zvector], neither [dz] nor [Nbins] was passed, the grid has two points
    or more, and the result is the density alone, one value per grid point.
    Without [zvector], [dz] was passed, and the result is the grid with the
    density, of the same length. *)
Theorem quantiles_to_binned_returns
    (np_sum : list float -> float)
    (np_arange : float -> float -> float -> result (list float))
    (spline : list float -> list float -> list float -> result (list float))
    (zq : list float) (dz : option float)
    (Nbins : option Z) (z_min z_max : option float)
    (zvector : option (list float)) (method : string) (force_range : bool)
    (g : option (list float)) (pdf : list float) :
  quantiles_to_binned np_sum np_arange spline zq dz Nbins z_min z_max zvector
    method force_range = Ok (g, pdf) ->
  Nbins = None /\ zq <> [] /\
  (method = "linear" \/ method = "spline")%string /\
  (force_range = true ->
   is_some zvector || is_some z_min || is_some z_max = true) /\
  match zvector with
  | Some zv =>
      dz = None /\ g = None /\ List.length pdf = List.length zv /\
      (2 <= List.length zv)%nat
  | None =>
      is_some dz = true /\
      exists grid,
        g = Some grid /\ List.length pdf = List.length grid /\
        (1 <= List.length grid)%nat
  end.
Proof. apply binned_returns_shape. Qed.

Lemma quantiles_to_binned_returns_witness :
  @None Z = None /\ [0.1; 0.13; 0.3]%float <> [] /\
  ("linear" = "linear" \/ "linear" = "spline")%string /\
  (false = true ->
   is_some (Some [0.0; 0.1; 0.2; 0.3; 0.4]%float) || is_some (@None float)
   || is_some (@None float) = true) /\
  (@None float = None /\ @None (list float) = None /\
   List.length
     [0; 5.5882352941176476; 2.9411764705882364; 1.4705882352941171; 0]%float
   = List.length [0.0; 0.1; 0.2; 0.3; 0.4]%float /\
   (2 <= List.length [0.0; 0.1; 0.2; 0.3; 0.4]%float)%nat).
Proof.
  apply (quantiles_to_binned_returns seq_sum (fun _ _ _ => Raise TypeError)
           (fun _ _ _ => Raise TypeError) [0.1; 0.13; 0.3]%float
           None None None None (Some [0.0; 0.1; 0.2; 0.3; 0.4]%float)
           "linear" false None).
  vm_compute. reflexivity.
Defined.

(** ** The quantiles of a histogram *)

Lemma where_positive_range (Pz : list float) :
  forall i j, In j (where_positive i Pz) -> (i <= j < i + List.length Pz)%nat.
Proof.
  induction Pz as [|p Pz IH]; intros i j Hj; [destruct Hj|].
  cbn [where_positive] in Hj. cbn [List.length].
  destruct (0 <? p)%float.
  - destruct Hj as [<-|Hj]; [lia|]. apply IH in Hj. lia.
  - apply IH in Hj. lia.
Qed.

Lemma where_positive_nodup (Pz : list float) :
  forall i, NoDup (where_positive i Pz).
Proof.
  induction Pz as [|p Pz IH]; intros i; [constructor|].
  cbn [where_positive]. destruct (0 <? p)%float; [|apply IH].
  constructor; [|apply IH].
  intros Hin. apply where_positive_range in Hin. lia.
Qed.

Lemma where_positive_nth (Pz : list float) :
  forall i j, In j (where_positive i Pz) ->
              (0 <? nth (j - i) Pz 0)%float = true.
Proof.
  induction Pz as [|p Pz IH]; intros i j Hj; [destruct Hj|].
  cbn [where_positive] in Hj.
  destruct (0 <? p)%float eqn:E.
  - destruct Hj as [<-|Hj]; [rewrite Nat.sub_diag; exact E|].
    pose proof (where_positive_range _ _ _ Hj).
    apply IH in Hj. replace (j - i)%nat with (S (j - S i)) by lia. exact Hj.
  - pose proof (where_positive_range _ _ _ Hj).
    apply IH in Hj. replace (j - i)%nat with (S (j - S i)) by lia. exact Hj.
Qed.

Lemma where_positive_in (Pz : list float) :
  forall k i, (0 <? nth i Pz 0)%float = true -> (i < List.length Pz)%nat ->
              In (k + i)%nat (where_positive k Pz).
Proof.
  induction Pz as [|p Pz IH]; intros k i Hi Hlen; [simpl in Hlen; lia|].
  cbn [where_positive].
  destruct i as [|i].
  - cbn [nth] in Hi. rewrite Hi. left. lia.
  - cbn [nth List.length] in *.
    assert (Hin : In (S k + i)%nat (where_positive (S k) Pz))
      by (apply IH; [exact Hi | lia]).
    replace (k + S i)%nat with (S k + i)%nat by lia.
    destruct (0 <? p)%float; [right|]; exact Hin.
Qed.

Lemma where_positive_none (Pz : list float) :
  Forall (fun p => (0 <? p)%float = false) Pz ->
  forall i, where_positive i Pz = [].
Proof.
  induction 1 as [|p Pz Hp _ IH]; intros i; [reflexivity|].
  cbn [where_positive]. rewrite Hp. apply IH.
Qed.

Lemma fold_min_spec (l : list nat) :
  forall a, let m := fold_left Nat.min l a in
            In m (a :: l) /\ Forall (fun j => (m <= j)%nat) (a :: l).
Proof.
  induction l as [|b l IH]; intros a; cbn [fold_left].
  - split; [left; reflexivity | constructor; [lia | constructor]].
  - destruct (IH (Nat.min a b)) as [Hin Hall]. cbv zeta in *.
    set (m := fold_left Nat.min l (Nat.min a b)) in *.
    inversion Hall as [|x y Hm Hl]; subst.
    split.
    + destruct Hin as [E|Hin]; [|right; right; exact Hin].
      destruct (Nat.min_spec a b) as [[_ E']|[_ E']]; rewrite E' in E.
      * left. exact E.
      * right. left. exact E.
    + constructor; [lia|]. constructor; [lia | exact Hl].
Qed.

Lemma fold_max_spec (l : list nat) :
  forall a, let m := fold_left Nat.max l a in
            In m (a :: l) /\ Forall (fun j => (j <= m)%nat) (a :: l).
Proof.
  induction l as [|b l IH]; intros a; cbn [fold_left].
  - split; [left; reflexivity | constructor; [lia | constructor]].
  - destruct (IH (Nat.max a b)) as [Hin Hall]. cbv zeta in *.
    set (m := fold_left Nat.max l (Nat.max a b)) in *.
    inversion Hall as [|x y Hm Hl]; subst.
    split.
    + destruct Hin as [E|Hin]; [|right; right; exact Hin].
      destruct (Nat.max_spec a b) as [[_ E']|[_ E']]; rewrite E' in E.
      * right. left. exact E.
      * left. exact E.
    + constructor; [lia|]. constructor; [lia | exact Hl].
Qed.

(** A list without repetition whose least and greatest elements coincide
    has one element. *)
Lemma nodup_between (l : list nat) (m : nat) :
  NoDup l -> Forall (fun j => (m <= j)%nat) l ->
  Forall (fun j => (j <= m)%nat) l -> (List.length l <= 1)%nat.
Proof.
  intros Hnd Hlo Hhi.
  destruct l as [|a [|b l]]; cbn [List.length]; try lia.
  exfalso.
  inversion Hnd as [|x y Hna _]; subst.
  inversion Hlo as [|x y La Lr]; subst. inversion Lr as [|x y Lb _]; subst.
  inversion Hhi as [|x y Ua Ur]; subst. inversion Ur as [|x y Ub _]; subst.
  apply Hna. left. lia.
Qed.

Lemma length_slice {A} (lo hi : nat) (a : list A) :
  List.length (slice lo hi a) = Nat.min (hi - lo) (List.length a - lo).
Proof. unfold slice. rewrite length_firstn, length_skipn. reflexivity. Qed.

Lemma length_cumsum_from (l : list float) :
  forall acc, List.length (cumsum_from acc l) = List.length l.
Proof.
  induction l as [|x l IH]; intros acc; [reflexivity|].
  cbn [cumsum_from List.length]. rewrite IH. reflexivity.
Qed.

Lemma length_np_cumsum (l : list float) :
  List.length (np_cumsum l) = List.length l.
Proof.
  destruct l as [|x l]; [reflexivity|].
  cbn [np_cumsum List.length]. rewrite length_cumsum_from. reflexivity.
Qed.

Lemma broadcast_to_ok (n : nat) (src dst : list float) :
  broadcast_to n src = Ok dst ->
  List.length dst = n /\ (List.length src = n \/ List.length src = 1%nat).
Proof.
  unfold broadcast_to.
  destruct (Nat.eqb (List.length src) n) eqn:E.
  - apply Nat.eqb_eq in E. intros [= <-]. auto.
  - destruct src as [|x [|y src]]; try discriminate.
    intros [= <-]. rewrite repeat_length. auto.
Qed.

Lemma binned_to_quantiles_ok (z_grid Pz : list float) (N : Z)
    (qs : list float) :
  binned_to_quantiles z_grid Pz N = Ok qs ->
  Z.of_nat (List.length qs) = N /\
  (2 <= List.length z_grid)%nat /\
  where_positive 0 Pz <> [] /\
  forall i, In i (where_positive 0 Pz) -> (i < List.length z_grid)%nat.
Proof.
  unfold binned_to_quantiles. cbv zeta.
  set (nonzero := where_positive 0 Pz).
  destruct (Nat.eqb (List.length nonzero) 1) eqn:E1.
  - apply Nat.eqb_eq in E1. intros H.
    unbind H as z1 Hz1. unbind H as z0 Hz0. unbind H as i Hi.
    unbind H as zi Hzi.
    apply np_linspace_length in H.
    apply py_index_ok_length in Hz1; [|lia].
    apply py_index_ok_length in Hzi; [|lia].
    destruct nonzero as [|j [|k l]]; try discriminate.
    rewrite py_index_first in Hi. injection Hi as <-.
    split; [exact H|]. split; [lia|]. split; [discriminate|].
    intros i [<-|[]]. lia.
  - apply Nat.eqb_neq in E1. intros H.
    unbind H as imin Hmin. unbind H as imax Hmax.
    unbind H as z1 Hz1. unbind H as z0 Hz0.
    unbind H as cum Hcum. unbind H as c_last Hc. unbind H as targets Ht.
    apply length_np_interp in H. rewrite H. apply np_linspace_length in Ht.
    split; [exact Ht|].
    apply py_index_ok_length in Hz1; [|lia].
    rewrite length_slice in Hz1.
    destruct nonzero as [|a l] eqn:Hnz; [discriminate|].
    injection Hmin as <-. injection Hmax as <-.
    destruct (fold_min_spec l a) as [Imin Lmin].
    destruct (fold_max_spec l a) as [Imax Lmax].
    cbv zeta in *.
    set (imin := fold_left Nat.min l a) in *.
    set (imax := fold_left Nat.max l a) in *.
    assert (Rmin : (imin < List.length Pz)%nat).
    { rewrite <- Hnz in Imin. apply where_positive_range in Imin. lia. }
    assert (Rmax : (imax < List.length Pz)%nat).
    { rewrite <- Hnz in Imax. apply where_positive_range in Imax. lia. }
    assert (Hlt : (imin < imax)%nat).
    { assert (imin <= imax)%nat.
      { rewrite Forall_forall in Lmin. apply (Lmin imax Imax). }
      destruct (Nat.eq_dec imin imax) as [E|]; [|lia].
      exfalso. rewrite <- E in Lmax.
      pose proof (nodup_between (a :: l) imin) as Hn.
      rewrite <- Hnz in Hn at 1.
      specialize (Hn (where_positive_nodup Pz 0) Lmin Lmax).
      cbn [List.length] in *. lia. }
    apply broadcast_to_ok in Hcum as [_ Hcum].
    rewrite length_np_cumsum, length_map, !length_slice in Hcum.
    split; [lia|]. split; [discriminate|].
    intros i Hi. rewrite Forall_forall in Lmax. apply Lmax in Hi. lia.
Qed.

Lemma binned_to_quantiles_negative (z_grid Pz : list float) (N : Z) :
  N < 0 -> is_ok (binned_to_quantiles z_grid Pz N) = false.
Proof.
  intros HN.
  destruct (binned_to_quantiles z_grid Pz N) as [qs|] eqn:H; [|reflexivity].
  apply binned_to_quantiles_ok in H as [H _]. lia.
Qed.

(** X13.  What [binned_to_quantiles] returns and needs.  When it returns,
    it returns exactly [Nquantiles] values, [Nquantiles] is not negative,
    the grid has two points or more, some bin of the histogram is positive,
    and every positive bin has a grid point. *)
Theorem binned_to_quantiles_contract (z_grid Pz : list float) (N : Z)
    (qs : list float) :
  binned_to_quantiles z_grid Pz N = Ok qs ->
  Z.of_nat (List.length qs) = N /\
  (2 <= List.length z_grid)%nat /\
  (exists i, (i < List.length z_grid)%nat /\ (0 <? nth i Pz 0)%float = true) /\
  (forall i, (0 <? nth i Pz 0)%float = true -> (i < List.length Pz)%nat ->
             (i < List.length z_grid)%nat).
Proof.
  intros H. apply binned_to_quantiles_ok in H as (H1 & H2 & H3 & H4).
  split; [exact H1|]. split; [exact H2|]. split.
  - destruct (where_positive 0 Pz) as [|i l] eqn:E; [contradiction|].
    exists i. split; [apply H4; left; reflexivity|].
    assert (Hin : In i (where_positive 0 Pz)) by (rewrite E; left; reflexivity).
    apply where_positive_nth in Hin. rewrite Nat.sub_0_r in Hin. exact Hin.
  - intros i Hi Hlen. apply H4.
    apply (where_positive_in Pz 0 i Hi Hlen).
Qed.

Lemma binned_to_quantiles_contract_witness :
  Z.of_nat (List.length [0.050000000000000003; 0.16; 0.20999999999999999;
                         0.26666666666666666; 0.34999999999999998]%float) = 5 /\
  (2 <= List.length [0.0; 0.1; 0.2; 0.3; 0.4]%float)%nat /\
  (exists i, (i < List.length [0.0; 0.1; 0.2; 0.3; 0.4]%float)%nat /\
             (0 <? nth i [0; 0.2; 0.5; 0.3; 0] 0)%float = true) /\
  (forall i, (0 <? nth i [0; 0.2; 0.5; 0.3; 0] 0)%float = true ->
             (i < List.length [0; 0.2; 0.5; 0.3; 0]%float)%nat ->
             (i < List.length [0.0; 0.1; 0.2; 0.3; 0.4]%float)%nat).
Proof.
  apply (binned_to_quantiles_contract [0.0; 0.1; 0.2; 0.3; 0.4]%float
           [0; 0.2; 0.5; 0.3; 0]%float 5).
  vm_compute. reflexivity.
Defined.

Lemma binned_to_quantiles_no_mass (z_grid Pz : list float) (N : Z) :
  Forall (fun p => (0 <? p)%float = false) Pz ->
  binned_to_quantiles z_grid Pz N = Raise (ValueError Extractor).
Proof.
  intros H. unfold binned_to_quantiles.
  rewrite (where_positive_none Pz H 0). reflexivity.
Qed.

Lemma binned_to_quantiles_single (z_grid Pz : list float) (N : Z) (i : nat) :
  where_positive 0 Pz = [i] -> (i < List.length z_grid)%nat ->
  (2 <= List.length z_grid)%nat -> 2 <= N ->
  exists qs,
    binned_to_quantiles z_grid Pz N = Ok qs /\
    let dz := (nth 1 z_grid 0 - nth 0 z_grid 0)%float in
    last qs 0%float = (nth i z_grid 0 + dz / 2)%float.
Proof.
  intros Hw Hi Hlen HN. unfold binned_to_quantiles. rewrite Hw.
  cbn [List.length Nat.eqb].
  destruct z_grid as [|g0 [|g1 zg]]; try (simpl in Hlen; lia).
  rewrite py_index_first.
  replace (py_index 0%float (g0 :: g1 :: zg) 1) with (Ok g1).
  2:{ unfold py_index. cbn [Z.ltb Z.compare Z.leb andb].
      destruct (1 <? Z.of_nat (List.length (g0 :: g1 :: zg))) eqn:E;
        [reflexivity|]. apply Z.ltb_ge in E. cbn [List.length] in E. lia. }
  cbn [bind]. rewrite py_index_first. cbn [bind].
  replace (py_index 0%float (g0 :: g1 :: zg) (Z.of_nat i))
    with (Ok (nth i (g0 :: g1 :: zg) 0%float)).
  2:{ unfold py_index.
      destruct (Z.of_nat i <? 0) eqn:E0; [apply Z.ltb_lt in E0; lia|].
      destruct (0 <=? Z.of_nat i) eqn:E1; [|apply Z.leb_gt in E1; lia].
      destruct (Z.of_nat i <? Z.of_nat (List.length (g0 :: g1 :: zg))) eqn:E2;
        [|apply Z.ltb_ge in E2; lia].
      cbn [andb]. rewrite Nat2Z.id. reflexivity. }
  cbn [bind]. cbv zeta. cbn [nth]. apply np_linspace_last. exact HN.
Qed.

(** X14.  The cases of [binned_to_quantiles] at the edges.  A histogram
    without a positive bin raises ValueError (numpy's, from the minimum of
    an empty index array), whatever the grid and the count; a negative
    count never gives quantiles; and a histogram with a single positive bin
    [i] is taken for a delta: for two quantiles or more the result is
    [Nquantiles] values that end exactly at [z_grid[i] + dz/2]. *)
Theorem binned_to_quantiles_edges (z_grid Pz : list float) (N : Z) :
  (Forall (fun p => (0 <? p)%float = false) Pz ->
   binned_to_quantiles z_grid Pz N = Raise (ValueError Extractor)) /\
  (N < 0 -> is_ok (binned_to_quantiles z_grid Pz N) = false) /\
  (forall i,
     where_positive 0 Pz = [i] -> (i < List.length z_grid)%nat ->
     (2 <= List.length z_grid)%nat -> 2 <= N ->
     exists qs,
       binned_to_quantiles z_grid Pz N = Ok qs /\
       Z.of_nat (List.length qs) = N /\
       let dz := (nth 1 z_grid 0 - nth 0 z_grid 0)%float in
       last qs 0%float = (nth i z_grid 0 + dz / 2)%float).
Proof.
  split; [apply binned_to_quantiles_no_mass|].
  split; [apply binned_to_quantiles_negative|].
  intros i Hw Hi Hlen HN.
  destruct (binned_to_quantiles_single z_grid Pz N i Hw Hi Hlen HN)
    as (qs & Hqs & Hlast).
  exists qs. split; [exact Hqs|]. split; [|exact Hlast].
  apply binned_to_quantiles_ok in Hqs as [H _]. exact H.
Qed.

(** A histogram with all its mass in the bin at 0.2, on a grid of step
    0.1. *)
Lemma single_bin_run :
  where_positive 0 [0; 0; 1; 0; 0]%float = [2%nat] /\
  binned_to_quantiles [0.0; 0.1; 0.2; 0.3; 0.4]%float [0; 0; 1; 0; 0]%float 5
  = Ok [0.15000000000000002; 0.17500000000000002; 0.20000000000000001;
        0.22500000000000001; 0.25]%float.
Proof. split; vm_compute; reflexivity. Qed.

(** ** encode_from_binned ends *)

Section HistogramSearch.

Variable np_sum : list float -> float.
Variable samples_to_quantiles : list float -> Z -> result (list float).
Variable packetsize : Z.
Variable tolerance : option float.
Variable validate : bool.

(** The loop of a histogram row does not call the extractor of samples. *)
Lemma search_loop_histogram (sq' : list float -> Z -> result (list float))
    (zv Pz : list float) :
  forall fuel N lastgood,
    search_loop binned_to_quantiles samples_to_quantiles packetsize tolerance
      validate fuel (HistogramRow zv Pz) N lastgood
    = search_loop binned_to_quantiles sq' packetsize tolerance validate fuel
        (HistogramRow zv Pz) N lastgood.
Proof.
  induction fuel as [|fuel IH]; intros N lastgood; [reflexivity|].
  cbn [search_loop extract_quantiles].
  destruct (binned_to_quantiles zv Pz N) as [q|e]; [|reflexivity].
  destruct (encode_quantiles q packetsize validate tolerance) as [[L p]|e].
  - destruct (L <? packetsize - 5); [apply IH|].
    destruct (L =? packetsize - 5); [reflexivity | apply IH].
  - destruct e; try reflexivity. destruct lastgood; [reflexivity | apply IH].
Qed.

Lemma histogram_search_bounded (zv Pz : list float) (ini_quantiles : Z) :
  exists r,
    search_loop binned_to_quantiles samples_to_quantiles packetsize tolerance
      validate (search_bound ini_quantiles packetsize) (HistogramRow zv Pz)
      ini_quantiles None = Some r.
Proof.
  rewrite (search_loop_histogram (fun _ => np_linspace 0 0)).
  apply search_loop_bounded.
  - intros [zv' Pz'|s] N HN; cbn [extract_quantiles].
    + apply binned_to_quantiles_negative. exact HN.
    + apply np_linspace_negative. exact HN.
  - intros [zv' Pz'|s] N q Hq; cbn [extract_quantiles] in Hq.
    + apply binned_to_quantiles_ok in Hq as [H _]. exact H.
    + apply np_linspace_length in Hq. exact Hq.
Qed.

Lemma histogram_rows_bounded (zv : list float) (ini_quantiles : Z)
    (PDF : list (list float)) :
  exists r,
    encode_rows np_sum binned_to_quantiles samples_to_quantiles packetsize
      tolerance validate (search_bound ini_quantiles packetsize)
      ini_quantiles (map (HistogramRow zv) PDF) = Some r.
Proof.
  induction PDF as [|Pz PDF [r IH]]; [simpl; eauto|].
  cbn [map encode_rows]. unfold encode_row.
  destruct (negb _).
  - rewrite IH. destruct r; eauto.
  - destruct (histogram_search_bounded zv Pz ini_quantiles) as [r' Hr'].
    rewrite Hr'.
    destruct r' as [packet|e]; [|eauto].
    destruct (frombuffer_i4 packet); [|eauto].
    rewrite IH. destruct r; eauto.
Qed.

End HistogramSearch.

(** X15.  [encode_from_binned] always ends.  With the quantiles taken from
    the histograms by [binned_to_quantiles], the search loop of every row is
    left within [search_bound ini_quantiles packetsize] passes, whatever the
    histograms, the grid and the other arguments: the call returns the
    column or raises. *)
Theorem encode_from_binned_terminates
    (np_sum : list float -> float)
    (samples_to_quantiles : list float -> Z -> result (list float))
    (PDF : list (list float)) (zvector : list float)
    (ini_quantiles packetsize : Z) (tolerance : option float)
    (validate : option bool) :
  exists r,
    encode_from_binned np_sum samples_to_quantiles
      (search_bound ini_quantiles packetsize) PDF zvector ini_quantiles
      packetsize tolerance validate = Some r.
Proof.
  unfold encode_from_binned, _batch_encode.
  destruct (negb _); [eauto|].
  destruct (_ <? _); [eauto|].
  destruct (_ <? _); [eauto|].
  apply histogram_rows_bounded.
Qed.

(** ** decode_to_binned *)

Lemma any_nonzero_false (row : list Z) :
  any_nonzero row = false -> row = repeat 0 (List.length row).
Proof.
  unfold any_nonzero. induction row as [|w row IH]; [reflexivity|].
  cbn [existsb List.length repeat]. intros H.
  apply orb_false_elim in H as [Hw Hr].
  apply negb_false_iff, Z.eqb_eq in Hw. subst w.
  f_equal. apply IH. exact Hr.
Qed.

Lemma any_nonzero_zeros (n : nat) : any_nonzero (repeat 0 n) = false.
Proof. induction n as [|n IH]; [reflexivity | exact IH]. Qed.

Section DecodeToBinnedFacts.

Variable np_sum : list float -> float.
Variable np_arange : float -> float -> float -> result (list float).
Variable _monotone_natural_spline :
  list float -> list float -> list float -> result (list float).

Let binned := quantiles_to_binned np_sum np_arange _monotone_natural_spline.
Let row_of := decode_row np_sum np_arange _monotone_natural_spline.

Lemma wrap_value_error_ok {A} (r : result A) (a : A) :
  wrap_value_error r = Ok a -> r = Ok a.
Proof. destruct r as [|[]]; cbn; congruence. Qed.

Lemma decode_row_ok (row : list Z) (zvector : list float) (force_range : bool)
    (method : string) (prow : list float) :
  row_of row zvector force_range method = Ok prow ->
  List.length prow = List.length zvector /\
  if any_nonzero row
  then exists q pdf,
         decode_quantiles (tobytes row) = Ok q /\
         binned q None None None None (Some zvector) method force_range
         = Ok (None, pdf) /\
         prow = map to_float32 pdf
  else prow = repeat 0%float (List.length zvector).
Proof.
  unfold row_of, decode_row. destruct (any_nonzero row).
  - intros H. unbind H as q Hq. unbind H as r Hr. injection H as <-.
    apply wrap_value_error_ok in Hr. destruct r as [g pdf].
    destruct (binned_returns_shape _ _ _ _ _ _ _ _ _ _ _ _ _ Hr)
      as (_ & _ & _ & _ & _ & -> & Hlen & _).
    cbn [snd]. rewrite length_map.
    split; [exact Hlen|]. exists q, pdf. auto.
  - intros [= <-]. rewrite repeat_length. auto.
Qed.

Lemma decode_rows_ok (zvector : list float) (force_range : bool)
    (method : string) :
  forall int32col PDF,
    decode_rows np_sum np_arange _monotone_natural_spline int32col zvector
      force_range method = Ok PDF ->
    Forall2 (fun row prow => row_of row zvector force_range method = Ok prow)
      int32col PDF.
Proof.
  induction int32col as [|row rows IH]; intros PDF H.
  - injection H as <-. constructor.
  - cbn [decode_rows] in H. unbind H as r Hr. unbind H as rest Hrest.
    injection H as <-. constructor; [exact Hr | apply IH; exact Hrest].
Qed.

End DecodeToBinnedFacts.

(** X16.  What [decode_to_binned] returns: one row per row of the column,
    each with one value per point of [zvector].  A row of zero words is not
    decoded and gives a density of zeros; any other row gives the density
    that [quantiles_to_binned] computes on [zvector] from the quantiles
    decoded from the bytes of the row, rounded to binary32. *)
Theorem decode_to_binned_rows
    (np_sum : list float -> float)
    (np_arange : float -> float -> float -> result (list float))
    (spline : list float -> list float -> list float -> result (list float))
    (int32col : list (list Z)) (zvector : list float) (force_range : bool)
    (method : string) (PDF : list (list float)) :
  decode_to_binned np_sum np_arange spline int32col zvector force_range method
  = Ok PDF ->
  List.length PDF = List.length int32col /\
  forall i row prow,
    nth_error int32col i = Some row -> nth_error PDF i = Some prow ->
    List.length prow = List.length zvector /\
    (any_nonzero row = false -> prow = repeat 0%float (List.length zvector)) /\
    (any_nonzero row = true ->
     exists q pdf,
       decode_quantiles (tobytes row) = Ok q /\
       quantiles_to_binned np_sum np_arange spline q None None None None
         (Some zvector) method force_range = Ok (None, pdf) /\
       prow = map to_float32 pdf).
Proof.
  unfold decode_to_binned. intros H. apply decode_rows_ok in H.
  split; [symmetry; eapply Forall2_length; exact H|].
  intros i row prow Hrow Hprow.
  pose proof (Forall2_nth_error _ _ _ H i row prow Hrow Hprow) as Hr.
  apply decode_row_ok in Hr as [Hlen Hr].
  split; [exact Hlen|].
  destruct (any_nonzero row); split; intros E; try discriminate; exact Hr.
Qed.

Lemma decode_to_binned_rows_witness :
  List.length [[0; 0; 0; 0; 0];
               [0; 1.6666666269302368; 3.3333332538604736;
                3.3333332538604736; 1.6666666269302368]]%float
  = List.length [[0; 0]; [505807362; 150665978]] /\
  forall i row prow,
    nth_error [[0; 0]; [505807362; 150665978]] i = Some row ->
    nth_error [[0; 0; 0; 0; 0];
               [0; 1.6666666269302368; 3.3333332538604736;
                3.3333332538604736; 1.6666666269302368]]%float i = Some prow ->
    List.length prow = List.length [0.0; 0.1; 0.2; 0.3; 0.4]%float /\
    (any_nonzero row = false ->
     prow = repeat 0%float (List.length [0.0; 0.1; 0.2; 0.3; 0.4]%float)) /\
    (any_nonzero row = true ->
     exists q pdf,
       decode_quantiles (tobytes row) = Ok q /\
       quantiles_to_binned seq_sum (fun _ _ _ => Raise TypeError)
         (fun _ _ _ => Raise TypeError) q None None None None
         (Some [0.0; 0.1; 0.2; 0.3; 0.4]%float) "linear" false
       = Ok (None, pdf) /\
       prow = map to_float32 pdf).
Proof.
  apply (decode_to_binned_rows seq_sum (fun _ _ _ => Raise TypeError)
           (fun _ _ _ => Raise TypeError) [[0; 0]; [505807362; 150665978]]
           [0.0; 0.1; 0.2; 0.3; 0.4]%float false "linear").
  vm_compute. reflexivity.
Defined.

(** ** From the encoder to the decoder *)

Lemma encoded_packet_nonzero (q : list float) (packetsize : Z)
    (validate : bool) (tolerance : option float) (L : Z) (packet : list byte) :
  encode_quantiles q packetsize validate tolerance = Ok (L, packet) ->
  max_byte packet <> 0.
Proof.
  intros H. destruct (encode_quantiles_ok _ _ _ _ _ _ H).
  pose proof (eps_code_ge_1 _ _ _ _ tr_eps_eq tr_code_eq) as Hc.
  rewrite tr_packet. cbn [app].
  match goal with |- max_byte (?b :: ?l) <> 0 =>
    pose proof (max_byte_head b l) as Hm end.
  rewrite byte_val_of in Hm by lia. lia.
Qed.

Lemma batch_rows_flagged
    (np_sum : list float -> float)
    (binned_to_quantiles : list float -> list float -> Z -> result (list float))
    (samples_to_quantiles : list float -> Z -> result (list float))
    (packetsize : Z) (tolerance : option float) (validate : bool)
    (fuel : nat) (data : batch_data) (ini_quantiles : Z)
    (out : list (list Z)) :
  _batch_encode np_sum binned_to_quantiles samples_to_quantiles packetsize
    tolerance validate fuel data ini_quantiles = Some (Ok out) ->
  Forall2 (fun row words => any_nonzero words = row_valid np_sum row)
    (rows_of data) out.
Proof.
  intros H. unfold _batch_encode in H.
  destruct (negb _); [discriminate|].
  destruct (_ <? _); [discriminate|].
  destruct (_ <? _); [discriminate|].
  apply encode_rows_result in H.
  eapply Forall2_impl; [|exact H].
  intros row words Hr. cbv beta in Hr.
  apply encode_row_result in Hr.
  destruct (row_valid np_sum row).
  - destruct Hr as [(N & L & _ & (q & _ & Henc) & _) _].
    apply encoded_packet_nonzero in Henc.
    destruct (any_nonzero words) eqn:E; [reflexivity|].
    exfalso. apply Henc. apply any_nonzero_false in E. rewrite E.
    apply tobytes_zeros.
  - subst words. apply any_nonzero_zeros.
Qed.

(** X17.  The sentinel survives the whole path.  In the column a batch call
    returns, the rows that are not all zero are exactly the rows of the
    valid inputs, so the zero test of [decode_to_binned] skips the inputs
    the encoder skipped and no others; and [decode_to_binned] gives a
    density of zeros for each of them. *)
Theorem sentinel_through_decode
    (np_sum : list float -> float)
    (binned_to_quantiles : list float -> list float -> Z -> result (list float))
    (samples_to_quantiles : list float -> Z -> result (list float))
    (packetsize : Z) (tolerance : option float) (validate : bool)
    (fuel : nat) (data : batch_data) (ini_quantiles : Z)
    (out : list (list Z)) :
  _batch_encode np_sum binned_to_quantiles samples_to_quantiles packetsize
    tolerance validate fuel data ini_quantiles = Some (Ok out) ->
  Forall2 (fun row words => any_nonzero words = row_valid np_sum row)
    (rows_of data) out /\
  forall np_sum' np_arange spline zvector force_range method PDF,
    decode_to_binned np_sum' np_arange spline out zvector force_range method
    = Ok PDF ->
    forall i row prow,
      nth_error (rows_of data) i = Some row -> nth_error PDF i = Some prow ->
      row_valid np_sum row = false ->
      prow = repeat 0%float (List.length zvector).
Proof.
  intros H. pose proof (batch_rows_flagged _ _ _ _ _ _ _ _ _ _ H) as F.
  split; [exact F|].
  intros np_sum' np_arange spline zvector force_range method PDF Hdec
    i row prow Hrow Hprow Hinvalid.
  unfold decode_to_binned in Hdec. apply decode_rows_ok in Hdec.
  destruct (nth_error out i) as [words|] eqn:Hw.
  - pose proof (Forall2_nth_error _ _ _ F i row words Hrow Hw) as Hflag.
    cbv beta in Hflag. rewrite Hinvalid in Hflag.
    pose proof (Forall2_nth_error _ _ _ Hdec i words prow Hw Hprow) as Hr.
    apply decode_row_ok in Hr as [_ Hr]. rewrite Hflag in Hr. exact Hr.
  - apply nth_error_None in Hw. apply Forall2_length in Hdec.
    assert (i < List.length PDF)%nat by (apply nth_error_Some; congruence).
    lia.
Qed.

Lemma sentinel_through_decode_witness :
  Forall2 (fun row words => any_nonzero words = row_valid seq_sum row)
    (rows_of (Samples [[0.1; infinity; 0.4]; [0.1; 0.2; 0.4]]%float))
    [[0; 0]; [505807362; 150665978]] /\
  forall np_sum' np_arange spline zvector force_range method PDF,
    decode_to_binned np_sum' np_arange spline [[0; 0]; [505807362; 150665978]]
      zvector force_range method = Ok PDF ->
    forall i row prow,
      nth_error (rows_of (Samples [[0.1; infinity; 0.4]; [0.1; 0.2; 0.4]]%float))
        i = Some row ->
      nth_error PDF i = Some prow ->
      row_valid seq_sum row = false ->
      prow = repeat 0%float (List.length zvector).
Proof.
  apply (sentinel_through_decode seq_sum (fun _ => uniform_quantiles)
           uniform_quantiles 8 (Some 0.001%float) true (search_bound 5 8)
           (Samples [[0.1; infinity; 0.4]; [0.1; 0.2; 0.4]]%float) 5).
  vm_compute. reflexivity.
Defined.

(** ** Too few quantiles to start from *)

Lemma encode_quantiles_count (q : list float) (packetsize : Z)
    (validate : bool) (tolerance : option float) (r : Z * list byte) :
  encode_quantiles q packetsize validate tolerance = Ok r ->
  packetsize + 2 <= 3 * Z.of_nat (List.length q).
Proof.
  destruct r as [L packet]. intros H.
  pose proof (encode_quantiles_gap_index _ _ _ _ _ _ H) as Hgap.
  destruct (encode_quantiles_ok _ _ _ _ _ _ H).
  assert (0 <= (packetsize - (Z.of_nat (List.length q) + 3)) / 2)
    by (apply Z.div_pos; lia).
  replace (Z.of_nat (List.length q - 2)) with (Z.of_nat (List.length q) - 2)
    in Hgap by lia.
  Z.div_mod_to_equations. lia.
Qed.

Section LowStart.

Variable np_sum : list float -> float.
Variable binned_to_quantiles : list float -> list float -> Z -> result (list float).
Variable samples_to_quantiles : list float -> Z -> result (list float).
Variable packetsize : Z.
Variable tolerance : option float.
Variable validate : bool.

Hypothesis extract_length :
  forall row N q,
    extract_quantiles binned_to_quantiles samples_to_quantiles row N = Ok q ->
    Z.of_nat (List.length q) = N.

(** Below a third of the packet size no count is accepted, and before a
    first success the count only goes down. *)
Lemma search_loop_low (row : source_row) :
  forall fuel N p,
    3 * N < packetsize + 2 ->
    search_loop binned_to_quantiles samples_to_quantiles packetsize tolerance
      validate fuel row N None <> Some (Ok p).
Proof.
  induction fuel as [|fuel IH]; intros N p HN; [discriminate|].
  cbn [search_loop].
  destruct (extract_quantiles _ _ row N) as [q|e] eqn:Hq; [|discriminate].
  apply extract_length in Hq.
  destruct (encode_quantiles q packetsize validate tolerance) as [r|e] eqn:Henc.
  - apply encode_quantiles_count in Henc. lia.
  - destruct e; try discriminate. apply IH. lia.
Qed.

Lemma encode_rows_low (fuel : nat) (ini_quantiles : Z) :
  3 * ini_quantiles < packetsize + 2 ->
  forall rows out row,
    In row rows -> row_valid np_sum row = true ->
    encode_rows np_sum binned_to_quantiles samples_to_quantiles packetsize
      tolerance validate fuel ini_quantiles rows <> Some (Ok out).
Proof.
  intros Hini rows out row Hin Hvalid H.
  apply encode_rows_result in H.
  apply In_nth_error in Hin as [i Hi].
  destruct (nth_error out i) as [words|] eqn:Hw.
  - pose proof (Forall2_nth_error _ _ _ H i row words Hi Hw) as Hr.
    cbv beta in Hr. unfold encode_row in Hr. rewrite Hvalid in Hr.
    cbn [negb] in Hr.
    destruct (search_loop _ _ _ _ _ _ _ _ _) as [[packet|e]|] eqn:Hloop;
      try discriminate.
    exact (search_loop_low row fuel ini_quantiles packet Hini Hloop).
  - apply nth_error_None in Hw. apply Forall2_length in H.
    assert (i < List.length rows)%nat by (apply nth_error_Some; congruence).
    lia.
Qed.

End LowStart.

(** X18.  A batch call must start from enough quantiles.  When
    [3 * ini_quantiles < packetsize + 2] and the extractors return as many
    quantiles as they are asked for, no count the search tries is accepted:
    as soon as one input row is valid the call does not return a column, it
    ends in an exception (the IndexError of the gap lookup, or the
    extractor's refusal of a negative count). *)
Theorem batch_needs_enough_quantiles
    (np_sum : list float -> float)
    (binned_to_quantiles : list float -> list float -> Z -> result (list float))
    (samples_to_quantiles : list float -> Z -> result (list float))
    (packetsize : Z) (tolerance : option float) (validate : bool)
    (fuel : nat) (data : batch_data) (ini_quantiles : Z)
    (row : source_row) (out : list (list Z)) :
  (forall row N q,
     extract_quantiles binned_to_quantiles samples_to_quantiles row N = Ok q ->
     Z.of_nat (List.length q) = N) ->
  3 * ini_quantiles < packetsize + 2 ->
  In row (rows_of data) -> row_valid np_sum row = true ->
  _batch_encode np_sum binned_to_quantiles samples_to_quantiles packetsize
    tolerance validate fuel data ini_quantiles <> Some (Ok out).
Proof.
  intros Hlen Hini Hin Hvalid. unfold _batch_encode.
  destruct (negb _); [discriminate|].
  destruct (_ <? _); [discriminate|].
  destruct (_ <? _); [discriminate|].
  apply (encode_rows_low _ _ _ _ _ _ Hlen _ _ Hini _ _ row); assumption.
Qed.

Lemma batch_needs_enough_quantiles_witness :
  _batch_encode seq_sum (fun _ => uniform_quantiles) uniform_quantiles 80
    (Some 0.001%float) true (search_bound 5 80)
    (Samples [[0.1; 0.2; 0.4]]%float) 5
  = Some (Raise IndexError) /\
  _batch_encode seq_sum (fun _ => uniform_quantiles) uniform_quantiles 80
    (Some 0.001%float) true (search_bound 5 80)
    (Samples [[0.1; 0.2; 0.4]]%float) 5
  <> Some (Ok [[]]).
Proof.
  split; [vm_compute; reflexivity|].
  apply (batch_needs_enough_quantiles seq_sum (fun _ => uniform_quantiles)
           uniform_quantiles 80 (Some 0.001%float) true (search_bound 5 80)
           (Samples [[0.1; 0.2; 0.4]]%float) 5
           (SamplesRow [0.1; 0.2; 0.4]%float)).
  - intros [zv Pz|s] N q Hq; apply np_linspace_length in Hq; exact Hq.
  - lia.
  - left. reflexivity.
  - vm_compute. reflexivity.
Defined.

(** ** Every row of a column decodes *)

Lemma encoded_then_decoded (q : list float) (packetsize : Z)
    (validate : bool) (tolerance : option float) (L : Z) (packet : list byte) :
  encode_quantiles q packetsize validate tolerance = Ok (L, packet) ->
  exists qrec,
    decode_quantiles packet = Ok qrec /\
    (2 <= List.length qrec <= List.length q)%nat /\
    (validate = true -> List.length qrec = List.length q).
Proof.
  intros H.
  pose proof (encode_quantiles_count _ _ _ _ _ H) as Hcount.
  destruct (encode_quantiles_ok _ _ _ _ _ _ H).
  destruct (decode_encoded_deltas eps (Z.to_nat (packetsize - 5 - L)) _ _ _
              tr_payload_eq) as (ds & Hds & Hlen & Hdec).
  rewrite length_interior in Hlen.
  assert (Hdq : decode_quantiles packet
                = Ok ((Z2float xmin * 0.0002 - 0.01)%float
                      :: accumulate (Z2float code * 0.00001)%float
                           (Z2float xmin * 0.0002 - 0.01)%float
                           (strip_zeros ds)
                      ++ [(Z2float xmax * 0.0002 - 0.01)%float])).
  { rewrite tr_packet. cbn [app]. unfold decode_quantiles.
    rewrite py_index_first. cbn [bind skipn firstn unpack_HH_le].
    rewrite decode_loop_deltas, Hdec. cbn [bind].
    assert (Hb : forall k, 0 <= k <= 65535 ->
      byte_val (byte_of (k mod 256)) + 256 * byte_val (byte_of (k / 256)) = k).
    { intros k Hk. rewrite !byte_val_of.
      - pose proof (Z.div_mod k 256 ltac:(lia)). lia.
      - split; [apply Z.div_pos; lia|].
        enough (k / 256 < 256) by lia. apply Z.div_lt_upper_bound; lia.
      - pose proof (Z.mod_pos_bound k 256). lia. }
    rewrite (byte_val_of code) by exact tr_code_range.
    rewrite !Hb by lia. reflexivity. }
  eexists. split; [exact Hdq|].
  cbn [List.length]. rewrite length_app, length_accumulate. cbn [List.length].
  destruct (length_strip_zeros ds) as [S1 _].
  split; [lia|].
  intros Hv. specialize (tr_validated Hv). unfold validate_packet in tr_validated.
  rewrite Hdq in tr_validated. cbn [bind] in tr_validated.
  destruct (negb _) eqn:E; [discriminate|].
  apply negb_false_iff, Nat.eqb_eq in E. rewrite <- E.
  cbn [List.length]. rewrite length_app, length_accumulate. cbn [List.length].
  reflexivity.
Qed.

(** X19.  A column returned by a batch call can always be read back: every
    row is either the all-zero sentinel or the bytes of a packet that
    [decode_quantiles] decodes without an exception, to at least 2 values
    and at most as many as were encoded; and to exactly as many when the
    batch was encoded with validation. *)
Theorem batch_rows_decode
    (np_sum : list float -> float)
    (binned_to_quantiles : list float -> list float -> Z -> result (list float))
    (samples_to_quantiles : list float -> Z -> result (list float))
    (packetsize : Z) (tolerance : option float) (validate : bool)
    (fuel : nat) (data : batch_data) (ini_quantiles : Z)
    (out : list (list Z)) :
  _batch_encode np_sum binned_to_quantiles samples_to_quantiles packetsize
    tolerance validate fuel data ini_quantiles = Some (Ok out) ->
  Forall (fun words =>
            any_nonzero words = false \/
            exists q L qrec,
              encode_quantiles q packetsize validate tolerance
              = Ok (L, tobytes words) /\
              decode_quantiles (tobytes words) = Ok qrec /\
              (2 <= List.length qrec <= List.length q)%nat /\
              (validate = true -> List.length qrec = List.length q)) out.
Proof.
  intros H.
  pose proof (batch_rows_flagged _ _ _ _ _ _ _ _ _ _ H) as F.
  unfold _batch_encode in H.
  destruct (negb _); [discriminate|].
  destruct (_ <? _); [discriminate|].
  destruct (_ <? _); [discriminate|].
  apply encode_rows_result in H.
  apply Forall_forall. intros words Hin.
  apply In_nth_error in Hin as [i Hi].
  destruct (nth_error (rows_of data) i) as [row|] eqn:Hrow.
  - pose proof (Forall2_nth_error _ _ _ H i row words Hrow Hi) as Hr.
    cbv beta in Hr. apply encode_row_result in Hr.
    destruct (row_valid np_sum row) eqn:Hv.
    + right. destruct Hr as [(N & L & _ & (q & _ & Henc) & _) _].
      destruct (encoded_then_decoded _ _ _ _ _ _ Henc) as (qrec & D1 & D2 & D3).
      exists q, L, qrec. auto.
    + left. subst words. apply any_nonzero_zeros.
  - apply nth_error_None in Hrow. apply Forall2_length in H.
    assert (i < List.length out)%nat by (apply nth_error_Some; congruence).
    lia.
Qed.

Lemma batch_rows_decode_witness :
  Forall (fun words =>
            any_nonzero words = false \/
            exists q L qrec,
              encode_quantiles q 8 true (Some 0.001%float)
              = Ok (L, tobytes words) /\
              decode_quantiles (tobytes words) = Ok qrec /\
              (2 <= List.length qrec <= List.length q)%nat /\
              (true = true -> List.length qrec = List.length q))
    [[0; 0]; [505807362; 150665978]].
Proof.
  apply (batch_rows_decode seq_sum (fun _ => uniform_quantiles)
           uniform_quantiles 8 (Some 0.001%float) true (search_bound 5 8)
           (Samples [[0.1; infinity; 0.4]; [0.1; 0.2; 0.4]]%float) 5).
  vm_compute. reflexivity.
Defined.
